(** * UI-Test-Template-Runner: step interpreter, visual comparator,
      run scheduler and baseline approval workflow

    A shallow embedding of [src/runner/executor.ts] (class [StepExecutor]),
    [src/runner/test-runner.ts] ([getConcurrency], [getRetries], [chunk],
    [runSingleTest], [runTests]) and [src/cli/approve.ts]
    ([approveBaselines]).

    Asynchronous code is written as a program tree ([Prog]): every call
    that leaves the function under study (browser, file system, clock,
    reporter, console, prompt) is a node of the tree, and the result of the
    call is the argument of the continuation. One tree has two readings:
    [run] executes it alone against a [World]; [sched_step] interleaves the
    trees of one [Promise.all] batch. *)

From Stdlib Require Import ZArith QArith String Ascii List Bool Lia.
From stdpp Require Import base option list gmap strings pretty.

Local Open Scope string_scope.
Local Open Scope list_scope.
Local Open Scope stdpp_scope.
Local Open Scope Z_scope.

(** ** JavaScript values used by the runner *)

(** A call either returns or throws an [Error] carrying a message. *)
Inductive Exc (A : Type) : Type :=
| Normal (a : A)
| Thrown (msg : string).
Arguments Normal {A} a.
Arguments Thrown {A} msg.

(** The double-quote character, for messages that quote a word. *)
Definition dq : string := String (ascii_of_nat 34) EmptyString.

Module JsString.

(** [s.startsWith(p)] *)
Definition startsWith (s p : string) : bool := String.prefix p s.

(** [s.endsWith(p)] *)
Definition endsWith (s p : string) : bool :=
  let n := String.length s in
  let m := String.length p in
  if (m <=? n)%nat then String.eqb (substring (n - m) m s) p else false.

(** [s.slice(from, to)]: negative indices count from the end, both ends
    are clamped to the string. *)
Definition slice (s : string) (from to : Z) : string :=
  let len := Z.of_nat (String.length s) in
  let norm i := if i <? 0 then Z.max (len + i) 0 else Z.min i len in
  let a := norm from in
  let b := norm to in
  substring (Z.to_nat a) (Z.to_nat (b - a)) s.

(** [s.slice(from)] *)
Definition sliceFrom (s : string) (from : Z) : string :=
  slice s from (Z.of_nat (String.length s)).

(** [s.includes(p)] *)
Fixpoint includes (s p : string) : bool :=
  String.prefix p s ||
  match s with
  | EmptyString => false
  | String _ s' => includes s' p
  end.

(** White space as [String.prototype.trim] and [parseInt] see it
    (the ASCII part: TAB, LF, VT, FF, CR, SPACE). *)
Definition isSpace (c : ascii) : bool :=
  let n := nat_of_ascii c in
  ((9 <=? n) && (n <=? 13))%nat || (n =? 32)%nat.

Fixpoint trimStart (s : string) : string :=
  match s with
  | String c s' => if isSpace c then trimStart s' else s
  | EmptyString => EmptyString
  end.

(** [s.trim() !== ''] *)
Definition nonBlank (s : string) : bool :=
  negb (String.eqb (trimStart s) "").

(** [arr.join(sep)] on an array of strings *)
Fixpoint join (sep : string) (l : list string) : string :=
  match l with
  | [] => ""
  | [x] => x
  | x :: rest => x +:+ sep +:+ join sep rest
  end.

(** [s.split(sep)] for a one-character separator. *)
Fixpoint split (sep : ascii) (s : string) : list string :=
  match s with
  | EmptyString => [""]
  | String c s' =>
      if Ascii.eqb c sep then "" :: split sep s'
      else match split sep s' with
           | [] => [String c ""]
           | x :: rest => String c x :: rest
           end
  end.

(** Truthiness of a string-or-undefined value: [!!v]. *)
Definition truthy (v : option string) : bool :=
  match v with
  | Some s => negb (String.eqb s "")
  | None => false
  end.

(** Template-literal rendering of a string-or-undefined value. *)
Definition show (v : option string) : string :=
  match v with
  | Some s => s
  | None => "undefined"
  end.

End JsString.

Module JsNumber.

Definition digitValue (c : ascii) : option Z :=
  let n := Z.of_nat (nat_of_ascii c) in
  if (48 <=? n) && (n <=? 57) then Some (n - 48)
  else if (97 <=? n) && (n <=? 122) then Some (n - 87)
  else if (65 <=? n) && (n <=? 90) then Some (n - 55)
  else None.

(** Longest prefix of digits below [radix], accumulated left to right. *)
Fixpoint digits (radix : Z) (s : string) (acc : option Z) : option Z :=
  match s with
  | EmptyString => acc
  | String c s' =>
      match digitValue c with
      | Some d =>
          if d <? radix
          then digits radix s' (Some (radix * default 0 acc + d))
          else acc
      | None => acc
      end
  end.

(** [parseInt(s)] without a radix argument; [None] is [NaN].
    [parseInt(undefined)] is [NaN]. *)
Definition parseIntStr (s : string) : option Z :=
  let s := JsString.trimStart s in
  let '(sign, s) :=
    match s with
    | String "-" r => (-1, r)
    | String "+" r => (1, r)
    | _ => (1, s)
    end in
  let '(radix, s) :=
    match s with
    | String "0" (String "x" r) => (16, r)
    | String "0" (String "X" r) => (16, r)
    | _ => (10, s)
    end in
  (fun n => sign * n) <$> digits radix s None.

Definition parseInt (v : option string) : option Z :=
  v ≫= parseIntStr.

(** Rendering of a number in a template literal. *)
Definition show (n : option Z) : string :=
  match n with
  | Some z => pretty z
  | None => "NaN"
  end.

End JsNumber.

(** ** Placeholder resolution ([StepExecutor.resolveParam]) *)

(** A parameter row, and the process environment: the own properties
    of a string-keyed object. *)
Abbreviation Row := (gmap string string).

(** The properties every object inherits from [Object.prototype]. *)
Definition objectPrototype : list string :=
  ["constructor"; "__defineGetter__"; "__defineSetter__"; "hasOwnProperty";
   "__lookupGetter__"; "__lookupSetter__"; "isPrototypeOf";
   "propertyIsEnumerable"; "toString"; "valueOf"; "__proto__"; "toLocaleString"].

(** What a property of a row or of [process.env] can hold: a string,
    or, for a name that is no own property but one of
    [Object.prototype], the value inherited under that name (a
    function; for [__proto__] the prototype itself). *)
Inductive JsValue :=
| Str (s : string)
| Inherited (name : string).

#[global] Instance JsValue_eq_dec : EqDecision JsValue.
Proof. solve_decision. Defined.

(** [obj[key]]: the own property, else the inherited one, else
    [undefined]. *)
Definition propertyOf (obj : Row) (key : string) : option JsValue :=
  match obj !! key with
  | Some s => Some (Str s)
  | None =>
      if bool_decide (key ∈ objectPrototype) then Some (Inherited key) else None
  end.

(** [String(v)], which is also how a template literal and
    [Array.prototype.join] print [v]. A built-in function prints as V8
    prints it; [Object.prototype] prints as any plain object. *)
Definition inheritedText (name : string) : string :=
  if String.eqb name "__proto__" then "[object Object]"
  else "function " +:+ (if String.eqb name "constructor" then "Object" else name)
       +:+ "() { [native code] }".

Definition toText (v : JsValue) : string :=
  match v with
  | Str s => s
  | Inherited name => inheritedText name
  end.

(** Truthiness of a value that may be [undefined]: functions and
    objects are truthy. *)
Definition truthyValue (v : option JsValue) : bool :=
  match v with
  | Some (Str s) => negb (String.eqb s "")
  | Some (Inherited _) => true
  | None => false
  end.

Definition envUndefinedMessage (envVar : string) : string :=
  "Environment variable " +:+ envVar +:+
  " is not defined. Please set it in your .env file.".

Definition resolveParam (env : Row) (value : string) (params : Row) : Exc JsValue :=
  if negb (JsString.startsWith value "{{") || negb (JsString.endsWith value "}}")
  then Normal (Str value)
  else
    let key := JsString.slice value 2 (-2) in
    if JsString.startsWith key "env." then
      let envVar := JsString.sliceFrom key 4 in
      match propertyOf env envVar with
      | None => Thrown (envUndefinedMessage envVar)
      | Some envValue => Normal envValue
      end
    else
      match propertyOf params key with
      | None => Normal (Str "")
      | Some v => Normal (Str (toText v))
      end.

(** [step.params.map(p => this.resolveParam(p, params))]: the first
    parameter that throws aborts the map. *)
Fixpoint resolveParams (env : Row) (values : list string) (params : Row)
  : Exc (list JsValue) :=
  match values with
  | [] => Normal []
  | v :: rest =>
      match resolveParam env v params with
      | Thrown m => Thrown m
      | Normal r =>
          match resolveParams env rest params with
          | Thrown m => Thrown m
          | Normal rs => Normal (r :: rs)
          end
      end
  end.

(** ** Data model *)

(** [types/template.ts] (the fields the runner reads). *)
Record TemplateStep := {
  action : string;
  params : list string;
}.

Record Template := {
  template_id : string;
  template_name : string;
  steps : list TemplateStep;
}.

(** [types/config.ts] *)
Record TestConfig := {
  config_id : string;
  config_name : string;
  templateId : option string;
  workflow : option (list string);
  parameters : Row;
  data : option string;
  device : option string;
  viewport : option (Z * Z);
  tags : option (list string);
}.

(** A decoded raster ([pngjs]): dimensions and RGBA bytes. *)
Record PNG := {
  width : Z;
  height : Z;
  pixels : list Z;
}.

(** File contents: either the encoding of a raster or bytes that
    [PNG.sync.read] rejects. *)
Inductive Buffer :=
| PngBytes (img : PNG)
| OtherBytes (raw : string).

Definition PNG_sync_read (b : Buffer) : Exc PNG :=
  match b with
  | PngBytes img => Normal img
  | OtherBytes _ => Thrown "Invalid file signature"
  end.

Definition PNG_sync_write (img : PNG) : Buffer := PngBytes img.

(** The three directories the runner and the approval workflow name,
    [process.cwd()/screenshots] and its [baseline] and [actual]. A
    path is written as the code builds it: [(d, name)] is
    [path.join(d, name)], and [name] may itself have separators. *)
Inductive Dir := Screenshots | Baseline | Actual.
Definition Path : Type := Dir * string.

#[global] Instance Dir_eq_dec : EqDecision Dir.
Proof. solve_decision. Defined.

Inductive Status := PASS | FAIL.

Record PerfData := {
  latencies : list Z;
  avg : option Q;
  perf_min : option Z;
  perf_max : option Z;
}.

(** [reporter.ts], interface [TestResult]. Time stamps are clock
    readings. *)
Record TestResult := {
  result_id : string;
  result_name : string;
  configFile : string;
  result_templateId : string;
  status : Status;
  duration : Z;
  result_error : option string;
  screenshot : option Path;
  timestamp : Z;
  perfData : option PerfData;
  visualDiff : option Path;
  baselineImage : option Path;
}.

Record Response := {
  response_status : Z;
  response_text : string;
}.

(** Options of [browser.newContext]. *)
Record ContextOptions := {
  deviceDescriptor : option string;
  viewportOverride : option (Z * Z);
}.

(** A browser context together with its page and its [StepExecutor]. *)
Definition Ctx := nat.

(** Calls on [page] that return nothing. A missing positional parameter
    is [undefined]. [ExpectURL] carries the source of the pattern,
    [new RegExp(v)] being built from [String(v)]. *)
Inductive PageCall :=
| Goto (url : option JsValue)
| Fill (selector : option JsValue) (value : option JsValue)
| Click (selector : option JsValue)
| ExpectVisible (selector : option JsValue)
| ExpectContainText (selector : option JsValue) (text : option JsValue)
| ExpectURL (pattern : option string)
| WaitForTimeout (ms : option Z).

(** Lines written to the console. *)
Inductive LogLine :=
| LogRunning (testNumber totalTests : Z) (configName : string)
| LogLoadingData (testNumber : Z) (file : string)
| LogFoundRows (testNumber : Z) (n : nat)
| LogLoadFailed (testNumber : Z) (msg : string)
| LogDeviceNotFound (testNumber : Z) (dev : string)
| LogEmulating (testNumber : Z) (dev : string)
| LogViewport (testNumber : Z) (vp : Z * Z)
| LogRow (testNumber : Z) (row : nat)
| LogRetry (testNumber : Z) (attempt : Z)
| LogTemplate (testNumber : Z) (tmplId : option string)
| LogPASS (testNumber : Z)
| LogTestFailed (testNumber : Z) (msg : string)
| LogFAIL (testNumber : Z) (msg : string)
| LogEnrichFailed (testNumber : Z) (msg : string)
| LogStep (act : string) (resolved : list string)
| LogResponseStatus (st : Z)
| LogPerfStart (iterations : option Z)
| LogPerfResults (p : PerfData)
| LogSkipVisual
| LogBaselineNotFound (snapshotName : string)
| LogVisualRegression (numDiffPixels : Z)
| LogVisualPassed
| LogNoPending
| LogFoundPending (n : nat)
| LogReviewing (snapshotName : string)
| LogApproved (snapshotName : string)
| LogRejected
| LogSkipped
| LogDone.

(** ** Programs *)

(** Calls that leave the code under study. The index is the type of the
    value the call returns. *)
Inductive Eff : Type -> Type :=
(* playwright *)
| NewContext (opts : ContextOptions) : Eff Ctx
| CloseContext (c : Ctx) : Eff unit
| LookupDevice (dev : string) : Eff (option string)
| PageDo (c : Ctx) (call : PageCall) : Eff (Exc unit)
| PageFetch (c : Ctx) (url method : option JsValue) (body : option string)
    : Eff (Exc Response)
| PageScreenshot (c : Ctx) (file : option string) : Eff (Exc Buffer)
| PluginHas (c : Ctx) (act : string) : Eff bool
| PluginExecute (c : Ctx) (act : string) (args : list JsValue) : Eff (Exc unit)
(* fields of the executor and ad-hoc properties of the page object *)
| GetLastResponse (c : Ctx) : Eff (option Response)
| SetLastResponse (c : Ctx) (r : Response) : Eff unit
| GetPerfResults (c : Ctx) : Eff (option PerfData)
| SetPerfResults (c : Ctx) (p : PerfData) : Eff unit
| GetVisualDiff (c : Ctx) : Eff (option Path)
| SetVisualDiff (c : Ctx) (p : Path) : Eff unit
(* fs-extra *)
| EnsureDir (d : Dir) : Eff (Exc unit)
| DirExists (d : Dir) : Eff bool
| PathExists (p : Path) : Eff bool
| ReadFile (p : Path) : Eff (Exc Buffer)
| WriteFile (p : Path) (b : Buffer) : Eff (Exc unit)
| Remove (p : Path) : Eff unit
| Move (src dst : Path) : Eff (Exc unit)
| Readdir (d : Dir) : Eff (Exc (list string))
(* pixelmatch(img1, img2, diff.data, width, height, { threshold }) *)
| Pixelmatch (img1 img2 : list Z) (w h : Z) (threshold : Q) : Eff (Exc (Z * list Z))
(* the rest of the host *)
| DateNow : Eff Z
| LoadTemplate (tmplId : option string) : Eff (Exc (option Template))
| LoadData (file : string) : Eff (Exc (list Row))
| AddResult (r : TestResult) : Eff unit
| Log (l : LogLine) : Eff unit
| Prompt (snapshotName : string) : Eff string.

Inductive Prog (A : Type) : Type :=
| Ret (a : A)
| Vis (X : Type) (e : Eff X) (k : X -> Prog A).
Arguments Ret {A} a.
Arguments Vis {A X} e k.

Fixpoint bind {A B : Type} (p : Prog A) (f : A -> Prog B) : Prog B :=
  match p with
  | Ret a => f a
  | Vis e k => Vis e (fun x => bind (k x) f)
  end.

Definition call {X : Type} (e : Eff X) : Prog X := Vis e Ret.

(** [try_ p f]: run [f] on the value of [p], or rethrow what [p] threw. *)
Definition try_ {A B : Type} (p : Prog (Exc A)) (f : A -> Prog (Exc B))
  : Prog (Exc B) :=
  bind p (fun r => match r with
                   | Normal a => f a
                   | Thrown m => Ret (Thrown m)
                   end).

Declare Scope prog_scope.
Delimit Scope prog_scope with prog.
Notation "x <- p ;; q" := (bind p (fun x => q))
  (at level 100, p at next level, right associativity) : prog_scope.
Notation "p ;; q" := (bind p (fun _ => q))
  (at level 100, right associativity) : prog_scope.
Notation "x <-! p ;; q" := (try_ p (fun x => q))
  (at level 100, p at next level, right associativity) : prog_scope.
Notation "p ;;! q" := (try_ p (fun _ => q))
  (at level 100, right associativity) : prog_scope.
Local Open Scope prog_scope.

(** [for (const x of xs) { await body(x) }] where the body may throw. *)
Fixpoint forEach {A : Type} (xs : list A) (body : A -> Prog (Exc unit))
  : Prog (Exc unit) :=
  match xs with
  | [] => Ret (Normal tt)
  | x :: rest => body x ;;! forEach rest body
  end.

(** Outcome of one iteration of a counting loop. *)
Inductive LoopCtl := Continue | Break.

(** [for (let i = from; i <= last; i++) body(i)], given as the number
    of values [i] takes; the body may [break] or throw. *)
Fixpoint forRange (count : nat) (from : Z) (body : Z -> Prog (Exc LoopCtl))
  : Prog (Exc unit) :=
  match count with
  | O => Ret (Normal tt)
  | S n =>
      ctl <-! body from ;;
      match ctl with
      | Break => Ret (Normal tt)
      | Continue => forRange n (from + 1) body
      end
  end.

(** ** The world a program runs in *)

(** What the host answers. Answers that may change from one call to
    the next are indexed by the number of calls made so far, so that
    a [Host] stands for one arbitrary behaviour of the browser, the
    clock, the template and data stores and the user at the prompt.
    [pixelmatch] and the device table are functions of their arguments. *)
Record Host := {
  browserReply : nat -> Ctx -> PageCall -> Exc unit;
  fetchReply : nat -> Ctx -> option JsValue -> option JsValue -> option string -> Exc Response;
  screenshotReply : nat -> Ctx -> option string -> Exc Buffer;
  pluginLoaded : nat -> string -> bool;
  pluginReply : nat -> Ctx -> string -> list JsValue -> Exc unit;
  devices : string -> option string;
  clock : nat -> Z;
  pixelmatch : list Z -> list Z -> Z -> Z -> Q -> Exc (Z * list Z);
  templateStore : nat -> option string -> Exc (option Template);
  dataSource : nat -> string -> Exc (list Row);
  promptAnswer : nat -> string -> string;
}.

(** *** The disk

    A tree of folders and files below the root [/] (POSIX paths, names
    compared byte by byte, no links, every folder open to the
    process). *)
Local Set Warnings "-register-all".
Inductive Tree :=
| File (content : Buffer)
| Folder (entries : gmap string Tree).

(** The disk and [process.cwd()], given by its segments below the
    root. *)
Record FileSystem := {
  cwd : list string;
  root : Tree;
}.

Definition dirSegments (d : Dir) : list string :=
  match d with
  | Screenshots => ["screenshots"]
  | Baseline => ["screenshots"; "baseline"]
  | Actual => ["screenshots"; "actual"]
  end.

(** [path.join(process.cwd(), 'screenshots', ...)] *)
Definition dirPath (fs : FileSystem) (d : Dir) : list string :=
  cwd fs ++ dirSegments d.

(** [path.normalize] at work in [path.join(base, name)]: the segments
    of [name] are read from the left, an empty segment and [.] are
    dropped, [..] drops the segment before it (at the root, nothing). *)
Fixpoint normalize (base segments : list string) : list string :=
  match segments with
  | [] => base
  | s :: rest =>
      if String.eqb s "" || String.eqb s "." then normalize base rest
      else if String.eqb s ".." then normalize (removelast base) rest
      else normalize (base ++ [s]) rest
  end.

Definition nul : string := String (ascii_of_nat 0) "".

(** Where [path.join(d, name)] points. The functions of [fs] refuse a
    path with a null byte: [None]. *)
Definition resolve (fs : FileSystem) (p : Path) : option (list string) :=
  if JsString.includes p.2 nul then None
  else Some (normalize (dirPath fs p.1) (JsString.split "/" p.2)).

Fixpoint get (t : Tree) (q : list string) : option Tree :=
  match q with
  | [] => Some t
  | s :: rest =>
      match t with
      | Folder entries =>
          match entries !! s with
          | Some t' => get t' rest
          | None => None
          end
      | File _ => None
      end
  end.

Inductive Errno := ENOENT | ENOTDIR | EISDIR | EEXIST.

Definition showPath (q : list string) : string := "/" +:+ JsString.join "/" q.

(** The message of a system error, as Node prints it. *)
Definition fsError (e : Errno) (syscall : string) (q : list string) : string :=
  match e with
  | ENOENT => "ENOENT: no such file or directory"
  | ENOTDIR => "ENOTDIR: not a directory"
  | EISDIR => "EISDIR: illegal operation on a directory"
  | EEXIST => "EEXIST: file already exists"
  end +:+ ", " +:+ syscall +:+ " '" +:+ showPath q +:+ "'".

Definition invalidPathMessage : string :=
  "The argument 'path' must be a string, Uint8Array, or URL without null bytes.".

(** Why nothing is found at [q]: a folder on the way is missing, or a
    file stands where a folder should. *)
Fixpoint whyMissing (t : Tree) (q : list string) : Errno :=
  match t, q with
  | Folder entries, s :: rest =>
      match entries !! s with
      | Some t' => whyMissing t' rest
      | None => ENOENT
      end
  | File _, _ :: _ => ENOTDIR
  | _, [] => ENOENT
  end.

(** [open(q, O_WRONLY | O_CREAT | O_TRUNC)] and the write: the folder
    of [q] must exist, and [q] must not be a folder. *)
Fixpoint writeAt (t : Tree) (q : list string) (b : Buffer) : Errno + Tree :=
  match t with
  | File _ => inl ENOTDIR
  | Folder entries =>
      match q with
      | [] => inl EISDIR
      | [s] =>
          match entries !! s with
          | Some (Folder _) => inl EISDIR
          | _ => inr (Folder (<[s := File b]> entries))
          end
      | s :: rest =>
          match entries !! s with
          | Some t' =>
              match writeAt t' rest b with
              | inl e => inl e
              | inr t'' => inr (Folder (<[s := t'']> entries))
              end
          | None => inl ENOENT
          end
      end
  end.

(** [mkdir -p q]: the folders that are missing are made; a file on the
    way stops it. *)
Fixpoint mkdirs (t : Tree) (q : list string) : Errno + Tree :=
  match t with
  | File _ => inl match q with [] => EEXIST | _ => ENOTDIR end
  | Folder entries =>
      match q with
      | [] => inr t
      | s :: rest =>
          match mkdirs (default (Folder ∅) (entries !! s)) rest with
          | inl e => inl e
          | inr t' => inr (Folder (<[s := t']> entries))
          end
      end
  end.

(** [rm -rf q]: what is at [q] goes, with all that is below it. *)
Fixpoint removeAt (t : Tree) (q : list string) : Tree :=
  match t with
  | File _ => t
  | Folder entries =>
      match q with
      | [] => t
      | [s] => Folder (delete s entries)
      | s :: rest =>
          match entries !! s with
          | Some t' => Folder (<[s := removeAt t' rest]> entries)
          | None => t
          end
      end
  end.

(** [new] is put at [q], in folders made on the way where there are
    none. *)
Fixpoint place (t : Tree) (q : list string) (new : Tree) : Tree :=
  match q with
  | [] => new
  | s :: rest =>
      let entries := match t with Folder entries => entries | File _ => ∅ end in
      Folder (<[s := place (default (Folder ∅) (entries !! s)) rest new]> entries)
  end.

Definition withRoot (fs : FileSystem) (t : Tree) : FileSystem :=
  {| cwd := cwd fs; root := t |}.

Definition nodeAt (fs : FileSystem) (p : Path) : option Tree :=
  resolve fs p ≫= get (root fs).

(** The content of the file at [p], if there is a file. *)
Definition lookupFile (fs : FileSystem) (p : Path) : option Buffer :=
  match nodeAt fs p with
  | Some (File b) => Some b
  | _ => None
  end.

(** [fs.pathExists(p)]: a file or a folder is there. *)
Definition pathExists (fs : FileSystem) (p : Path) : bool :=
  bool_decide (is_Some (nodeAt fs p)).

Definition dirExists (fs : FileSystem) (d : Dir) : bool :=
  bool_decide (is_Some (get (root fs) (dirPath fs d))).

(** [fs.ensureDir(d)] *)
Definition ensureDir (fs : FileSystem) (d : Dir) : Exc unit * FileSystem :=
  match mkdirs (root fs) (dirPath fs d) with
  | inr t => (Normal tt, withRoot fs t)
  | inl e => (Thrown (fsError e "mkdir" (dirPath fs d)), fs)
  end.

(** [fs.readFile(p)] *)
Definition readFile (fs : FileSystem) (p : Path) : Exc Buffer :=
  match resolve fs p with
  | None => Thrown invalidPathMessage
  | Some q =>
      match get (root fs) q with
      | Some (File b) => Normal b
      | Some (Folder _) => Thrown "EISDIR: illegal operation on a directory, read"
      | None => Thrown (fsError (whyMissing (root fs) q) "open" q)
      end
  end.

(** [fs.writeFile(p, b)] and [fs.writeFileSync(p, b)] *)
Definition writeFile (fs : FileSystem) (p : Path) (b : Buffer) : Exc unit * FileSystem :=
  match resolve fs p with
  | None => (Thrown invalidPathMessage, fs)
  | Some q =>
      match writeAt (root fs) q b with
      | inr t => (Normal tt, withRoot fs t)
      | inl e => (Thrown (fsError e "open" q), fs)
      end
  end.

(** [fs.remove(p)]: nothing happens when nothing is there. *)
Definition removeFile (fs : FileSystem) (p : Path) : FileSystem :=
  match resolve fs p with
  | None => fs
  | Some q => withRoot fs (removeAt (root fs) q)
  end.

Definition isFolder (t : Tree) : bool :=
  match t with Folder _ => true | File _ => false end.

Definition quoted (q : list string) : string := "'" +:+ showPath q +:+ "'".

(** [fs.move(src, dst, { overwrite: true })]: the checks of
    [fs-extra] on the two paths, then the folder of [dst] is made, what
    is at [dst] removed, and [src] renamed. *)
Definition moveFile (fs : FileSystem) (src dst : Path) : Exc unit * FileSystem :=
  match resolve fs src, resolve fs dst with
  | Some s, Some d =>
      match get (root fs) s with
      | None => (Thrown (fsError (whyMissing (root fs) s) "stat" s), fs)
      | Some node =>
          if bool_decide (s = d)
          then (Thrown "Source and destination must not be the same.", fs)
          else
            match node, get (root fs) d with
            | Folder _, Some (File _) =>
                (Thrown ("Cannot overwrite non-directory " +:+ quoted d +:+
                         " with directory " +:+ quoted s +:+ "."), fs)
            | File _, Some (Folder _) =>
                (Thrown ("Cannot overwrite directory " +:+ quoted d +:+
                         " with non-directory " +:+ quoted s +:+ "."), fs)
            | _, _ =>
                if isFolder node && bool_decide (s `prefix_of` d)
                then (Thrown ("Cannot move " +:+ quoted s +:+
                              " to a subdirectory of itself, " +:+ quoted d +:+ "."), fs)
                else
                  match mkdirs (root fs) (removelast d) with
                  | inl e => (Thrown (fsError e "mkdir" (removelast d)), fs)
                  | inr t =>
                      if bool_decide (d `prefix_of` s)
                      then (Thrown (fsError ENOENT "rename" s),
                            withRoot fs (removeAt t d))
                      else (Normal tt,
                            withRoot fs (place (removeAt (removeAt t d) s) d node))
                  end
            end
      end
  | _, _ => (Thrown invalidPathMessage, fs)
  end.

(** [fs.readdir(d)]: the names of the entries of the folder. *)
Definition readdir (fs : FileSystem) (d : Dir) : Exc (list string) :=
  match get (root fs) (dirPath fs d) with
  | Some (Folder entries) => Normal (map_to_list entries).*1
  | Some (File _) => Thrown (fsError ENOTDIR "scandir" (dirPath fs d))
  | None => Thrown (fsError (whyMissing (root fs) (dirPath fs d)) "scandir" (dirPath fs d))
  end.

(** [page.screenshot({ path })] writes the image itself, in folders it
    makes where they are missing. Whether it could is the answer of the
    host; when it could, the image is at the path. *)
Definition saveShot (fs : FileSystem) (p : Path) (b : Buffer) : FileSystem :=
  match resolve fs p with
  | None => fs
  | Some q => withRoot fs (place (root fs) q (File b))
  end.

Record Session := {
  lastResponse : option Response;
  perfResults : option PerfData;
  pageVisualDiff : option Path;
}.

(** What an observer of a run sees, in order. *)
Inductive Event :=
| EvOpen (c : Ctx)
| EvClose (c : Ctx)
| EvPage (c : Ctx) (call : PageCall)
| EvFetch (c : Ctx)
| EvShot (c : Ctx)
| EvPlugin (c : Ctx) (act : string)
| EvPixelmatch
| EvReport (s : Status)
| EvLog (l : LogLine).

Record World := {
  files : FileSystem;
  sessions : gmap Ctx Session;
  openContexts : list Ctx;
  nextCtx : Ctx;
  reported : list TestResult;
  trace : list Event;
  ticks : nat;
}.

Definition newSession : Session :=
  {| lastResponse := None; perfResults := None; pageVisualDiff := None |}.

Definition session (w : World) (c : Ctx) : Session :=
  default newSession (sessions w !! c).

Section WorldUpdates.
Context (w : World).

Definition withFiles (fs : FileSystem) : World :=
  {| files := fs; sessions := sessions w; openContexts := openContexts w;
     nextCtx := nextCtx w; reported := reported w; trace := trace w;
     ticks := ticks w |}.

Definition withSession (c : Ctx) (s : Session) : World :=
  {| files := files w; sessions := <[c := s]> (sessions w);
     openContexts := openContexts w; nextCtx := nextCtx w;
     reported := reported w; trace := trace w; ticks := ticks w |}.

Definition emit (ev : Event) : World :=
  {| files := files w; sessions := sessions w; openContexts := openContexts w;
     nextCtx := nextCtx w; reported := reported w; trace := trace w ++ [ev];
     ticks := ticks w |}.

Definition tick : World :=
  {| files := files w; sessions := sessions w; openContexts := openContexts w;
     nextCtx := nextCtx w; reported := reported w; trace := trace w;
     ticks := S (ticks w) |}.

Definition openContext : Ctx * World :=
  let c := nextCtx w in
  (c, {| files := files w; sessions := <[c := newSession]> (sessions w);
         openContexts := c :: openContexts w; nextCtx := S c;
         reported := reported w; trace := trace w ++ [EvOpen c];
         ticks := ticks w |}).

Definition closeContext (c : Ctx) : World :=
  {| files := files w; sessions := sessions w;
     openContexts := filter (fun c' => c' ≠ c) (openContexts w);
     nextCtx := nextCtx w; reported := reported w;
     trace := trace w ++ [EvClose c]; ticks := ticks w |}.

Definition addResult (r : TestResult) : World :=
  {| files := files w; sessions := sessions w; openContexts := openContexts w;
     nextCtx := nextCtx w; reported := reported w ++ [r];
     trace := trace w ++ [EvReport (status r)]; ticks := ticks w |}.

End WorldUpdates.

(** The host's side of every call. Session management ([newContext]
    with [newPage], [close]) and the reporter do not fail; calls on a
    page, the file system and the stores may throw. *)
Definition handle (host : Host) {X : Type} (e : Eff X) (w0 : World) : X * World :=
  let t := ticks w0 in
  let w := tick w0 in
  match e in Eff X return X * World with
  | NewContext _ => openContext w
  | CloseContext c => (tt, closeContext w c)
  | LookupDevice dev => (devices host dev, w)
  | PageDo c pc => (browserReply host t c pc, emit w (EvPage c pc))
  | PageFetch c url method body =>
      (fetchReply host t c url method body, emit w (EvFetch c))
  | PageScreenshot c file =>
      let r := screenshotReply host t c file in
      let w1 := emit w (EvShot c) in
      match r, file with
      | Normal b, Some f =>
          (r, withFiles w1 (saveShot (files w1) (Screenshots, f) b))
      | _, _ => (r, w1)
      end
  | PluginHas c act => (pluginLoaded host t act, w)
  | PluginExecute c act args =>
      (pluginReply host t c act args, emit w (EvPlugin c act))
  | GetLastResponse c => (lastResponse (session w c), w)
  | SetLastResponse c r =>
      (tt, withSession w c
             {| lastResponse := Some r; perfResults := perfResults (session w c);
                pageVisualDiff := pageVisualDiff (session w c) |})
  | GetPerfResults c => (perfResults (session w c), w)
  | SetPerfResults c p =>
      (tt, withSession w c
             {| lastResponse := lastResponse (session w c); perfResults := Some p;
                pageVisualDiff := pageVisualDiff (session w c) |})
  | GetVisualDiff c => (pageVisualDiff (session w c), w)
  | SetVisualDiff c p =>
      (tt, withSession w c
             {| lastResponse := lastResponse (session w c);
                perfResults := perfResults (session w c);
                pageVisualDiff := Some p |})
  | EnsureDir d =>
      ((ensureDir (files w) d).1, withFiles w (ensureDir (files w) d).2)
  | DirExists d => (dirExists (files w) d, w)
  | PathExists p => (pathExists (files w) p, w)
  | ReadFile p => (readFile (files w) p, w)
  | WriteFile p b =>
      ((writeFile (files w) p b).1, withFiles w (writeFile (files w) p b).2)
  | Remove p => (tt, withFiles w (removeFile (files w) p))
  | Move src dst =>
      ((moveFile (files w) src dst).1, withFiles w (moveFile (files w) src dst).2)
  | Readdir d => (readdir (files w) d, w)
  | Pixelmatch img1 img2 wd ht thr =>
      (pixelmatch host img1 img2 wd ht thr, emit w EvPixelmatch)
  | DateNow => (clock host t, w)
  | LoadTemplate tmplId => (templateStore host t tmplId, w)
  | LoadData file => (dataSource host t file, w)
  | AddResult r => (tt, addResult w r)
  | Log l => (tt, emit w (EvLog l))
  | Prompt snapshotName => (promptAnswer host t snapshotName, w)
  end.

(** A program run alone, from start to end. *)
Fixpoint run (host : Host) {A : Type} (p : Prog A) (w : World) : A * World :=
  match p with
  | Ret a => (a, w)
  | Vis e k => let '(x, w') := handle host e w in run host (k x) w'
  end.

(** ** The step interpreter ([StepExecutor.execute]) *)

Inductive Builtin :=
| goto | type | click | expect_text | expect_url | wait | request
| expect_status | expect_response_body | measure_performance
| compare_screenshot.

Definition builtinOf (act : string) : option Builtin :=
  if String.eqb act "goto" then Some goto
  else if String.eqb act "type" then Some type
  else if String.eqb act "click" then Some click
  else if String.eqb act "expect_text" then Some expect_text
  else if String.eqb act "expect_url" then Some expect_url
  else if String.eqb act "wait" then Some wait
  else if String.eqb act "request" then Some request
  else if String.eqb act "expect_status" then Some expect_status
  else if String.eqb act "expect_response_body" then Some expect_response_body
  else if String.eqb act "measure_performance" then Some measure_performance
  else if String.eqb act "compare_screenshot" then Some compare_screenshot
  else None.

(** The tolerance handed to [pixelmatch]: [{ threshold: 0.1 }]. *)
Definition threshold : Q := 1 # 10.

Definition snapshotFile (snapshotName : string) : string := snapshotName +:+ ".png".

Definition diffFile (snapshotName : string) (now : Z) : string :=
  "diff-" +:+ snapshotName +:+ "-" +:+ pretty now +:+ ".png".

Definition regressionMessage (numDiffPixels : Z) : string :=
  "Visual regression detected: " +:+ pretty numDiffPixels +:+
  " pixels differ. Run 'npm run baseline:approve' to accept changes.".

(** [case 'compare_screenshot']. The snapshot name goes into the file
    names and the console line through template literals, that is, as
    [String(snapshotName)]. *)
Definition compareScreenshot (c : Ctx) (resolvedParams : list JsValue)
  : Prog (Exc unit) :=
  let snapshotName := resolvedParams !! 0%nat in
  if negb (truthyValue snapshotName) then
    call (Log LogSkipVisual) ;; Ret (Normal tt)
  else
    let snapshotName := default "" (toText <$> snapshotName) in
    screenshotBuffer <-! call (PageScreenshot c None) ;;
    let baselinePath := (Baseline, snapshotFile snapshotName) in
    let actualPath := (Actual, snapshotFile snapshotName) in
    call (EnsureDir Baseline) ;;!
    call (EnsureDir Actual) ;;!
    haveBaseline <- call (PathExists baselinePath) ;;
    if negb haveBaseline then
      call (Log (LogBaselineNotFound snapshotName)) ;;
      call (WriteFile baselinePath screenshotBuffer)
    else
      baselineBuffer <-! call (ReadFile baselinePath) ;;
      img1 <-! Ret (PNG_sync_read baselineBuffer) ;;
      img2 <-! Ret (PNG_sync_read screenshotBuffer) ;;
      res <-! call (Pixelmatch (pixels img1) (pixels img2)
                               (width img1) (height img1) threshold) ;;
      let '(numDiffPixels, diff) := res in
      if 0 <? numDiffPixels then
        now <- call DateNow ;;
        let diffPath := (Screenshots, diffFile snapshotName now) in
        call (WriteFile diffPath
                (PNG_sync_write {| width := width img1; height := height img1;
                                   pixels := diff |})) ;;!
        call (WriteFile actualPath screenshotBuffer) ;;!
        call (Log (LogVisualRegression numDiffPixels)) ;;
        call (SetVisualDiff c diffPath) ;;
        Ret (Thrown (regressionMessage numDiffPixels))
      else
        call (Log LogVisualPassed) ;;
        stale <- call (PathExists actualPath) ;;
        if stale then call (Remove actualPath) ;; Ret (Normal tt)
        else Ret (Normal tt).

Definition noResponseMessage : string :=
  "No API response to check. Run " +:+ dq +:+ "request" +:+ dq +:+ " first.".

(** The loop of [measure_performance]; [todo] iterations remain. *)
Fixpoint measureLoop (todo : nat) (c : Ctx) (perfUrl perfMethod : option JsValue)
    (latencies : list Z) : Prog (Exc (list Z)) :=
  match todo with
  | O => Ret (Normal latencies)
  | S n =>
      start <- call DateNow ;;
      call (PageFetch c perfUrl perfMethod None) ;;!
      stop <- call DateNow ;;
      measureLoop n c perfUrl perfMethod (latencies ++ [stop - start])
  end.

Definition summarize (latencies : list Z) : PerfData :=
  match latencies with
  | [] => {| latencies := []; avg := None; perf_min := None; perf_max := None |}
  | x :: rest =>
      {| latencies := latencies;
         avg := Some (inject_Z (fold_left Z.add latencies 0%Z) /
                      inject_Z (Z.of_nat (length latencies)))%Q;
         perf_min := Some (fold_left Z.min rest x);
         perf_max := Some (fold_left Z.max rest x) |}
  end.

(** [options.data] of a [request]: the body when it is a string that
    is not blank; a body that is no string has no [trim]. *)
Definition requestData (body : option JsValue) : Exc (option string) :=
  match body with
  | Some (Str s) =>
      if negb (String.eqb s "") && JsString.nonBlank s then Normal (Some s)
      else Normal None
  | Some (Inherited _) => Thrown "body.trim is not a function"
  | None => Normal None
  end.

(** The body of the [switch] for the built-in actions. Where the code
    hands a parameter to [parseInt], [includes] or [new RegExp], or
    prints it, the parameter counts as [String] makes it. *)
Definition builtin (c : Ctx) (b : Builtin) (resolvedParams : list JsValue)
  : Prog (Exc unit) :=
  let p0 := resolvedParams !! 0%nat in
  let p1 := resolvedParams !! 1%nat in
  let p2 := resolvedParams !! 2%nat in
  match b with
  | goto => call (PageDo c (Goto p0))
  | type =>
      if negb (truthyValue p0) then Ret (Normal tt)
      else call (PageDo c (Fill p0 p1))
  | click =>
      if negb (truthyValue p0) then Ret (Normal tt)
      else call (PageDo c (Click p0))
  | expect_text =>
      if bool_decide (p1 = Some (Str "")) then call (PageDo c (ExpectVisible p0))
      else call (PageDo c (ExpectContainText p0 p1))
  | expect_url => call (PageDo c (ExpectURL (toText <$> p0)))
  | wait => call (PageDo c (WaitForTimeout (JsNumber.parseInt (toText <$> p0))))
  | request =>
      body <-! Ret (requestData p2) ;;
      resp <-! call (PageFetch c p1 p0 body) ;;
      call (SetLastResponse c resp) ;;
      call (Log (LogResponseStatus (response_status resp))) ;;
      Ret (Normal tt)
  | expect_status =>
      last <- call (GetLastResponse c) ;;
      match last with
      | None => Ret (Thrown noResponseMessage)
      | Some resp =>
          let expectedStatus := JsNumber.parseInt (toText <$> p0) in
          if bool_decide (Some (response_status resp) = expectedStatus)
          then Ret (Normal tt)
          else Ret (Thrown ("Expected status " +:+ JsNumber.show expectedStatus +:+
                            " but got " +:+ pretty (response_status resp)))
      end
  | expect_response_body =>
      last <- call (GetLastResponse c) ;;
      match last with
      | None => Ret (Thrown noResponseMessage)
      | Some resp =>
          if JsString.includes (response_text resp) (JsString.show (toText <$> p0))
          then Ret (Normal tt)
          else Ret (Thrown ("Response body does not contain " +:+ dq +:+
                            JsString.show (toText <$> p0) +:+ dq))
      end
  | measure_performance =>
      let iterations := JsNumber.parseInt (toText <$> p2) in
      call (Log (LogPerfStart iterations)) ;;
      lat <-! measureLoop (Z.to_nat (default 0 iterations)) c p1 p0 [] ;;
      call (Log (LogPerfResults (summarize lat))) ;;
      call (SetPerfResults c (summarize lat)) ;;
      Ret (Normal tt)
  | compare_screenshot => compareScreenshot c resolvedParams
  end.

(** The whole [switch], with its [default] branch for plugins. *)
Definition dispatch (c : Ctx) (act : string) (resolvedParams : list JsValue)
  : Prog (Exc unit) :=
  match builtinOf act with
  | Some b => builtin c b resolvedParams
  | None =>
      loaded <- call (PluginHas c act) ;;
      if loaded then call (PluginExecute c act resolvedParams)
      else Ret (Thrown ("Unknown action: " +:+ act))
  end.

Definition stepFailed (act msg : string) : string :=
  "Step failed: " +:+ act +:+ " - " +:+ msg.

(** [StepExecutor.execute]: the parameters are resolved first, outside
    the [try]; whatever the [switch] throws is caught and thrown again
    under the name of the action. *)
Definition execute (env : Row) (c : Ctx) (step : TemplateStep) (rowParams : Row)
  : Prog (Exc unit) :=
  match resolveParams env (params step) rowParams with
  | Thrown m => Ret (Thrown m)
  | Normal resolvedParams =>
      call (Log (LogStep (action step) (toText <$> resolvedParams))) ;;
      r <- dispatch c (action step) resolvedParams ;;
      match r with
      | Normal _ => Ret (Normal tt)
      | Thrown m => Ret (Thrown (stepFailed (action step) m))
      end
  end.

(** ** The scheduler ([test-runner.ts]) *)

(** [args.find(a => a.startsWith(flag))], then [split('=')[1]]. *)
Definition flagValue (flag : string) (args : list string) : option (option string) :=
  (fun a => JsString.split "=" a !! 1%nat) <$>
  List.find (fun a => JsString.startsWith a flag) args.

(** [parseInt(value) || dflt] *)
Definition parseIntOr (value : option string) (dflt : Z) : Z :=
  match JsNumber.parseInt value with
  | Some n => if n =? 0 then dflt else n
  | None => dflt
  end.

(** [cpus] is [os.cpus().length]. *)
Definition getConcurrency (cpus : Z) (args : list string) : Z :=
  match flagValue "--parallel" args with
  | None => 1
  | Some value =>
      if bool_decide (value = Some "auto") then cpus
      else parseIntOr value 1
  end.

Definition getRetries (args : list string) : Z :=
  match flagValue "--retries" args with
  | None => 0
  | Some value => parseIntOr value 0
  end.

(** [array.slice(from, to)] *)
Definition arraySlice {T : Type} (array : list T) (from to : Z) : list T :=
  let len := Z.of_nat (length array) in
  let norm i := if i <? 0 then Z.max (len + i) 0 else Z.min i len in
  let a := norm from in
  let b := norm to in
  take (Z.to_nat (b - a)) (drop (Z.to_nat a) array).

(** The loop of [chunk]: [i] advances by [size], which nothing forces
    to be positive, so the loop is given fuel; [None] is a loop that
    is still running when the fuel is spent. *)
Fixpoint chunkLoop {T : Type} (fuel : nat) (array : list T) (size i : Z)
    (chunks : list (list T)) : option (list (list T)) :=
  if i <? Z.of_nat (length array) then
    match fuel with
    | O => None
    | S fuel' =>
        chunkLoop fuel' array size (i + size)
                  (chunks ++ [arraySlice array i (i + size)])
    end
  else Some chunks.

Definition chunk {T : Type} (fuel : nat) (array : list T) (size : Z)
  : option (list (list T)) :=
  chunkLoop fuel array size 0 [].

Section RunSingleTest.
Context (env : Row).
Context (config : TestConfig) (testNumber totalTests maxRetries : Z).

Definition configFileOf : string := config_id config +:+ ".json".

(** [config.templateId || config.workflow?.join('+') || 'unknown'] *)
Definition reportedTemplateId : string :=
  if JsString.truthy (templateId config) then default "" (templateId config)
  else
    let joined := JsString.join "+" <$> workflow config in
    if JsString.truthy joined then default "" joined else "unknown".

(** [config.workflow || [config.templateId!]] *)
Definition templatesToRun : list (option string) :=
  match workflow config with
  | Some wf => Some <$> wf
  | None => [templateId config]
  end.

(** The body of the [try]: every template of the unit, every step of
    each template, in order. *)
Definition runTemplates (c : Ctx) (rowParams : Row) : Prog (Exc unit) :=
  forEach templatesToRun (fun tmplId =>
    call (Log (LogTemplate testNumber tmplId)) ;;
    template <-! call (LoadTemplate tmplId) ;;
    match template with
    | None => Ret (Thrown ("Template " +:+ JsString.show tmplId +:+ " not found"))
    | Some t => forEach (steps t) (fun step => execute env c step rowParams)
    end).

(** The inner [try] of the [catch] block: diff the failure screenshot
    against the baseline named by the row. Returns the new
    [visualDiff] and [baselineImage]. *)
Definition diffOnFailure (snapshotName : string) (screenshotPath : Path)
  : Prog (Exc (option Path * option Path)) :=
  let baselinePath := (Baseline, snapshotFile snapshotName) in
  haveBaseline <- call (PathExists baselinePath) ;;
  if haveBaseline then
    baselineBuffer <-! call (ReadFile baselinePath) ;;
    actualBuffer <-! call (ReadFile screenshotPath) ;;
    img1 <-! Ret (PNG_sync_read baselineBuffer) ;;
    img2 <-! Ret (PNG_sync_read actualBuffer) ;;
    if (width img2 =? width img1) && (height img2 =? height img1) then
      res <-! call (Pixelmatch (pixels img1) (pixels img2)
                               (width img1) (height img1) threshold) ;;
      let '(numDiffPixels, diff) := res in
      if 0 <? numDiffPixels then
        now <- call DateNow ;;
        let diffPath := (Screenshots, diffFile snapshotName now) in
        call (WriteFile diffPath
                (PNG_sync_write {| width := width img1; height := height img1;
                                   pixels := diff |})) ;;!
        Ret (Normal (Some diffPath, Some baselinePath))
      else Ret (Normal (None, None))
    else Ret (Normal (None, None))
  else Ret (Normal (None, None)).

(** "Visual regression logic" of the [catch] block. A throw inside
    is logged and dropped. *)
Definition enrichFailure (c : Ctx) (rowParams : Row) (screenshotPath : Path)
  : Prog (option Path * option Path) :=
  visualDiff <- call (GetVisualDiff c) ;;
  if negb (bool_decide (is_Some visualDiff)) &&
     JsString.truthy (rowParams !! "snapshotName")
  then
    r <- diffOnFailure (default "" (rowParams !! "snapshotName")) screenshotPath ;;
    match r with
    | Normal found => Ret found
    | Thrown m =>
        call (Log (LogEnrichFailed testNumber m)) ;; Ret (visualDiff, None)
    end
  else Ret (visualDiff, None).

Definition failFile (testId : string) (now : Z) : string :=
  "fail-" +:+ testId +:+ "-" +:+ pretty now +:+ ".png".

(** How an attempt ends, given what its templates did: the rest of
    the [try] block after a normal end, the [catch] block after a throw. *)
Definition settleAttempt (testId testName : string) (rowParams : Row)
    (attempt : Z) (c : Ctx) (startTime : Z) (outcome : Exc unit)
    : Prog (Exc LoopCtl) :=
  match outcome with
  | Normal _ =>
      call (Log (LogPASS testNumber)) ;;
      perf <- call (GetPerfResults c) ;;
      finished <- call DateNow ;;
      stamp <- call DateNow ;;
      call (AddResult
              {| result_id := testId; result_name := testName;
                 configFile := configFileOf;
                 result_templateId := reportedTemplateId;
                 status := PASS; duration := finished - startTime;
                 result_error := None; screenshot := None;
                 timestamp := stamp; perfData := perf;
                 visualDiff := None; baselineImage := None |}) ;;
      call (CloseContext c) ;;
      Ret (Normal Break)
  | Thrown message =>
      if attempt <? maxRetries then
        call (Log (LogTestFailed testNumber message)) ;;
        call (CloseContext c) ;;
        Ret (Normal Continue)
      else
        call (Log (LogFAIL testNumber message)) ;;
        now <- call DateNow ;;
        let screenshotPath := (Screenshots, failFile testId now) in
        call (PageScreenshot c (Some (failFile testId now))) ;;!
        found <- enrichFailure c rowParams screenshotPath ;;
        finished <- call DateNow ;;
        stamp <- call DateNow ;;
        call (AddResult
                {| result_id := testId; result_name := testName;
                   configFile := configFileOf;
                   result_templateId := reportedTemplateId;
                   status := FAIL; duration := finished - startTime;
                   result_error := Some message;
                   screenshot := Some screenshotPath;
                   timestamp := stamp; perfData := None;
                   visualDiff := found.1; baselineImage := found.2 |}) ;;
        call (CloseContext c) ;;
        Ret (Normal Continue)
  end.

(** One turn of the retry loop for one row. *)
Definition attemptOnce (contextOptions : ContextOptions)
    (testId testName : string) (rowParams : Row) (attempt : Z)
    : Prog (Exc LoopCtl) :=
  (if 0 <? attempt then call (Log (LogRetry testNumber attempt)) else Ret tt) ;;
  c <- call (NewContext contextOptions) ;;
  startTime <- call DateNow ;;
  outcome <- runTemplates c rowParams ;;
  settleAttempt testId testName rowParams attempt c startTime outcome.

(** "Determine context options (device/viewport)". *)
Definition contextOptionsFor : Prog ContextOptions :=
  fromDevice <-
    (if JsString.truthy (device config) then
       let dev := default "" (device config) in
       deviceConfig <- call (LookupDevice dev) ;;
       match deviceConfig with
       | None => call (Log (LogDeviceNotFound testNumber dev)) ;; Ret None
       | Some d => call (Log (LogEmulating testNumber dev)) ;; Ret (Some d)
       end
     else Ret None) ;;
  match viewport config with
  | Some vp =>
      call (Log (LogViewport testNumber vp)) ;;
      Ret {| deviceDescriptor := fromDevice; viewportOverride := Some vp |}
  | None => Ret {| deviceDescriptor := fromDevice; viewportOverride := None |}
  end.

Definition testNameOf (rows i : nat) : string :=
  config_name config +:+
  (if (1 <? rows)%nat then " (Row " +:+ pretty (S i) +:+ ")" else "").

Definition testIdOf (rows i : nat) : string :=
  config_id config +:+
  (if (1 <? rows)%nat then "_row_" +:+ pretty (S i) else "").

(** The body of the loop over the data rows: the retry loop
    [for (attempt = 0; attempt <= maxRetries; attempt++)] of row [i]. *)
Definition runRow (contextOptions : ContextOptions) (rows i : nat)
    (rowParams : Row) : Prog (Exc unit) :=
  (if (1 <? rows)%nat then call (Log (LogRow testNumber (S i))) else Ret tt) ;;
  forRange (Z.to_nat (maxRetries + 1)) 0
    (attemptOnce contextOptions (testIdOf rows i) (testNameOf rows i) rowParams).

Definition loadFailedResult (message : string) (stamp : Z) : TestResult :=
  {| result_id := config_id config; result_name := config_name config;
     configFile := configFileOf;
     result_templateId :=
       if JsString.truthy (templateId config)
       then default "" (templateId config) else "unknown";
     status := FAIL; duration := 0;
     result_error := Some ("Failed to load data: " +:+ message);
     screenshot := None; timestamp := stamp; perfData := None;
     visualDiff := None; baselineImage := None |}.

(** "Load external data if specified". [None] is the early [return]
    after a failed load. *)
Definition loadRows : Prog (option (list Row)) :=
  if JsString.truthy (data config) then
    let file := default "" (data config) in
    call (Log (LogLoadingData testNumber file)) ;;
    loaded <- call (LoadData file) ;;
    match loaded with
    | Normal loadedData =>
        let dataRows := (fun row => row ∪ parameters config) <$> loadedData in
        call (Log (LogFoundRows testNumber (length dataRows))) ;;
        Ret (Some dataRows)
    | Thrown message =>
        call (Log (LogLoadFailed testNumber message)) ;;
        stamp <- call DateNow ;;
        call (AddResult (loadFailedResult message stamp)) ;;
        Ret None
    end
  else Ret (Some [parameters config]).

Definition runSingleTest : Prog (Exc unit) :=
  call (Log (LogRunning testNumber totalTests (config_name config))) ;;
  loaded <- loadRows ;;
  match loaded with
  | None => Ret (Normal tt)
  | Some dataRows =>
      contextOptions <- contextOptionsFor ;;
      forEach (imap pair dataRows)
        (fun row => runRow contextOptions (length dataRows) row.1 row.2)
  end.
End RunSingleTest.

(** *** [runTests] *)

(** [args.indexOf('--tags')], then [args[tagIndex + 1]]. *)
Fixpoint tagAfterFlag (args : list string) : option string :=
  match args with
  | [] => None
  | a :: rest => if String.eqb a "--tags" then head rest else tagAfterFlag rest
  end.

Definition testsToRun (args : list string) (configs : list TestConfig)
  : list TestConfig :=
  let filterTag := tagAfterFlag args in
  if JsString.truthy filterTag then
    List.filter (fun c => match tags c with
                          | Some ts => bool_decide (default "" filterTag ∈ ts)
                          | None => false
                          end) configs
  else configs.

(** The test number of every configuration of every batch:
    [completedTests + batchIndex + 1]. *)
Fixpoint numberBatches (completedTests : Z) (batches : list (list TestConfig))
  : list (list (Z * TestConfig)) :=
  match batches with
  | [] => []
  | batch :: rest =>
      imap (fun batchIndex cfg => (completedTests + Z.of_nat batchIndex + 1, cfg)) batch
      :: numberBatches (completedTests + Z.of_nat (length batch)) rest
  end.

(** What [runTests] awaits, in order: each element is one
    [await Promise.all(...)] over a batch, or, when [concurrency === 1],
    one [await runSingleTest(...)]. *)
Definition batchesOf (fuel : nat) (tests : list TestConfig) (concurrency : Z)
  : option (list (list (Z * TestConfig))) :=
  if concurrency =? 1 then
    Some (imap (fun i cfg => [(Z.of_nat i + 1, cfg)]) tests)
  else numberBatches 0 <$> chunk fuel tests concurrency.

(** A state of [runTests] after the browser is launched: the world,
    the calls to [runSingleTest] in flight, the batches not started. *)
Record Sched := {
  world : World;
  inFlight : list (Prog (Exc unit));
  notStarted : list (list (Z * TestConfig));
}.

Section RunTests.
Context (host : Host) (env : Row) (totalTests maxRetries : Z).

Definition startBatch (batch : list (Z * TestConfig)) : list (Prog (Exc unit)) :=
  (fun t => runSingleTest env t.2 t.1 totalTests maxRetries) <$> batch.

(** One step of the event loop: either one call in flight gets the
    answer to the call it waits for and runs on to its next call, or,
    every call in flight having returned, the next batch starts. *)
Inductive sched_step : Sched -> Sched -> Prop :=
| step_call (s : Sched) (i : nat) (X : Type) (e : Eff X) (k : X -> Prog (Exc unit))
      (x : X) (w' : World) :
    inFlight s !! i = Some (Vis e k) ->
    handle host e (world s) = (x, w') ->
    sched_step s {| world := w'; inFlight := <[i := k x]> (inFlight s);
                    notStarted := notStarted s |}
| step_batch (s : Sched) (batch : list (Z * TestConfig))
      (rest : list (list (Z * TestConfig))) :
    Forall (fun p => p = Ret (Normal tt)) (inFlight s) ->
    notStarted s = batch :: rest ->
    sched_step s {| world := world s; inFlight := startBatch batch;
                    notStarted := rest |}.

Inductive sched_steps : Sched -> Sched -> Prop :=
| steps_refl s : sched_steps s s
| steps_more s1 s2 s3 : sched_steps s1 s2 -> sched_step s2 s3 -> sched_steps s1 s3.
End RunTests.

(** ** The approval workflow ([cli/approve.ts]) *)

(** The last component of a POSIX path: what follows the last
    separator that is not at the end. *)
Definition lastComponent (path : string) : string :=
  default "" (last (List.filter (fun s => negb (String.eqb s ""))
                                (JsString.split "/" path))).

(** [path.basename(path, ext)]: nothing when the whole path is [ext];
    else the last component, without [ext] when it ends with it and is
    more than it. *)
Definition basename (path ext : string) : string :=
  if String.eqb path ext then ""
  else
    let component := lastComponent path in
    if negb (String.eqb ext "") && JsString.endsWith component ext &&
       (String.length ext <? String.length component)%nat
    then JsString.slice component 0 (- Z.of_nat (String.length ext))
    else component.

(** The body of the loop over the pending files. *)
Definition review (file : string) : Prog (Exc unit) :=
  let actualPath := (Actual, file) in
  let baselinePath := (Baseline, file) in
  let snapshotName := basename file ".png" in
  call (Log (LogReviewing snapshotName)) ;;
  answer <- call (Prompt snapshotName) ;;
  if String.eqb answer "approve" then
    call (Move actualPath baselinePath) ;;!
    call (Log (LogApproved snapshotName)) ;;
    Ret (Normal tt)
  else if String.eqb answer "reject" then
    call (Remove actualPath) ;;
    call (Log LogRejected) ;;
    Ret (Normal tt)
  else
    call (Log LogSkipped) ;; Ret (Normal tt).

Definition approveBaselines : Prog (Exc unit) :=
  present <- call (DirExists Actual) ;;
  if negb present then call (Log LogNoPending) ;; Ret (Normal tt)
  else
    files <-! call (Readdir Actual) ;;
    let pngFiles := List.filter (fun f => JsString.endsWith f ".png") files in
    if (length pngFiles =? 0)%nat then call (Log LogNoPending) ;; Ret (Normal tt)
    else
      call (Log (LogFoundPending (length pngFiles))) ;;
      forEach pngFiles review ;;!
      call (Log LogDone) ;;
      Ret (Normal tt).

(** ** Vocabulary of the properties *)

(** Worlds that differ only in files, page properties, console and
    clock: the same contexts are open and the same results recorded. *)
Definition sameRun (w w' : World) : Prop :=
  openContexts w' = openContexts w /\ nextCtx w' = nextCtx w /\
  reported w' = reported w.

(** A snapshot is pending approval when an actual image is stored
    under its name. *)
Definition pending (w : World) (snapshotName : string) : Prop :=
  is_Some (lookupFile (files w) (Actual, snapshotFile snapshotName)).

(** A name without separator and without null byte. *)
Definition flatName (name : string) : bool :=
  negb (JsString.includes name "/") && negb (JsString.includes name nul).

(** The name of an entry of a folder: [path.join(d, name)] is the
    entry [name] of [d]. *)
Definition plainName (name : string) : bool :=
  flatName name && negb (String.eqb name "") && negb (String.eqb name ".") &&
  negb (String.eqb name "..").

Definition isFile (t : Tree) : bool := negb (isFolder t).

(** The content of the file at the end of the segments [q]. *)
Definition fileAt (t : Tree) (q : list string) : option Buffer :=
  match get t q with
  | Some (File b) => Some b
  | _ => None
  end.

(** There is a folder at [d]. *)
Definition isDir (fs : FileSystem) (d : Dir) : Prop :=
  exists entries, get (root fs) (dirPath fs d) = Some (Folder entries).

(** A folder whose entries are files. *)
Definition flatFolder (t : Tree) : Prop :=
  match t with
  | Folder entries =>
      map_Forall (fun name t' => plainName name = true /\ isFile t' = true) entries
  | File _ => False
  end.

(** What an entry of [screenshots] may be: the folders [baseline] and
    [actual], which hold files, and files. *)
Definition shelf (name : string) (t : Tree) : Prop :=
  plainName name = true /\
  if String.eqb name "baseline" || String.eqb name "actual"
  then flatFolder t else isFile t = true.

(** The entries of the working directory: [screenshots], when there
    is one, is a folder that holds files and, when there are any, the
    folders [baseline] and [actual], which hold files. *)
Definition shelves (here : gmap string Tree) : Prop :=
  match here !! "screenshots" with
  | None => True
  | Some (File _) => False
  | Some (Folder entries) => map_Forall shelf entries
  end.

(** The disk as the runner and the approval workflow find and leave
    it: the working directory is a folder with [screenshots] as above. *)
Definition tidy (fs : FileSystem) : Prop :=
  match get (root fs) (cwd fs) with
  | Some (Folder here) => shelves here
  | _ => False
  end.

#[global] Instance flatFolder_dec (t : Tree) : Decision (flatFolder t).
Proof. destruct t; apply _. Defined.

#[global] Instance shelf_dec (name : string) (t : Tree) : Decision (shelf name t).
Proof. unfold shelf. destruct (_ || _); apply _. Defined.

#[global] Instance shelves_dec (here : gmap string Tree) : Decision (shelves here).
Proof. unfold shelves. destruct (here !! "screenshots") as [[|]|]; apply _. Defined.

#[global] Instance tidy_dec (fs : FileSystem) : Decision (tidy fs).
Proof. unfold tidy. destruct (get _ _) as [[|here]|]; apply _. Defined.

(** A name for a file of [d]: the name of an entry that, in
    [screenshots], is not the name of one of its two folders. *)
Definition fileName (d : Dir) (name : string) : bool :=
  plainName name &&
  match d with
  | Screenshots => negb (String.eqb name "baseline") && negb (String.eqb name "actual")
  | _ => true
  end.

(** Where the file [name] of [d] is, from the root. *)
Definition location (fs : FileSystem) (d : Dir) (name : string) : list string :=
  dirPath fs d ++ [name].

(** The disk [fs'] holds the files of [fs], but for what is at [q]. *)
Definition sameFilesBut (qs : list (list string)) (fs fs' : FileSystem) : Prop :=
  cwd fs' = cwd fs /\
  forall q, q ∉ qs -> fileAt (root fs') q = fileAt (root fs) q.

(** The folders [baseline] and [actual] are there or can be made. *)
Definition canPrepare (fs : FileSystem) : Prop :=
  exists fs1 fs2,
    ensureDir fs Baseline = (Normal tt, fs1) /\
    ensureDir fs1 Actual = (Normal tt, fs2).

(** A [compare_screenshot] step whose first parameter resolves to a
    value that prints as the non-empty snapshot name. *)
Definition visualStep (env rowParams : Row) (step : TemplateStep)
    (snapshotName : string) : Prop :=
  action step = "compare_screenshot" /\
  snapshotName <> "" /\
  exists v rest,
    resolveParams env (params step) rowParams = Normal (v :: rest) /\
    toText v = snapshotName.





(** What was answered at the prompt; any answer other than
    the first two is the third choice. *)
Inductive Decision := Approve | Reject | Skip.









(** The failure screenshot of the [catch] block can always be taken. *)
Definition failureShots (host : Host) : Prop :=
  forall t c file, exists b, screenshotReply host t c (Some file) = Normal b.

(** The three console lines that announce the outcome of an attempt. *)
Definition outcomeLine (l : LogLine) : bool :=
  match l with
  | LogPASS _ | LogTestFailed _ _ | LogFAIL _ _ => true
  | _ => false
  end.

(** Calls a step may make: anything but opening or closing a context,
    recording a result and announcing the outcome of an attempt. *)
Definition stepEffect (X : Type) (e : Eff X) : Prop :=
  match e with
  | NewContext _ | CloseContext _ | AddResult _ => False
  | Log l => outcomeLine l = false
  | _ => True
  end.

(** Every call of the program, whatever the answers, satisfies [P]. *)
Fixpoint only (P : forall X : Type, Eff X -> Prop) {A : Type} (p : Prog A) : Prop :=
  match p with
  | Ret _ => True
  | Vis e k => P _ e /\ forall x, only P (k x)
  end.

Definition sessionEvent (ev : Event) : bool :=
  match ev with
  | EvOpen _ | EvClose _ => true
  | _ => false
  end.

(** The events of a step: no context opened or closed, no result
    recorded, no outcome announced. *)
Definition stepEvent (ev : Event) : bool :=
  match ev with
  | EvOpen _ | EvClose _ | EvReport _ => false
  | EvLog l => negb (outcomeLine l)
  | _ => true
  end.

Definition sessionsOf (evs : list Event) : list Event :=
  List.filter sessionEvent evs.

Fixpoint outcomesOf (evs : list Event) : list LogLine :=
  match evs with
  | [] => []
  | EvLog l :: later => if outcomeLine l then l :: outcomesOf later else outcomesOf later
  | _ :: later => outcomesOf later
  end.

(** How the events of an attempt begin: with the start of the first
    template of the unit and, when that template is in the store and
    the parameters of its first step resolve, with that first step. *)
Definition attemptOpening (host : Host) (env : Row) (config : TestConfig)
    (testNumber : Z) (rowParams : Row) (body : list Event) : Prop :=
  forall t0,
    head (templatesToRun config) = Some t0 ->
    body !! 0%nat = Some (EvLog (LogTemplate testNumber t0)) /\
    (forall tmpl step0 resolved,
       (forall t, templateStore host t t0 = Normal (Some tmpl)) ->
       head (steps tmpl) = Some step0 ->
       resolveParams env (params step0) rowParams = Normal resolved ->
       body !! 1%nat = Some (EvLog (LogStep (action step0) (toText <$> resolved)))).

(** The events of one attempt in context [c] that ended with the
    announcement [outcome]: the context is opened, what happens in it
    begins as [opening] says, the outcome is announced once, and the
    context is closed last. *)
Definition attemptEvents (opening : list Event -> Prop)
    (c : Ctx) (outcome : LogLine) (seg : list Event) : Prop :=
  exists pre body,
    seg = pre ++ [EvOpen c] ++ body ++ [EvClose c] /\
    sessionsOf pre = [] /\ outcomesOf pre = [] /\
    sessionsOf body = [] /\ outcomesOf body = [outcome] /\
    opening body.

(** The events of successive attempts in contexts [c], [c + 1], ...:
    each attempt is over, its context closed, before the next begins. *)
Inductive attemptsTrace (opening : list Event -> Prop)
  : Ctx -> list LogLine -> list Event -> Prop :=
| attempts_none (c : Ctx) : attemptsTrace opening c [] []
| attempts_next (c : Ctx) (outcome : LogLine) (outcomes : list LogLine)
      (seg evs : list Event) :
    attemptEvents opening c outcome seg ->
    attemptsTrace opening (S c) outcomes evs ->
    attemptsTrace opening c (outcome :: outcomes) (seg ++ evs).

(** Calls that take no file away: no removal, no move, and no
    screenshot that goes to a path. *)
Definition keepsFiles (X : Type) (e : Eff X) : Prop :=
  match e with
  | Remove _ | Move _ _ | PageScreenshot _ (Some _) => False
  | _ => True
  end.

(** The world in which attempt number [attempt] starts its first
    template: the retry line written, the context opened, the start
    time read. *)
Definition attemptStart (testNumber attempt : Z) (w : World) : World :=
  tick (openContext
          (tick (if 0 <? attempt
                 then emit (tick w) (EvLog (LogRetry testNumber attempt))
                 else w))).2.

(** What the end of an attempt adds, by the three ways it can end:
    [ctl] tells the retry loop to go on or stop, [line] is the outcome
    written to the console. The failure screenshot is on the disk at
    the path the result names, unless the path has a null byte in it,
    which no path of a file has. *)
Definition settled (testNumber maxRetries : Z) (testId : string)
    (attempt : Z) (outcome : Exc unit)
    (ctl : LoopCtl) (line : LogLine) (before : list TestResult) (w' : World) : Prop :=
  match outcome with
  | Normal _ =>
      ctl = Break /\ line = LogPASS testNumber /\
      exists r, reported w' = before ++ [r] /\
                status r = PASS /\ result_error r = None /\ result_id r = testId
  | Thrown m =>
      ctl = Continue /\
      if attempt <? maxRetries then
        line = LogTestFailed testNumber m /\ reported w' = before
      else
        line = LogFAIL testNumber m /\
        exists r, reported w' = before ++ [r] /\
                  status r = FAIL /\ result_error r = Some m /\ result_id r = testId /\
                  exists shot, screenshot r = Some shot /\
                               (JsString.includes testId nul = false ->
                                is_Some (lookupFile (files w') shot))
  end.

(** The world in which the attempts of unit [i] of [rows] begin: the
    line that announces the row is written when there is more than
    one row. *)
Definition unitStart (testNumber : Z) (rows i : nat) (w : World) : World :=
  if (1 <? rows)%nat then emit (tick w) (EvLog (LogRow testNumber (S i))) else w.

Section RunUnit.
Context (host : Host) (env : Row) (config : TestConfig).
Context (testNumber maxRetries : Z) (contextOptions : ContextOptions).
Context (testId testName : string) (rowParams : Row).

(** What the templates of attempt number [attempt] return when the
    attempt starts in [w], and the world they leave: they run in the
    context the attempt opens. *)
Definition attemptBody (attempt : Z) (w : World) : Exc unit * World :=
  run host (runTemplates env config testNumber (nextCtx w) rowParams)
      (attemptStart testNumber attempt w).

(** The world after the whole attempt. *)
Definition afterAttempt (attempt : Z) (w : World) : World :=
  (run host (attemptOnce env config testNumber maxRetries contextOptions
               testId testName rowParams attempt) w).2.

(** The answer to the failure screenshot of the [catch] block, asked
    in context [c] when the templates have left the world [wt]: the
    FAIL line is written and the clock is read before. *)
Definition failureShot (c : Ctx) (wt : World) : Exc Buffer :=
  screenshotReply host (S (S (ticks wt))) c
    (Some (failFile testId (clock host (S (ticks wt))))).

(** The attempts of a run unit from attempt number [attempt], which
    starts in [w]: [msgs] are the errors of the attempts that failed
    with attempts left, one after the other, each followed by a new
    attempt in the world the failed one left; the attempt number
    [last], which starts in [wl], is the one that is not retried: its
    templates return normally, or no attempt is left. *)
Inductive attemptsFrom : Z -> World -> list string -> Z -> World -> Prop :=
| attempts_last (attempt : Z) (w : World) :
    (forall m, (attemptBody attempt w).1 = Thrown m -> maxRetries <= attempt) ->
    attemptsFrom attempt w [] attempt w
| attempts_retry (attempt : Z) (w : World) (m : string) (msgs : list string)
      (last : Z) (wl : World) :
    (attemptBody attempt w).1 = Thrown m ->
    attempt < maxRetries ->
    attemptsFrom (attempt + 1) (afterAttempt attempt w) msgs last wl ->
    attemptsFrom attempt w (m :: msgs) last wl.

End RunUnit.

(** What [runSingleTest] does before the loop over the rows: the
    line that announces the test, the load of the data, the choice of
    the context options. The result is the context options and the
    world in which the first unit starts. *)
Definition beforeRows (host : Host) (config : TestConfig)
    (testNumber totalTests : Z) (w : World) : ContextOptions * World :=
  run host (bind (call (Log (LogRunning testNumber totalTests (config_name config))))
                 (fun _ => bind (loadRows config testNumber)
                                (fun _ => contextOptionsFor config testNumber))) w.

(** The run units of one configuration, one after the other: unit [i]
    is [unit i row] for the [i]-th row, it returns normally, and the
    next unit starts in the world it leaves. *)
Inductive unitsRun (host : Host) (unit : nat -> Row -> Prog (Exc unit))
  : nat -> list Row -> World -> World -> Prop :=
| units_done (i : nat) (w : World) : unitsRun host unit i [] w w
| units_next (i : nat) (row : Row) (rows : list Row) (w w1 w2 : World) :
    run host (unit i row) w = (Normal tt, w1) ->
    unitsRun host unit (S i) rows w1 w2 ->
    unitsRun host unit i (row :: rows) w w2.

(** The discipline of a call to [runSingleTest] with contexts. [h] is
    the context the call holds open, if any: it opens a context only
    when it holds none, closes only the one it holds, and any other
    call leaves [h] as it is, whatever the answer. [K x h'] is what must
    hold of the rest of the program once the call has returned [x]. *)
Definition effectHolds {X : Type} (e : Eff X) (h : option Ctx)
    (K : X -> option Ctx -> Prop) : Prop :=
  match e in Eff X return (X -> option Ctx -> Prop) -> Prop with
  | NewContext _ => fun K => h = None /\ forall c, K c (Some c)
  | CloseContext c => fun K => h = Some c /\ K tt None
  | _ => fun K => forall x, K x h
  end K.

(** [holds p h Q]: started holding [h], the program [p] keeps to the
    discipline along every path, and ends with a value and a held
    context that satisfy [Q]. *)
Fixpoint holds {A : Type} (p : Prog A) (h : option Ctx)
    (Q : A -> option Ctx -> Prop) : Prop :=
  match p with
  | Ret a => Q a h
  | Vis e k => effectHolds e h (fun x h' => holds (k x) h' Q)
  end.

(** A call that returns normally holds no context any more. *)
Definition released {A : Type} (r : Exc A) (h : option Ctx) : Prop :=
  match r with
  | Normal _ => h = None
  | Thrown _ => True
  end.

(** What is left of a program once some of its calls have been
    answered. *)
Inductive residual {A : Type} (p : Prog A) : Prog A -> Prop :=
| residual_whole : residual p p
| residual_answer (X : Type) (e : Eff X) (k : X -> Prog A) (x : X) :
    residual p (Vis e k) -> residual p (k x).

(** What is true of every state of [runTests] that runs the batches
    [batches] with concurrency [K]: the batches started are the first
    ones, the calls in flight are the calls to [runSingleTest] for the
    configurations of the last batch started, each with its test
    number and each as far as its answers have taken it, the batches
    after it are not started, and no more than [K] contexts are open. *)
Definition withinBound (env : Row) (totalTests maxRetries K : Z)
    (batches : list (list (Z * TestConfig))) (s : Sched) : Prop :=
  Z.of_nat (length (openContexts (world s))) <= K /\
  Z.of_nat (length (inFlight s)) <= K /\
  (length (openContexts (world s)) <= length (inFlight s))%nat /\
  exists started,
    batches = started ++ notStarted s /\
    match last started with
    | None => inFlight s = []
    | Some batch =>
        Forall2 (fun t p =>
                   residual (runSingleTest env t.2 t.1 totalTests maxRetries) p)
                batch (inFlight s)
    end.

(** The test number a console line carries, if it carries one. *)
Definition lineNumber (l : LogLine) : option Z :=
  match l with
  | LogRunning n _ _ | LogLoadingData n _ | LogFoundRows n _ | LogLoadFailed n _
  | LogDeviceNotFound n _ | LogEmulating n _ | LogViewport n _ | LogRow n _
  | LogRetry n _ | LogTemplate n _ | LogPASS n | LogTestFailed n _ | LogFAIL n _
  | LogEnrichFailed n _ => Some n
  | _ => None
  end.

Definition numberOf (ev : Event) : option Z :=
  match ev with
  | EvLog l => lineNumber l
  | _ => None
  end.

(** The index of the batch that has the configuration with test
    number [n]. *)
Definition batchOf (batches : list (list (Z * TestConfig))) (n : Z) : option nat :=
  fst <$> list_find (fun batch => n ∈ batch.*1) batches.

(** No test number is in two batches. *)
Definition separate (batches : list (list (Z * TestConfig))) : Prop :=
  forall j j' b b' n,
    batches !! j = Some b -> batches !! j' = Some b' ->
    n ∈ b.*1 -> n ∈ b'.*1 -> j = j'.

(** The batches the numbered console lines of [evs] belong to, in the
    order of the lines. *)
Definition batchesLogged (batches : list (list (Z * TestConfig)))
    (evs : list Event) : list nat :=
  omap (fun ev => numberOf ev ≫= batchOf batches) evs.

(** Every batch is over before the next begins: no line of a batch
    comes after a line of a later batch. *)
Definition oneBatchAtATime (batches : list (list (Z * TestConfig)))
    (evs : list Event) : Prop :=
  forall i j a b,
    batchesLogged batches evs !! i = Some a ->
    batchesLogged batches evs !! j = Some b ->
    (i <= j)%nat -> (a <= b)%nat.

(** Console lines with a test number carry the number [n]. *)
Definition numbered (n : Z) (X : Type) (e : Eff X) : Prop :=
  match e with
  | Log l => lineNumber l = None \/ lineNumber l = Some n
  | _ => True
  end.

(** One step of the call number [i] in flight, computed. *)
Definition advance (host : Host) (i : nat) (s : Sched) : option Sched :=
  match inFlight s !! i with
  | Some (Vis e k) =>
      Some {| world := (handle host e (world s)).2;
              inFlight := <[i := k (handle host e (world s)).1]> (inFlight s);
              notStarted := notStarted s |}
  | _ => None
  end.

(** The invariant behind [withinBound]: every call in flight keeps
    the discipline from the context [hs] says it holds, every open
    context is held by a call in flight, and context numbers are
    fresh. *)
Definition disciplined (K : Z) (s : Sched) : Prop :=
  exists hs : list (option Ctx),
    Forall2 (fun p h => holds p h released) (inFlight s) hs /\
    (forall c, c ∈ openContexts (world s) -> Some c ∈ hs) /\
    NoDup (openContexts (world s)) /\
    (forall c, Some c ∈ hs -> (c < nextCtx (world s))%nat) /\
    Z.of_nat (length (inFlight s)) <= K /\
    Forall (fun batch => Z.of_nat (length batch) <= K) (notStarted s).

(** Calls that open or close a context. *)
Definition sessionCall {X : Type} (e : Eff X) : bool :=
  match e with
  | NewContext _ | CloseContext _ => true
  | _ => false
  end.

(** What the blocks appended by the loop of [chunk] from index [i] on
    are: they make up the rest of the array, none is empty or longer
    than [size], and all but the last have exactly [size] elements. *)
Definition blocksFrom {T : Type} (array : list T) (size : Z) (i : Z)
    (more : list (list T)) : Prop :=
  concat more = drop (Z.to_nat i) array /\
  Forall (fun b => (0 < length b)%nat /\ Z.of_nat (length b) <= size) more /\
  (forall j b, more !! j = Some b -> (S j < length more)%nat ->
               Z.of_nat (length b) = size).

(** The events a run added to the trace of [w]. *)
Definition newEvents (w w' : World) : list Event :=
  drop (length (trace w)) (trace w').

(** A host and a world for examples. The browser accepts every call,
    every screenshot is the one-pixel black image, the clock shows the
    number of calls made. Its [pixelmatch] makes the two size checks of
    the library and then counts the pixels whose four bytes differ; the
    colour metric of the library is not part of the examples. *)
Module Sample.

Fixpoint differing (a b : list Z) : Z :=
  match a, b with
  | r1 :: g1 :: b1 :: a1 :: resta, r2 :: g2 :: b2 :: a2 :: restb =>
      (if bool_decide ((r1, g1, b1, a1) = (r2, g2, b2, a2)) then 0 else 1)
      + differing resta restb
  | _, _ => 0
  end.

Definition countPixels (img1 img2 : list Z) (w h : Z) (thr : Q)
  : Exc (Z * list Z) :=
  if negb (length img1 =? length img2)%nat
  then Thrown "Image sizes do not match."
  else if negb (Z.of_nat (length img1) =? w * h * 4)
  then Thrown "Image data size does not match width/height."
  else Normal (differing img1 img2, img1).

Definition black : PNG := {| width := 1; height := 1; pixels := [0; 0; 0; 255] |}.
Definition white : PNG := {| width := 1; height := 1; pixels := [255; 255; 255; 255] |}.
Definition tall : PNG :=
  {| width := 1; height := 2; pixels := [255; 255; 255; 255; 255; 255; 255; 255] |}.
Definition wide : PNG :=
  {| width := 2; height := 1; pixels := [0; 0; 0; 255; 0; 0; 0; 255] |}.

Definition users : list Row :=
  [ {[ "username" := "alice" ]}; {[ "username" := "bob" ]} ].

Definition loginConfig : TestConfig :=
  {| config_id := "login"; config_name := "Login";
     templateId := Some "login_basic"; workflow := None;
     parameters := {[ "username" := "demo"; "password" := "{{env.PASSWORD}}" ]};
     data := Some "users.json"; device := None; viewport := None; tags := None |}.

Definition plainContext : ContextOptions :=
  {| deviceDescriptor := None; viewportOverride := None |}.

Definition hostWith (shot : PNG) (answer : string) : Host :=
  {| browserReply := fun _ _ _ => Normal tt;
     fetchReply := fun _ _ _ _ _ =>
       Normal {| response_status := 200; response_text := "" |};
     screenshotReply := fun _ _ _ => Normal (PngBytes shot);
     pluginLoaded := fun _ _ => false;
     pluginReply := fun _ _ _ _ => Normal tt;
     devices := fun _ => None;
     clock := fun t => Z.of_nat t;
     pixelmatch := countPixels;
     templateStore := fun _ _ => Normal None;
     dataSource := fun _ _ => Normal users;
     promptAnswer := fun _ _ => answer |}.

Definition hostShowing (shot : PNG) : Host := hostWith shot "skip".

(** A browser whose pages have crashed: a screenshot that is to go to
    a file cannot be taken. *)
Definition crashed : Host :=
  {| browserReply := fun _ _ _ => Normal tt;
     fetchReply := fun _ _ _ _ _ =>
       Normal {| response_status := 200; response_text := "" |};
     screenshotReply := fun _ _ file =>
       match file with
       | Some _ => Thrown "page.screenshot: Target page, context or browser has been closed"
       | None => Normal (PngBytes black)
       end;
     pluginLoaded := fun _ _ => false;
     pluginReply := fun _ _ _ _ => Normal tt;
     devices := fun _ => None;
     clock := fun t => Z.of_nat t;
     pixelmatch := countPixels;
     templateStore := fun _ _ => Normal None;
     dataSource := fun _ _ => Normal users;
     promptAnswer := fun _ _ => "skip" |}.

Definition host : Host := hostShowing black.

(** A disk with the working directory [/app] and, in it, the folder
    [screenshots] with the given entries, if any. *)
Definition disk (screenshots : option (gmap string Tree)) : FileSystem :=
  {| cwd := ["app"];
     root := Folder {[ "app" :=
               Folder match screenshots with
                      | Some entries => {[ "screenshots" := Folder entries ]}
                      | None => ∅
                      end ]} |}.


Definition worldWith (fs : FileSystem) : World :=
  {| files := fs; sessions := ∅; openContexts := []; nextCtx := 0%nat;
     reported := []; trace := []; ticks := 0%nat |}.

Definition noFiles : FileSystem := disk None.

Definition baselineOnly (file : string) (img : PNG) : FileSystem :=
  disk (Some {[ "baseline" := Folder {[ file := File (PngBytes img) ]} ]}).

Definition visualCheck : TemplateStep :=
  {| action := "compare_screenshot"; params := ["{{snapshotName}}"] |}.

Definition homeRow : Row := {[ "snapshotName" := "home" ]}.



(** A site with one template: open the page, type the user name, check
    the page against the snapshot. *)
Definition homeTemplate : Template :=
  {| template_id := "home_visual"; template_name := "Home page";
     steps := [ {| action := "goto"; params := ["{{url}}"] |};
                {| action := "type"; params := ["#user"; "{{username}}"] |};
                visualCheck ] |}.

Definition homeConfig : TestConfig :=
  {| config_id := "home"; config_name := "Home";
     templateId := Some "home_visual"; workflow := None;
     parameters := {[ "url" := "http://localhost"; "username" := "demo";
                      "snapshotName" := "home" ]};
     data := None; device := None; viewport := None; tags := None |}.

Definition siteShowing (shot : PNG) (answer : string) : Host :=
  {| browserReply := fun _ _ _ => Normal tt;
     fetchReply := fun _ _ _ _ _ =>
       Normal {| response_status := 200; response_text := "" |};
     screenshotReply := fun _ _ _ => Normal (PngBytes shot);
     pluginLoaded := fun _ _ => false;
     pluginReply := fun _ _ _ _ => Normal tt;
     devices := fun _ => None;
     clock := fun t => Z.of_nat t;
     pixelmatch := countPixels;
     templateStore := fun _ _ => Normal (Some homeTemplate);
     dataSource := fun _ _ => Normal users;
     promptAnswer := fun _ _ => answer |}.

(** The home page run once when it is black, once more, with one
    retry, when it has turned white, then the approval of the change,
    then a third run. *)
Definition firstRun : World :=
  (run (siteShowing black "skip") (runSingleTest ∅ homeConfig 1 1 0)
       (worldWith noFiles)).2.

Definition secondRun : World :=
  (run (siteShowing white "skip") (runSingleTest ∅ homeConfig 1 1 1) firstRun).2.

Definition approved : World :=
  (run (siteShowing white "approve") approveBaselines secondRun).2.

Definition thirdRun : World :=
  (run (siteShowing white "skip") (runSingleTest ∅ homeConfig 1 1 1) approved).2.

End Sample.

(** * Properties *)

(** ** The model at work *)

Example first_run_passes_and_saves_baseline :
  status <$> reported Sample.firstRun = [PASS] /\
  lookupFile (files Sample.firstRun) (Baseline, "home.png")
    = Some (PngBytes Sample.black) /\
  sessionsOf (trace Sample.firstRun) = [EvOpen 0%nat; EvClose 0%nat].
Proof. vm_compute. auto. Qed.

Example changed_page_fails_after_retry :
  status <$> reported Sample.secondRun = [PASS; FAIL] /\
  sessionsOf (newEvents Sample.firstRun Sample.secondRun)
    = [EvOpen 1%nat; EvClose 1%nat; EvOpen 2%nat; EvClose 2%nat] /\
  lookupFile (files Sample.secondRun) (Actual, "home.png")
    = Some (PngBytes Sample.white).
Proof. vm_compute. auto. Qed.

Example approval_then_pass :
  lookupFile (files Sample.approved) (Baseline, "home.png")
    = Some (PngBytes Sample.white) /\
  lookupFile (files Sample.approved) (Actual, "home.png") = None /\
  status <$> reported Sample.thirdRun = [PASS; FAIL; PASS] /\
  lookupFile (files Sample.thirdRun) (Actual, "home.png") = None.
Proof. vm_compute. auto. Qed.

Example concurrency_from_arguments :
  getConcurrency 8 ["--parallel=3"] = 3 /\
  getConcurrency 8 ["--parallel"] = 1 /\
  getConcurrency 8 ["--parallel=0"] = 1 /\
  getConcurrency 8 ["--retries=2"] = 1 /\
  getRetries ["--retries=2"] = 2.
Proof. vm_compute. auto 10. Qed.

Example chunk_of_five_by_two :
  chunk 6 ["a"; "b"; "c"; "d"; "e"] 2 = Some [["a"; "b"]; ["c"; "d"]; ["e"]].
Proof. reflexivity. Qed.

(** With a size that is not positive the loop of [chunk] never ends. *)
Example chunk_by_zero_runs_out_of_fuel (fuel : nat) :
  chunk fuel ["a"] 0 = None.
Proof.
  unfold chunk. generalize (@nil (list string)).
  induction fuel as [|fuel IH]; intros chunks; [reflexivity|].
  apply (IH (chunks ++ [arraySlice ["a"] 0 (0 + 0)])).
Qed.

(** ** Strings *)

Module JsStringFacts.
Import JsString.

Lemma length_app (a b : string) :
  String.length (a +:+ b) = (String.length a + String.length b)%nat.
Proof. induction a as [|c a IH]; simpl; [reflexivity | now rewrite IH]. Qed.

Lemma substring_all (s : string) : substring 0 (String.length s) s = s.
Proof. induction s as [|c s IH]; simpl; [reflexivity | now rewrite IH]. Qed.

Lemma substring_skip (a s : string) (n : nat) :
  substring (String.length a) n (a +:+ s) = substring 0 n s.
Proof. induction a as [|c a IH]; simpl; [reflexivity | exact IH]. Qed.

Lemma substring_keep (s b : string) :
  substring 0 (String.length s) (s +:+ b) = s.
Proof.
  induction s as [|c s IH]; simpl.
  - destruct b; reflexivity.
  - now rewrite IH.
Qed.

Lemma prefix_app (p s : string) : String.prefix p (p +:+ s) = true.
Proof.
  induction p as [|c p IH]; simpl.
  - destruct s; reflexivity.
  - destruct (ascii_dec c c); [exact IH | congruence].
Qed.

Lemma prefix_inv (p s : string) :
  String.prefix p s = true -> exists t, s = p +:+ t.
Proof.
  revert s. induction p as [|c p IH]; intros s H.
  - now exists s.
  - destruct s as [|d s]; [discriminate|]. simpl in H.
    destruct (ascii_dec c d) as [->|]; [|discriminate].
    destruct (IH _ H) as [t ->]. now exists t.
Qed.

Lemma startsWith_app (p s : string) : startsWith (p +:+ s) p = true.
Proof. apply prefix_app. Qed.

Lemma startsWith_inv (s p : string) :
  startsWith s p = true -> exists t, s = p +:+ t.
Proof. apply prefix_inv. Qed.

Lemma endsWith_app (s p : string) : endsWith (s +:+ p) p = true.
Proof.
  unfold endsWith. rewrite length_app.
  destruct (Nat.leb_spec (String.length p) (String.length s + String.length p));
    [|lia].
  replace (String.length s + String.length p - String.length p)%nat
    with (String.length s) by lia.
  rewrite substring_skip, substring_all. apply String.eqb_refl.
Qed.

Lemma split_at (s : string) (n : nat) :
  (n <= String.length s)%nat ->
  s = substring 0 n s +:+ substring n (String.length s - n) s.
Proof.
  revert n. induction s as [|c s IH]; intros [|n] H; simpl in *;
    try reflexivity; try lia.
  - now rewrite substring_all.
  - change (String c s = String c (substring 0 n s +:+
                                     substring n (String.length s - n) s)).
    f_equal. apply IH. lia.
Qed.

Lemma endsWith_inv (s p : string) :
  endsWith s p = true -> exists t, s = t +:+ p.
Proof.
  unfold endsWith.
  destruct (Nat.leb_spec (String.length p) (String.length s)) as [Hle|];
    [|discriminate].
  intros H. apply String.eqb_eq in H.
  exists (substring 0 (String.length s - String.length p) s).
  pose proof (split_at s (String.length s - String.length p) ltac:(lia)) as E.
  replace (String.length s - (String.length s - String.length p))%nat
    with (String.length p) in E by lia.
  now rewrite H in E.
Qed.

Lemma slice_inner (a k b : string) :
  (0 < String.length b)%nat ->
  slice (a +:+ k +:+ b) (Z.of_nat (String.length a))
        (- Z.of_nat (String.length b)) = k.
Proof.
  intros Hb. unfold slice. rewrite !length_app.
  destruct (Z.ltb_spec (Z.of_nat (String.length a)) 0); [lia|].
  destruct (Z.ltb_spec (- Z.of_nat (String.length b)) 0); [|lia].
  rewrite Z.min_l, Z.max_l by lia.
  rewrite Nat2Z.id.
  replace (Z.to_nat _) with (String.length k) by lia.
  rewrite substring_skip. apply substring_keep.
Qed.

Lemma sliceFrom_app (a k : string) :
  sliceFrom (a +:+ k) (Z.of_nat (String.length a)) = k.
Proof.
  unfold sliceFrom, slice. rewrite !length_app.
  destruct (Z.ltb_spec (Z.of_nat (String.length a)) 0); [lia|].
  destruct (Z.ltb_spec (Z.of_nat (String.length a + String.length k)) 0); [lia|].
  rewrite !Z.min_l by lia.
  rewrite Nat2Z.id.
  replace (Z.to_nat _) with (String.length k) by lia.
  rewrite substring_skip. apply substring_all.
Qed.

Lemma slice_braces (key : string) :
  slice ("{{" +:+ key +:+ "}}") 2 (-2) = key.
Proof. apply (slice_inner "{{" key "}}"). simpl. lia. Qed.

Lemma sliceFrom_env (envVar : string) :
  sliceFrom ("env." +:+ envVar) 4 = envVar.
Proof. apply (sliceFrom_app "env." envVar). Qed.

(** A value both starts with two opening and ends with two closing
    braces exactly when it is a key between the two pairs: the pairs
    cannot overlap. *)
Lemma placeholder_shape (value : string) :
  startsWith value "{{" && endsWith value "}}" = true <->
  exists key, value = "{{" +:+ key +:+ "}}".
Proof.
  split.
  - intros H. apply andb_true_iff in H as [Hs He].
    apply startsWith_inv in Hs as [t Ht].
    apply endsWith_inv in He as [u Hu]. subst value.
    destruct u as [|c1 [|c2 u]]; simpl in Hu.
    + destruct t; discriminate.
    + injection Hu as Hc Hu. destruct t; discriminate.
    + injection Hu as Hc1 Hc2 Hu. change ("" +:+ t) with t in Hu.
      subst t. now exists u.
  - intros [key ->]. apply andb_true_iff. split.
    + apply (startsWith_app "{{").
    + change ("{{" +:+ key +:+ "}}") with (("{{" +:+ key) +:+ "}}").
      apply endsWith_app.
Qed.

End JsStringFacts.

(** ** Placeholder resolution *)

Lemma propertyOf_own (obj : Row) (key s : string) :
  obj !! key = Some s -> propertyOf obj key = Some (Str s).
Proof. intros H. unfold propertyOf. now rewrite H. Qed.

Lemma propertyOf_missing (obj : Row) (key : string) :
  obj !! key = None -> key ∉ objectPrototype -> propertyOf obj key = None.
Proof.
  intros H Hnot. unfold propertyOf. rewrite H. now rewrite bool_decide_false.
Qed.

Lemma propertyOf_inherited (obj : Row) (key : string) :
  obj !! key = None -> key ∈ objectPrototype -> propertyOf obj key = Some (Inherited key).
Proof.
  intros H Hin. unfold propertyOf. rewrite H. now rewrite bool_decide_true.
Qed.

(** What a function or an object prints as is never empty. *)
Lemma inheritedText_nonempty (name : string) : inheritedText name <> "".
Proof.
  unfold inheritedText. destruct (String.eqb name "__proto__"); discriminate.
Qed.

Lemma truthyValue_text (v : JsValue) :
  truthyValue (Some v) = negb (String.eqb (toText v) "").
Proof.
  destruct v as [s | name]; [reflexivity|]. simpl.
  destruct (String.eqb_spec (inheritedText name) ""); [|reflexivity].
  now destruct (inheritedText_nonempty name).
Qed.

(** No property of [Object.prototype] has a name that begins with
    [env.]. *)
Lemma objectPrototype_not_env (name : string) :
  name ∈ objectPrototype -> JsString.startsWith name "env." = false.
Proof.
  unfold objectPrototype. rewrite !elem_of_cons, elem_of_nil.
  intros H. repeat destruct H as [-> | H]; try reflexivity. destruct H.
Qed.

Lemma resolveParam_plain (env rowParams : Row) (value : string) :
  (forall key, value <> "{{" +:+ key +:+ "}}") ->
  resolveParam env value rowParams = Normal (Str value).
Proof.
  intros Hno. unfold resolveParam.
  destruct (JsString.startsWith value "{{" && JsString.endsWith value "}}") eqn:E.
  - apply JsStringFacts.placeholder_shape in E as [key ->]. now destruct (Hno key).
  - apply andb_false_iff in E as [-> | ->]; simpl; [reflexivity|].
    now rewrite orb_true_r.
Qed.

Lemma resolveParam_braces (env rowParams : Row) (key : string) :
  resolveParam env ("{{" +:+ key +:+ "}}") rowParams =
  if JsString.startsWith key "env." then
    match propertyOf env (JsString.sliceFrom key 4) with
    | None => Thrown (envUndefinedMessage (JsString.sliceFrom key 4))
    | Some envValue => Normal envValue
    end
  else Normal (Str (default "" (toText <$> propertyOf rowParams key))).
Proof.
  unfold resolveParam.
  assert (E : JsString.startsWith ("{{" +:+ key +:+ "}}") "{{" &&
              JsString.endsWith ("{{" +:+ key +:+ "}}") "}}" = true)
    by (apply JsStringFacts.placeholder_shape; now exists key).
  apply andb_true_iff in E as [-> ->]. cbn [negb orb].
  rewrite JsStringFacts.slice_braces.
  destruct (JsString.startsWith key "env."); [reflexivity|].
  now destruct (propertyOf rowParams key).
Qed.

Lemma resolveParam_env (env rowParams : Row) (envVar : string) :
  resolveParam env ("{{env." +:+ envVar +:+ "}}") rowParams =
  match propertyOf env envVar with
  | None => Thrown (envUndefinedMessage envVar)
  | Some envValue => Normal envValue
  end.
Proof.
  change ("{{env." +:+ envVar +:+ "}}") with ("{{" +:+ ("env." +:+ envVar) +:+ "}}").
  rewrite resolveParam_braces.
  rewrite (JsStringFacts.startsWith_app "env." envVar).
  now rewrite JsStringFacts.sliceFrom_env.
Qed.

Lemma resolveParams_throws (env rowParams : Row) (values : list string) (value m : string) :
  In value values ->
  resolveParam env value rowParams = Thrown m ->
  exists m', resolveParams env values rowParams = Thrown m'.
Proof.
  induction values as [|v rest IH]; intros Hin Hthrow; [destruct Hin|].
  simpl. destruct Hin as [-> | Hin].
  - rewrite Hthrow. now exists m.
  - destruct (resolveParam env v rowParams) as [r|m0]; [|now exists m0].
    destruct (IH Hin Hthrow) as [m' ->]. now exists m'.
Qed.

(** C5. What [resolveParam] does with a value of the form [{{key}}].
    For a key that is no property of [Object.prototype] it does what
    the comments in the code say: [{{env.NAME}}] is the value of the
    environment variable [NAME], and when there is none the resolution
    throws and the step ends with that error having made no call at
    all; any other key is the value of the key in the parameter row,
    the empty string when the row has no such key; a value not of that
    form is returned unchanged. For a key that names a property of
    [Object.prototype] ([constructor], [toString], ...) it does not:
    the row that lacks the key is found to have it, and the step gets
    the text of a built-in function where the comment promises the
    empty string; the environment that lacks the variable is found to
    have it, nothing is thrown, and the step goes on with a value that
    is no string. *)
Theorem resolveParam_finds_inherited_properties (env rowParams : Row) :
  (forall envVar,
     env !! envVar = None ->
     (envVar ∉ objectPrototype ->
        resolveParam env ("{{env." +:+ envVar +:+ "}}") rowParams
          = Thrown (envUndefinedMessage envVar) /\
        forall c step, In ("{{env." +:+ envVar +:+ "}}") (params step) ->
          exists m, execute env c step rowParams = Ret (Thrown m)) /\
     (envVar ∈ objectPrototype ->
        resolveParam env ("{{env." +:+ envVar +:+ "}}") rowParams
          = Normal (Inherited envVar) /\
        forall c act, exists k,
          execute env c {| action := act;
                           params := ["{{env." +:+ envVar +:+ "}}"] |} rowParams
            = Vis (Log (LogStep act [inheritedText envVar])) k)) /\
  (forall envVar envValue,
     env !! envVar = Some envValue ->
     resolveParam env ("{{env." +:+ envVar +:+ "}}") rowParams = Normal (Str envValue)) /\
  (forall key,
     JsString.startsWith key "env." = false ->
     resolveParam env ("{{" +:+ key +:+ "}}") rowParams =
       Normal (Str match rowParams !! key with
                   | Some v => v
                   | None => if bool_decide (key ∈ objectPrototype)
                             then inheritedText key else ""
                   end)) /\
  (forall key,
     key ∈ objectPrototype -> rowParams !! key = None ->
     exists text,
       resolveParam env ("{{" +:+ key +:+ "}}") rowParams = Normal (Str text) /\
       text <> "") /\
  (forall value,
     (forall key, value <> "{{" +:+ key +:+ "}}") ->
     resolveParam env value rowParams = Normal (Str value)).
Proof.
  split; [|split; [|split; [|split]]].
  - intros envVar Hnone. rewrite resolveParam_env. split.
    + intros Hnot. rewrite (propertyOf_missing _ _ Hnone Hnot).
      split; [reflexivity|]. intros c step Hin.
      destruct (resolveParams_throws env rowParams (params step)
                  ("{{env." +:+ envVar +:+ "}}") (envUndefinedMessage envVar) Hin)
        as [m Hm].
      * rewrite resolveParam_env. now rewrite (propertyOf_missing _ _ Hnone Hnot).
      * exists m. unfold execute. now rewrite Hm.
    + intros Hin. rewrite (propertyOf_inherited _ _ Hnone Hin).
      split; [reflexivity|]. intros c act. unfold execute.
      cbn [params resolveParams]. rewrite resolveParam_env.
      rewrite (propertyOf_inherited _ _ Hnone Hin). cbn. eauto.
  - intros envVar envValue Hsome. rewrite resolveParam_env.
    now rewrite (propertyOf_own _ _ _ Hsome).
  - intros key Hkey. rewrite resolveParam_braces, Hkey. unfold propertyOf.
    destruct (rowParams !! key); [reflexivity|].
    now destruct (bool_decide (key ∈ objectPrototype)).
  - intros key Hin Hnone. rewrite resolveParam_braces.
    rewrite (objectPrototype_not_env _ Hin).
    rewrite (propertyOf_inherited _ _ Hnone Hin). cbn.
    eexists. split; [reflexivity|]. apply inheritedText_nonempty.
  - apply resolveParam_plain.
Qed.

Lemma resolveParam_finds_inherited_properties_witness :
  resolveParam ∅ "{{constructor}}" ∅ = Normal (Str "function Object() { [native code] }") /\
  resolveParam ∅ "{{env.toString}}" ∅ = Normal (Inherited "toString") /\
  (exists k,
     execute ∅ 0%nat {| action := "goto"; params := ["{{env.toString}}"] |} ∅
       = Vis (Log (LogStep "goto" ["function toString() { [native code] }"])) k) /\
  resolveParam ∅ "{{env.BASE_URL}}" ∅ = Thrown (envUndefinedMessage "BASE_URL") /\
  resolveParam ∅ "{{username}}" ∅ = Normal (Str "") /\
  resolveParam ∅ "#submit" ∅ = Normal (Str "#submit").
Proof.
  destruct (resolveParam_finds_inherited_properties ∅ ∅)
    as (Henv & _ & Hkey & _ & Hplain).
  destruct (Henv "toString" (lookup_empty _)) as [_ Hinherited].
  destruct Hinherited as [Hvalue Hstep];
    [apply (bool_decide_unpack _); vm_compute; exact I|].
  destruct (Henv "BASE_URL" (lookup_empty _)) as [Hmissing _].
  destruct Hmissing as [Hthrow _];
    [apply (bool_decide_unpack _); vm_compute; exact I|].
  split; [exact (Hkey "constructor" eq_refl)|].
  split; [exact Hvalue|].
  split; [exact (Hstep 0%nat "goto")|].
  split; [exact Hthrow|].
  split; [exact (Hkey "username" eq_refl)|].
  apply Hplain. intros key. discriminate.
Defined.

(** ** Running programs *)

Section RunFacts.
Context (host : Host).

Lemma run_bind {A B : Type} (p : Prog A) (f : A -> Prog B) (w : World) :
  run host (bind p f) w = let '(a, w') := run host p w in run host (f a) w'.
Proof.
  revert w. induction p as [a | X e k IH]; intros w; simpl; [reflexivity|].
  destruct (handle host e w) as [x w']. apply IH.
Qed.

Lemma run_vis {A X : Type} (e : Eff X) (k : X -> Prog A) (w : World) :
run host (Vis e k) w = run host (k (handle host e w).1) (handle host e w).2.
Proof. simpl. now destruct (handle host e w). Qed.

Lemma run_call {X : Type} (e : Eff X) (w : World) :
  run host (call e) w = handle host e w.
Proof. unfold call. simpl. now destruct (handle host e w). Qed.

Lemma run_try {A B : Type} (p : Prog (Exc A)) (f : A -> Prog (Exc B)) (w : World) :
  run host (try_ p f) w =
  match run host p w with
  | (Normal a, w') => run host (f a) w'
  | (Thrown m, w') => (Thrown m, w')
  end.
Proof.
  unfold try_. rewrite run_bind.
  destruct (run host p w) as [[a | m] w']; reflexivity.
Qed.

Lemma run_forEach_cons {A : Type} (x : A) (xs : list A)
    (body : A -> Prog (Exc unit)) (w : World) :
  run host (forEach (x :: xs) body) w =
  match run host (body x) w with
  | (Normal _, w') => run host (forEach xs body) w'
  | (Thrown m, w') => (Thrown m, w')
  end.
Proof. simpl forEach. apply run_try. Qed.

End RunFacts.

(** ** The disk *)

(** *** Trees *)

Lemma get_app (t : Tree) (p q : list string) :
  get t (p ++ q) = get t p ≫= fun t' => get t' q.
Proof.
  revert t. induction p as [|s p IH]; intros t; [reflexivity|].
  cbn [app get]. destruct t as [b | entries]; [reflexivity|].
  destruct (entries !! s) as [t'|]; [apply IH | reflexivity].
Qed.

Lemma get_below_file (t : Tree) (q more : list string) (b : Buffer) :
  get t q = Some (File b) -> more <> [] -> get t (q ++ more) = None.
Proof.
  intros Hq Hmore. rewrite get_app, Hq. cbn.
  destruct more; [contradiction | reflexivity].
Qed.

Lemma get_below_nothing (t : Tree) (q more : list string) :
  get t q = None -> get t (q ++ more) = None.
Proof. intros Hq. now rewrite get_app, Hq. Qed.

Lemma fileAt_app (t : Tree) (p q : list string) (t' : Tree) :
  get t p = Some t' -> fileAt t (p ++ q) = fileAt t' q.
Proof. intros H. unfold fileAt. now rewrite get_app, H. Qed.

(** [mkdir -p] touches no file. *)
Lemma fileAt_mkdirs (q q' : list string) :
  forall t t', mkdirs t q = inr t' -> fileAt t' q' = fileAt t q'.
Proof.
  revert q'. induction q as [|s q IH]; intros q' t t' H.
  - destruct t; cbn in H; [discriminate|]. now injection H as <-.
  - destruct t as [b | entries]; cbn in H; [discriminate|].
    destruct (mkdirs (default (Folder ∅) (entries !! s)) q) as [e | t1] eqn:E;
      [discriminate|].
    injection H as <-. destruct q' as [|s' q']; [reflexivity|].
    unfold fileAt. cbn [get]. destruct (decide (s' = s)) as [->|Hne].
    + rewrite lookup_insert_eq. pose proof (IH q' _ _ E) as Hrec.
      unfold fileAt in Hrec. rewrite Hrec.
      destruct (entries !! s) as [t0|]; [reflexivity|]. cbn.
      destruct q'; [reflexivity|]. cbn. now rewrite lookup_empty.
    + now rewrite lookup_insert_ne by congruence.
Qed.

Lemma get_mkdirs (q : list string) :
  forall t t', mkdirs t q = inr t' -> exists entries, get t' q = Some (Folder entries).
Proof.
  induction q as [|s q IH]; intros t t' H.
  - destruct t as [b | entries]; cbn in H; [discriminate|].
    injection H as <-. now exists entries.
  - destruct t as [b | entries]; cbn in H; [discriminate|].
    destruct (mkdirs (default (Folder ∅) (entries !! s)) q) as [e | t1] eqn:E;
      [discriminate|].
    injection H as <-. cbn [get]. rewrite lookup_insert_eq. now apply (IH _ _ E).
Qed.

(** A folder that is there is left as it is. *)
Lemma mkdirs_there (q : list string) :
  forall t entries, get t q = Some (Folder entries) -> mkdirs t q = inr t.
Proof.
  induction q as [|s q IH]; intros t entries H.
  - cbn in H. injection H as ->. reflexivity.
  - destruct t as [b | here]; cbn in H; [discriminate|].
    destruct (here !! s) as [t1|] eqn:E; [|discriminate].
    cbn. rewrite E. cbn. rewrite (IH _ _ H). now rewrite insert_id.
Qed.

(** What a write leaves: the file, and every other file as it was. *)
Lemma fileAt_writeAt (q q' : list string) (b : Buffer) :
  forall t t', writeAt t q b = inr t' ->
    fileAt t' q' = if decide (q' = q) then Some b else fileAt t q'.
Proof.
  revert q'. induction q as [|s q IH]; intros q' t t' H.
  - destruct t; discriminate.
  - destruct t as [b0 | entries]; [discriminate|]. cbn [writeAt] in H.
    destruct q as [|s2 q].
    + assert (t' = Folder (<[s := File b]> entries)) as ->.
      { destruct (entries !! s) as [[|]|]; congruence. }
      destruct q' as [|s' q'].
      * rewrite decide_False by discriminate. reflexivity.
      * unfold fileAt. cbn [get]. destruct (decide (s' = s)) as [->|Hne].
        -- rewrite lookup_insert_eq. destruct q' as [|s3 q'].
           ++ now rewrite decide_True.
           ++ rewrite decide_False by discriminate. cbn.
              destruct (entries !! s) as [[|]|] eqn:E; try reflexivity.
              discriminate.
        -- rewrite lookup_insert_ne by congruence.
           now rewrite decide_False by congruence.
    + destruct (entries !! s) as [t1|] eqn:E; [|discriminate].
      destruct (writeAt t1 (s2 :: q) b) as [e | t2] eqn:E2; [discriminate|].
      injection H as <-. destruct q' as [|s' q'].
      * rewrite decide_False by discriminate. reflexivity.
      * unfold fileAt. cbn [get]. destruct (decide (s' = s)) as [->|Hne].
        -- rewrite lookup_insert_eq, E. pose proof (IH q' _ _ E2) as Hrec.
           unfold fileAt in Hrec. rewrite Hrec.
           destruct (decide (q' = s2 :: q)) as [->|Hq].
           ++ now rewrite decide_True.
           ++ now rewrite decide_False by congruence.
        -- rewrite lookup_insert_ne by congruence.
           now rewrite decide_False by congruence.
Qed.

(** A write into a folder that is there, on a name that is no folder
    of it, succeeds. *)
Lemma writeAt_into (p : list string) (s : string) (b : Buffer) :
  forall t entries,
    get t p = Some (Folder entries) ->
    (forall inner, entries !! s <> Some (Folder inner)) ->
    exists t', writeAt t (p ++ [s]) b = inr t' /\
               get t' p = Some (Folder (<[s := File b]> entries)).
Proof.
  induction p as [|s0 p IH]; intros t entries Hp Hfree.
  - cbn in Hp. injection Hp as ->. cbn.
    destruct (entries !! s) as [[b0 | inner]|] eqn:E; eauto.
    now destruct (Hfree inner).
  - destruct t as [b0 | here]; cbn in Hp; [discriminate|].
    destruct (here !! s0) as [t1|] eqn:E; [|discriminate].
    destruct (IH _ _ Hp Hfree) as (t1' & Hw & Hg).
    exists (Folder (<[s0 := t1']> here)). split.
    + cbn [app writeAt]. destruct (p ++ [s]) eqn:Eapp.
      * destruct p; discriminate.
      * rewrite E, Hw. reflexivity.
    + cbn [get]. now rewrite lookup_insert_eq.
Qed.

(** Removing what is no folder removes one file at most. *)
Lemma fileAt_removeAt (q q' : list string) :
  forall t,
    q <> [] ->
    (forall inner, get t q <> Some (Folder inner)) ->
    fileAt (removeAt t q) q' = if decide (q' = q) then None else fileAt t q'.
Proof.
  revert q'. induction q as [|s q IH]; intros q' t Hq Hfree; [contradiction|].
  destruct t as [b0 | entries].
  - cbn. destruct q' as [|s' q']; [reflexivity|]. unfold fileAt. cbn.
    now destruct (decide (s' :: q' = s :: q)).
  - cbn [removeAt]. destruct q as [|s2 q].
    + destruct q' as [|s' q'].
      * rewrite decide_False by discriminate. reflexivity.
      * unfold fileAt. cbn [get]. destruct (decide (s' = s)) as [->|Hne].
        -- rewrite lookup_delete_eq. destruct q' as [|s3 q'].
           ++ now rewrite decide_True.
           ++ rewrite decide_False by discriminate.
              destruct (entries !! s) as [[b1 | inner]|] eqn:E; try reflexivity.
              exfalso. apply (Hfree inner). cbn. now rewrite E.
        -- rewrite lookup_delete_ne by congruence.
           now rewrite decide_False by congruence.
    + destruct (entries !! s) as [t1|] eqn:E.
      * destruct q' as [|s' q'].
        -- rewrite decide_False by discriminate. reflexivity.
        -- unfold fileAt. cbn [get]. destruct (decide (s' = s)) as [->|Hne].
           ++ rewrite lookup_insert_eq, E.
              assert (Hfree1 : forall inner, get t1 (s2 :: q) <> Some (Folder inner)).
              { intros inner H. apply (Hfree inner). cbn [get]. now rewrite E. }
              pose proof (IH q' t1 ltac:(discriminate) Hfree1) as Hrec.
              unfold fileAt in Hrec.
              rewrite Hrec. destruct (decide (q' = s2 :: q)) as [->|Hq'].
              ** now rewrite decide_True.
              ** now rewrite decide_False by congruence.
           ++ rewrite lookup_insert_ne by congruence.
              now rewrite decide_False by congruence.
      * destruct (decide (q' = s :: s2 :: q)) as [->|Hq']; [|reflexivity].
        unfold fileAt. cbn [get]. now rewrite E.
Qed.

Lemma fileAt_place_new (q q' : list string) (b : Buffer) :
  fileAt (place (Folder ∅) q (File b)) q' = if decide (q' = q) then Some b else None.
Proof.
  revert q'. induction q as [|s q IH]; intros q'.
  - cbn. destruct q'; [now rewrite decide_True | now rewrite decide_False].
  - cbn [place]. rewrite lookup_empty. cbn [default].
    destruct q' as [|s' q'].
    + rewrite decide_False by discriminate. reflexivity.
    + unfold fileAt. cbn [get]. destruct (decide (s' = s)) as [->|Hne].
      * rewrite lookup_insert_eq. pose proof (IH q') as Hrec.
        unfold fileAt in Hrec. rewrite Hrec.
        destruct (decide (q' = q)) as [->|Hq'].
        -- now rewrite decide_True.
        -- now rewrite decide_False by congruence.
      * rewrite lookup_insert_ne by congruence. rewrite lookup_empty.
        now rewrite decide_False by congruence.
Qed.

(** Putting a file at a place where no folder is, no file being on
    the way. *)
Lemma fileAt_place (q q' : list string) (b : Buffer) :
  forall t,
    q <> [] ->
    (forall n b0, (n < length q)%nat -> get t (take n q) <> Some (File b0)) ->
    (forall inner, get t q <> Some (Folder inner)) ->
    fileAt (place t q (File b)) q' = if decide (q' = q) then Some b else fileAt t q'.
Proof.
  revert q'. induction q as [|s q IH]; intros q' t Hq Hway Hfree; [contradiction|].
  destruct t as [b0 | entries].
  { exfalso. apply (Hway 0%nat b0); [cbn; lia | reflexivity]. }
  cbn [place]. destruct q' as [|s' q'].
  { rewrite decide_False by discriminate. reflexivity. }
  unfold fileAt. cbn [get]. destruct (decide (s' = s)) as [->|Hne].
  2:{ rewrite lookup_insert_ne by congruence. now rewrite decide_False by congruence. }
  rewrite lookup_insert_eq. destruct (entries !! s) as [t1|] eqn:E;
    cbn [default from_option id].
  - destruct q as [|s2 q].
    + cbn [place]. destruct q' as [|s3 q'].
      * now rewrite decide_True.
      * rewrite decide_False by discriminate. cbn.
        destruct t1 as [b1 | inner]; [reflexivity|].
        exfalso. apply (Hfree inner). cbn. now rewrite E.
    + assert (Hway1 : forall n b0, (n < length (s2 :: q))%nat ->
                get t1 (take n (s2 :: q)) <> Some (File b0)).
      { intros n b0 Hn H. apply (Hway (S n) b0); [cbn in *; lia|].
        cbn [take get]. now rewrite E. }
      assert (Hfree1 : forall inner, get t1 (s2 :: q) <> Some (Folder inner)).
      { intros inner H. apply (Hfree inner). cbn [get]. now rewrite E. }
      pose proof (IH q' t1 ltac:(discriminate) Hway1 Hfree1) as Hrec.
      unfold fileAt in Hrec. rewrite Hrec.
      destruct (decide (q' = s2 :: q)) as [->|Hq'].
      * now rewrite decide_True.
      * now rewrite decide_False by congruence.
  - pose proof (fileAt_place_new q q' b) as Hnew. unfold fileAt in Hnew.
    rewrite Hnew. destruct (decide (q' = q)) as [->|Hq'].
    + now rewrite decide_True.
    + now rewrite decide_False by congruence.
Qed.

Lemma get_place (q : list string) (new : Tree) :
  forall t, get (place t q new) q = Some new.
Proof.
  induction q as [|s q IH]; intros t; [reflexivity|].
  cbn [place get]. rewrite lookup_insert_eq. apply IH.
Qed.

(** *** Paths *)

Lemma includes_char_cons (c d : ascii) (s : string) :
  JsString.includes (String d s) (String c "")
  = Ascii.eqb c d || JsString.includes s (String c "").
Proof.
  cbn [JsString.includes String.prefix]. f_equal.
  destruct (ascii_dec c d) as [->|Hne].
  - rewrite Ascii.eqb_refl. now destruct s.
  - symmetry. now apply Ascii.eqb_neq.
Qed.

Lemma includes_char_app (c : ascii) (a b : string) :
  JsString.includes (a +:+ b) (String c "")
  = JsString.includes a (String c "") || JsString.includes b (String c "").
Proof.
  induction a as [|d a IH].
  - change ("" +:+ b) with b. reflexivity.
  - change (String d a +:+ b) with (String d (a +:+ b)).
    rewrite !includes_char_cons, IH. now rewrite orb_assoc.
Qed.

Lemma flatName_app (a b : string) :
  flatName (a +:+ b) = flatName a && flatName b.
Proof.
  unfold flatName, nul. rewrite !includes_char_app, !negb_orb.
  destruct (JsString.includes a "/"), (JsString.includes b "/"),
    (JsString.includes a _), (JsString.includes b _); reflexivity.
Qed.

Lemma split_flat (s : string) :
  JsString.includes s "/" = false -> JsString.split "/" s = [s].
Proof.
  induction s as [|d s IH]; intros H; [reflexivity|].
  rewrite includes_char_cons in H. apply orb_false_iff in H as [Hd Hs].
  cbn [JsString.split]. rewrite Ascii.eqb_sym, Hd. now rewrite (IH Hs).
Qed.

Lemma normalize_entry (base : list string) (name : string) :
  name <> "" -> name <> "." -> name <> ".." ->
  normalize base [name] = base ++ [name].
Proof.
  intros H0 H1 H2. cbn.
  destruct (String.eqb_spec name ""); [contradiction|].
  destruct (String.eqb_spec name "."); [contradiction|].
  destruct (String.eqb_spec name ".."); [contradiction|]. reflexivity.
Qed.

Lemma plainName_inv (name : string) :
  plainName name = true ->
  JsString.includes name "/" = false /\ JsString.includes name nul = false /\
  name <> "" /\ name <> "." /\ name <> "..".
Proof.
  unfold plainName, flatName. rewrite !andb_true_iff, !negb_true_iff.
  intros ((((H1 & H2) & H3) & H4) & H5).
  repeat split; try assumption; intros ->; discriminate.
Qed.

(** The path of an entry of one of the three folders. *)
Lemma resolve_plain (fs : FileSystem) (d : Dir) (name : string) :
  plainName name = true -> resolve fs (d, name) = Some (dirPath fs d ++ [name]).
Proof.
  intros H. apply plainName_inv in H as (Hsep & Hnul & H0 & H1 & H2).
  unfold resolve. cbn [fst snd]. rewrite Hnul, (split_flat _ Hsep).
  now rewrite normalize_entry.
Qed.

Lemma resolve_plain_inj (fs : FileSystem) (d d' : Dir) (name name' : string) :
  plainName name = true -> plainName name' = true ->
  resolve fs (d, name) = resolve fs (d', name') -> d = d' /\ name = name'.
Proof.
  intros H H'. rewrite !resolve_plain by assumption. intros [= E].
  unfold dirPath in E. rewrite <- !app_assoc in E. apply app_inv_head in E.
  destruct d, d'; cbn in E; try discriminate; injection E; auto.
Qed.

Lemma endsWith_png_plain (name : string) :
  flatName name = true -> JsString.endsWith name ".png" = true -> plainName name = true.
Proof.
  intros Hflat Hpng. unfold plainName. rewrite Hflat. cbn [andb].
  apply JsStringFacts.endsWith_inv in Hpng as [t ->].
  assert (Hlen : (4 <= String.length (t +:+ ".png"))%nat)
    by (rewrite JsStringFacts.length_app; simpl; lia).
  repeat match goal with
         | |- context [String.eqb ?a ?b] =>
             destruct (String.eqb_spec a b) as [E|_];
             [rewrite E in Hlen; simpl in Hlen; lia|]
         end.
  reflexivity.
Qed.

(** *** Below a folder *)

Lemma mkdirs_through (p q : list string) :
  forall t t0, get t p = Some t0 ->
    mkdirs t (p ++ q) =
    match mkdirs t0 q with inr t0' => inr (place t p t0') | inl e => inl e end.
Proof.
  induction p as [|s p IH]; intros t t0 H.
  - cbn in H. injection H as ->. cbn [app place]. now destruct (mkdirs t0 q).
  - destruct t as [b | here]; cbn in H; [discriminate|].
    destruct (here !! s) as [t1|] eqn:E; [|discriminate].
    cbn [app mkdirs place]. rewrite E. cbn [default from_option id].
    rewrite (IH _ _ H). now destruct (mkdirs t0 q).
Qed.

Lemma writeAt_through (p q : list string) (b : Buffer) :
  forall t entries, get t p = Some (Folder entries) ->
    writeAt t (p ++ q) b =
    match writeAt (Folder entries) q b with
    | inr t0' => inr (place t p t0')
    | inl e => inl e
    end.
Proof.
  induction p as [|s p IH]; intros t entries H.
  - cbn in H. injection H as ->. cbn [app place].
    now destruct (writeAt (Folder entries) q b).
  - destruct t as [b0 | here]; cbn in H; [discriminate|].
    destruct (here !! s) as [t1|] eqn:E; [|discriminate].
    cbn [app writeAt place]. rewrite E. cbn [default from_option id].
    specialize (IH _ _ H). destruct (p ++ q) as [|s2 rest] eqn:Epq.
    + apply app_eq_nil in Epq as [-> ->]. cbn in H. injection H as ->. reflexivity.
    + rewrite IH. now destruct (writeAt (Folder entries) q b).
Qed.

Lemma removeAt_through (p q : list string) :
  forall t t0, get t p = Some t0 -> q <> [] ->
    removeAt t (p ++ q) = place t p (removeAt t0 q).
Proof.
  induction p as [|s p IH]; intros t t0 H Hq.
  - cbn in H. now injection H as ->.
  - destruct t as [b0 | here]; cbn in H; [discriminate|].
    destruct (here !! s) as [t1|] eqn:E; [|discriminate].
    cbn [app removeAt place]. rewrite E. cbn [default from_option id].
    destruct (p ++ q) as [|s2 rest] eqn:Epq.
    + apply app_eq_nil in Epq as [_ ->]. contradiction.
    + now rewrite <- (IH _ _ H Hq).
Qed.

Lemma place_through (p q : list string) (new : Tree) :
  forall t t0, get t p = Some t0 -> place t (p ++ q) new = place t p (place t0 q new).
Proof.
  induction p as [|s p IH]; intros t t0 H.
  - cbn in H. now injection H as ->.
  - destruct t as [b0 | here]; cbn in H; [discriminate|].
    destruct (here !! s) as [t1|] eqn:E; [|discriminate].
    cbn [app place]. rewrite E. cbn [default from_option id].
    now rewrite (IH _ _ H).
Qed.

Lemma place_place (p : list string) (a b : Tree) :
  forall t, place (place t p a) p b = place t p b.
Proof.
  induction p as [|s p IH]; intros t; [reflexivity|].
  cbn [place]. rewrite lookup_insert_eq. cbn [default from_option id].
  now rewrite IH, insert_insert_eq.
Qed.

Lemma place_same (p : list string) :
  forall t t0, get t p = Some t0 -> place t p t0 = t.
Proof.
  induction p as [|s p IH]; intros t t0 H.
  - cbn in H. now injection H as ->.
  - destruct t as [b0 | here]; cbn in H; [discriminate|].
    destruct (here !! s) as [t1|] eqn:E; [|discriminate].
    cbn [place]. rewrite E. cbn [default from_option id].
    rewrite (IH _ _ H). now rewrite insert_id.
Qed.


(** Folders stay where they are. *)
Lemma mkdirs_keeps_folders (q : list string) :
  forall q' t t' e,
    mkdirs t q = inr t' -> get t q' = Some (Folder e) ->
    exists e', get t' q' = Some (Folder e').
Proof.
  induction q as [|s q IH]; intros q' t t' e H Hq'.
  - destruct t; cbn in H; [discriminate|]. injection H as <-. eauto.
  - destruct t as [b | here]; cbn in H; [discriminate|].
    destruct (mkdirs (default (Folder ∅) (here !! s)) q) as [e0 | t1] eqn:E;
      [discriminate|].
    injection H as <-. destruct q' as [|s' q']; [cbn; eauto|].
    cbn [get] in *. destruct (decide (s' = s)) as [->|Hne].
    + rewrite lookup_insert_eq. destruct (here !! s) as [t0|]; [|discriminate].
      now apply (IH q' _ _ e E).
    + rewrite lookup_insert_ne by congruence. eauto.
Qed.

Lemma writeAt_keeps_folders (q : list string) (b : Buffer) :
  forall q' t t' e,
    writeAt t q b = inr t' -> get t q' = Some (Folder e) ->
    exists e', get t' q' = Some (Folder e').
Proof.
  induction q as [|s q IH]; intros q' t t' e H Hq'.
  - destruct t; discriminate.
  - destruct t as [b0 | here]; [discriminate|]. cbn [writeAt] in H.
    destruct q' as [|s' q']; [destruct q; repeat case_match; simplify_eq; cbn; eauto|].
    cbn [get] in Hq'. destruct q as [|s2 q].
    + assert (t' = Folder (<[s := File b]> here)) as ->
        by (destruct (here !! s) as [[|]|]; congruence).
      cbn [get]. destruct (decide (s' = s)) as [->|Hne].
      * destruct (here !! s) as [[|inner]|] eqn:E; try discriminate.
        -- destruct q'; discriminate.
      * rewrite lookup_insert_ne by congruence. eauto.
    + destruct (here !! s) as [t1|] eqn:E; [|discriminate].
      destruct (writeAt t1 (s2 :: q) b) as [e0 | t2] eqn:E2; [discriminate|].
      injection H as <-. cbn [get]. destruct (decide (s' = s)) as [->|Hne].
      * rewrite lookup_insert_eq. rewrite E in Hq'. now apply (IH q' _ _ e E2).
      * rewrite lookup_insert_ne by congruence. eauto.
Qed.

Lemma removeAt_keeps_folders (q : list string) :
  forall q' t e,
    q <> [] ->
    (forall inner, get t q <> Some (Folder inner)) ->
    get t q' = Some (Folder e) ->
    exists e', get (removeAt t q) q' = Some (Folder e').
Proof.
  induction q as [|s q IH]; intros q' t e Hq Hfree Hq'; [contradiction|].
  destruct t as [b0 | here]; [cbn; eauto|]. cbn [removeAt].
  destruct q' as [|s' q']; [destruct q; repeat case_match; cbn; eauto|].
  cbn [get] in Hq'. destruct q as [|s2 q].
  - cbn [get]. destruct (decide (s' = s)) as [->|Hne].
    + exfalso. destruct (here !! s) as [t1|] eqn:E; [|discriminate].
      destruct t1 as [b1 | inner].
      * destruct q'; discriminate.
      * apply (Hfree inner). cbn. now rewrite E.
    + rewrite lookup_delete_ne by congruence. eauto.
  - destruct (here !! s) as [t1|] eqn:E; [|cbn [get]; eauto].
    cbn [get]. destruct (decide (s' = s)) as [->|Hne].
    + rewrite lookup_insert_eq. rewrite E in Hq'.
      apply (IH q' t1 e); [discriminate | | exact Hq'].
      intros inner H. apply (Hfree inner). cbn [get]. now rewrite E.
    + rewrite lookup_insert_ne by congruence. eauto.
Qed.

(** [mkdir -p q] leaves what is off the way to [q] as it is. *)
Lemma get_mkdirs_off (q : list string) :
  forall q' t t',
    mkdirs t q = inr t' -> ~ q' `prefix_of` q -> get t' q' = get t q'.
Proof.
  induction q as [|s q IH]; intros q' t t' H Hoff.
  - destruct t; cbn in H; [discriminate|]. now injection H as <-.
  - destruct t as [b | here]; cbn in H; [discriminate|].
    destruct (mkdirs (default (Folder ∅) (here !! s)) q) as [e0 | t1] eqn:E;
      [discriminate|].
    injection H as <-. destruct q' as [|s' q'].
    { destruct Hoff. apply prefix_nil. }
    cbn [get]. destruct (decide (s' = s)) as [->|Hne].
    + rewrite lookup_insert_eq.
      assert (Hoff' : ~ q' `prefix_of` q).
      { intros Hp. apply Hoff. now apply prefix_cons. }
      rewrite (IH q' _ _ E Hoff').
      destruct (here !! s) as [t0|]; [reflexivity|]. cbn.
      destruct q' as [|s2 q']; [destruct Hoff'; apply prefix_nil|].
      cbn. now rewrite lookup_empty.
    + now rewrite lookup_insert_ne by congruence.
Qed.

(** *** The tidy disk *)

Lemma tidy_inv (fs : FileSystem) :
  tidy fs -> exists here, get (root fs) (cwd fs) = Some (Folder here) /\ shelves here.
Proof.
  unfold tidy. destruct (get _ _) as [[|here]|]; try contradiction. eauto.
Qed.

Lemma tidy_placed (fs : FileSystem) (here' : gmap string Tree) :
  shelves here' -> tidy (withRoot fs (place (root fs) (cwd fs) (Folder here'))).
Proof. intros H. unfold tidy. cbn [root cwd withRoot]. now rewrite get_place. Qed.

Lemma get_local (fs : FileSystem) (here : gmap string Tree) (q : list string) :
  get (root fs) (cwd fs) = Some (Folder here) ->
  get (root fs) (cwd fs ++ q) = get (Folder here) q.
Proof. intros H. now rewrite get_app, H. Qed.

Lemma fileName_inv (d : Dir) (name : string) :
  fileName d name = true ->
  plainName name = true /\
  (d = Screenshots ->
   String.eqb name "baseline" = false /\ String.eqb name "actual" = false).
Proof.
  unfold fileName. intros H. apply andb_true_iff in H as [Hplain Hd].
  split; [exact Hplain|]. intros ->.
  apply andb_true_iff in Hd as [H1 H2]. now apply negb_true_iff in H1, H2.
Qed.

Lemma fileName_png (d : Dir) (name : string) :
  flatName name = true -> JsString.endsWith name ".png" = true -> fileName d name = true.
Proof.
  intros Hflat Hpng. unfold fileName.
  rewrite (endsWith_png_plain _ Hflat Hpng). cbn [andb].
  destruct d; [|reflexivity..].
  destruct (String.eqb_spec name "baseline") as [->|_]; [discriminate|].
  destruct (String.eqb_spec name "actual") as [->|_]; [discriminate|]. reflexivity.
Qed.

Lemma shelf_file (name : string) (b : Buffer) :
  fileName Screenshots name = true -> shelf name (File b).
Proof.
  intros H. apply fileName_inv in H as [Hplain Hd].
  destruct (Hd eq_refl) as [H1 H2]. unfold shelf. now rewrite H1, H2.
Qed.

Lemma shelf_folder (name : string) (inner : gmap string Tree) :
  fileName Screenshots name = true -> ~ shelf name (Folder inner).
Proof.
  intros H. apply fileName_inv in H as [Hplain Hd].
  destruct (Hd eq_refl) as [H1 H2]. unfold shelf. rewrite H1, H2.
  cbn. intros [_ ?]. discriminate.
Qed.

Lemma flatFolder_lookup (d inner : gmap string Tree) (name : string) :
  flatFolder (Folder d) -> d !! name <> Some (Folder inner).
Proof. intros H E. apply (H _ _) in E as [_ E]. discriminate. Qed.

(** What is in the folder [d] of a tidy disk. *)
Lemma shelves_dir (here e : gmap string Tree) (d : Dir) :
  shelves here ->
  get (Folder here) (dirSegments d) = Some (Folder e) ->
  match d with
  | Screenshots => map_Forall shelf e
  | _ => flatFolder (Folder e)
  end.
Proof.
  unfold shelves. intros Hs Hd.
  destruct d; cbn in Hd;
    destruct (here !! "screenshots") as [[|entries]|]; try discriminate.
  - now injection Hd as <-.
  - destruct (entries !! "baseline") as [t|] eqn:E; [|discriminate].
    injection Hd as ->. now destruct (Hs _ _ E) as [_ Hflat].
  - destruct (entries !! "actual") as [t|] eqn:E; [|discriminate].
    injection Hd as ->. now destruct (Hs _ _ E) as [_ Hflat].
Qed.

Lemma shelves_entry (here inner : gmap string Tree) (d : Dir) (name : string) :
  shelves here -> fileName d name = true ->
  get (Folder here) (dirSegments d ++ [name]) <> Some (Folder inner).
Proof.
  intros Hs Hname H. rewrite get_app in H.
  destruct (get (Folder here) (dirSegments d)) as [[|e]|] eqn:Hd; try discriminate.
  pose proof (shelves_dir _ _ _ Hs Hd) as He. cbn in H.
  destruct (e !! name) as [t|] eqn:E; [|discriminate]. injection H as ->.
  destruct d.
  - now apply (shelf_folder name inner Hname), He.
  - now apply (flatFolder_lookup e inner name).
  - now apply (flatFolder_lookup e inner name).
Qed.

Lemma tidy_entry (fs : FileSystem) (d : Dir) (name : string) (inner : gmap string Tree) :
  tidy fs -> fileName d name = true ->
  get (root fs) (location fs d name) <> Some (Folder inner).
Proof.
  intros Htidy Hname. apply tidy_inv in Htidy as (here & Hhere & Hs).
  unfold location, dirPath. rewrite <- app_assoc, (get_local _ _ _ Hhere).
  now apply shelves_entry.
Qed.

Lemma resolve_file (fs : FileSystem) (d : Dir) (name : string) :
  fileName d name = true -> resolve fs (d, name) = Some (location fs d name).
Proof. intros H. apply fileName_inv in H as [H _]. now apply resolve_plain. Qed.

Lemma lookupFile_file (fs : FileSystem) (d : Dir) (name : string) :
  fileName d name = true ->
  lookupFile fs (d, name) = fileAt (root fs) (location fs d name).
Proof.
  intros H. unfold lookupFile, nodeAt. now rewrite (resolve_file _ _ _ H).
Qed.

Lemma lookupFile_fileAt (fs : FileSystem) (p : Path) :
  lookupFile fs p = resolve fs p ≫= fileAt (root fs).
Proof. unfold lookupFile, nodeAt. now destruct (resolve fs p). Qed.

(** On a tidy disk, what is at the name of a file is a file. *)
Lemma pathExists_tidy (fs : FileSystem) (d : Dir) (name : string) :
  tidy fs -> fileName d name = true ->
  pathExists fs (d, name) = bool_decide (is_Some (lookupFile fs (d, name))).
Proof.
  intros Htidy Hname. unfold pathExists, lookupFile, nodeAt.
  rewrite (resolve_file _ _ _ Hname). cbn.
  pose proof (fun inner => tidy_entry fs d name inner Htidy Hname) as Hfree.
  destruct (get (root fs) (location fs d name)) as [[b | inner]|].
  - rewrite !bool_decide_true; eauto.
  - now destruct (Hfree inner).
  - rewrite !bool_decide_false; [reflexivity | |]; intros [? ?]; discriminate.
Qed.

Lemma readFile_found (fs : FileSystem) (p : Path) (b : Buffer) :
  lookupFile fs p = Some b -> readFile fs p = Normal b.
Proof.
  unfold lookupFile, nodeAt, readFile. destruct (resolve fs p) as [q|]; cbn;
    [|discriminate].
  destruct (get (root fs) q) as [[|]|]; congruence.
Qed.

(** [mkdir -p] of one of the three folders, seen from the working
    directory. *)
Lemma mkdirs_shelves (here : gmap string Tree) (d : Dir) :
  shelves here ->
  exists here', mkdirs (Folder here) (dirSegments d) = inr (Folder here') /\
                shelves here'.
Proof.
  unfold shelves. intros Hs.
  destruct (here !! "screenshots") as [[|entries]|] eqn:E; [contradiction| |].
  - destruct d; cbn [dirSegments mkdirs]; rewrite E; cbn [default from_option id].
    + eexists. split; [reflexivity|]. now rewrite lookup_insert_eq.
    + destruct (entries !! "baseline") as [t|] eqn:Eb; cbn [default from_option id].
      * destruct (Hs _ _ Eb) as [_ Hflat]. destruct t as [|base]; [contradiction|].
        cbn [mkdirs]. eexists. split; [reflexivity|].
        rewrite lookup_insert_eq. now rewrite insert_id.
      * cbn [mkdirs]. eexists. split; [reflexivity|]. rewrite lookup_insert_eq.
        apply map_Forall_insert_2; [|exact Hs].
        split; [reflexivity|]. cbn. apply map_Forall_empty.
    + destruct (entries !! "actual") as [t|] eqn:Eb; cbn [default from_option id].
      * destruct (Hs _ _ Eb) as [_ Hflat]. destruct t as [|act]; [contradiction|].
        cbn [mkdirs]. eexists. split; [reflexivity|].
        rewrite lookup_insert_eq. now rewrite insert_id.
      * cbn [mkdirs]. eexists. split; [reflexivity|]. rewrite lookup_insert_eq.
        apply map_Forall_insert_2; [|exact Hs].
        split; [reflexivity|]. cbn. apply map_Forall_empty.
  - destruct d; cbn [dirSegments mkdirs]; rewrite E; cbn [default from_option id];
      rewrite ?lookup_empty; cbn [default from_option id mkdirs];
      (eexists; split; [reflexivity|]); rewrite lookup_insert_eq.
    + apply map_Forall_empty.
    + apply map_Forall_insert_2; [|apply map_Forall_empty].
      split; [reflexivity|]. cbn. apply map_Forall_empty.
    + apply map_Forall_insert_2; [|apply map_Forall_empty].
      split; [reflexivity|]. cbn. apply map_Forall_empty.
Qed.

(** A write of a file into one of the three folders. *)
Lemma writeAt_shelves (here e : gmap string Tree) (d : Dir) (name : string) (b : Buffer) :
  shelves here ->
  get (Folder here) (dirSegments d) = Some (Folder e) ->
  fileName d name = true ->
  exists here', writeAt (Folder here) (dirSegments d ++ [name]) b = inr (Folder here') /\
                shelves here'.
Proof.
  intros Hs Hd Hname. pose proof (shelves_dir _ _ _ Hs Hd) as He.
  pose proof (fun inner => shelves_entry here inner d name Hs Hname) as Hfree.
  pose proof Hname as Hname'. apply fileName_inv in Hname' as [Hplain _].
  unfold shelves in *.
  destruct (here !! "screenshots") as [[|entries]|] eqn:E;
    [contradiction | | destruct d; cbn in Hd; rewrite E in Hd; discriminate].
  destruct d; cbn in Hd; rewrite E in Hd.
  - injection Hd as <-. cbn [dirSegments app writeAt]. rewrite E. cbn [writeAt].
    destruct (entries !! name) as [[b0 | inner]|] eqn:En.
    + eexists. split; [reflexivity|]. rewrite lookup_insert_eq.
      apply map_Forall_insert_2; [now apply shelf_file | exact Hs].
    + exfalso. apply (Hfree inner). cbn. now rewrite E, En.
    + eexists. split; [reflexivity|]. rewrite lookup_insert_eq.
      apply map_Forall_insert_2; [now apply shelf_file | exact Hs].
  - destruct (entries !! "baseline") as [t|] eqn:Eb; [|discriminate].
    injection Hd as ->. cbn [dirSegments app writeAt]. rewrite E, Eb. cbn [writeAt].
    assert (Hw : exists base', match e !! name with
                               | Some (Folder _) => inl EISDIR
                               | _ => inr (Folder (<[name := File b]> e))
                               end = inr (Folder base') /\ flatFolder (Folder base')).
    { destruct (e !! name) as [[b0 | inner]|] eqn:En.
      - eexists. split; [reflexivity|]. now apply map_Forall_insert_2.
      - exfalso. apply (Hfree inner). cbn. now rewrite E, Eb, En.
      - eexists. split; [reflexivity|]. now apply map_Forall_insert_2. }
    destruct Hw as (base' & -> & Hflat). eexists. split; [reflexivity|].
    rewrite lookup_insert_eq. apply map_Forall_insert_2; [|exact Hs].
    split; [reflexivity | exact Hflat].
  - destruct (entries !! "actual") as [t|] eqn:Eb; [|discriminate].
    injection Hd as ->. cbn [dirSegments app writeAt]. rewrite E, Eb. cbn [writeAt].
    assert (Hw : exists act', match e !! name with
                              | Some (Folder _) => inl EISDIR
                              | _ => inr (Folder (<[name := File b]> e))
                              end = inr (Folder act') /\ flatFolder (Folder act')).
    { destruct (e !! name) as [[b0 | inner]|] eqn:En.
      - eexists. split; [reflexivity|]. now apply map_Forall_insert_2.
      - exfalso. apply (Hfree inner). cbn. now rewrite E, Eb, En.
      - eexists. split; [reflexivity|]. now apply map_Forall_insert_2. }
    destruct Hw as (act' & -> & Hflat). eexists. split; [reflexivity|].
    rewrite lookup_insert_eq. apply map_Forall_insert_2; [|exact Hs].
    split; [reflexivity | exact Hflat].
Qed.

(** The removal of a file of one of the three folders. *)
Lemma removeAt_shelves (here : gmap string Tree) (d : Dir) (name : string) :
  shelves here -> fileName d name = true ->
  exists here', removeAt (Folder here) (dirSegments d ++ [name]) = Folder here' /\
                shelves here'.
Proof.
  intros Hs Hname. unfold shelves in *.
  destruct (here !! "screenshots") as [[|entries]|] eqn:E; [contradiction| |].
  2:{ exists here. split; [|now rewrite E].
      destruct d; cbn [dirSegments app removeAt]; now rewrite E. }
  destruct d; cbn [dirSegments app removeAt]; rewrite E; cbn [removeAt].
  - eexists. split; [reflexivity|]. rewrite lookup_insert_eq.
    now apply map_Forall_delete.
  - destruct (entries !! "baseline") as [t|] eqn:Eb.
    + destruct (Hs _ _ Eb) as [_ Hflat]. destruct t as [|base]; [contradiction|].
      cbn [removeAt]. eexists. split; [reflexivity|]. rewrite lookup_insert_eq.
      apply map_Forall_insert_2; [|exact Hs].
      split; [reflexivity|]. cbn. now apply map_Forall_delete.
    + eexists. split; [reflexivity|]. now rewrite lookup_insert_eq.
  - destruct (entries !! "actual") as [t|] eqn:Eb.
    + destruct (Hs _ _ Eb) as [_ Hflat]. destruct t as [|act]; [contradiction|].
      cbn [removeAt]. eexists. split; [reflexivity|]. rewrite lookup_insert_eq.
      apply map_Forall_insert_2; [|exact Hs].
      split; [reflexivity|]. cbn. now apply map_Forall_delete.
    + eexists. split; [reflexivity|]. now rewrite lookup_insert_eq.
Qed.

(** *** Names of files *)

Lemma append_assoc (a b c : string) : (a +:+ b) +:+ c = a +:+ (b +:+ c).
Proof.
  induction a as [|x a IH]; [reflexivity|].
  change (String x a +:+ b) with (String x (a +:+ b)).
  change (String x (a +:+ b) +:+ c) with (String x ((a +:+ b) +:+ c)).
  now rewrite IH.
Qed.

Lemma flatName_cons (c : ascii) (s : string) :
  flatName (String c s) =
  negb (Ascii.eqb "/" c) && negb (Ascii.eqb (ascii_of_nat 0) c) && flatName s.
Proof.
  unfold flatName, nul. rewrite !includes_char_cons, !negb_orb.
  destruct (Ascii.eqb "/" c), (Ascii.eqb _ c), (JsString.includes s "/");
    reflexivity.
Qed.

Lemma flatName_pretty_go (x : N) :
  forall s, flatName s = true -> flatName (pretty_N_go x s) = true.
Proof.
  induction (N.lt_wf_0 x) as [x _ IH]. intros s Hs.
  destruct (N.eq_dec x 0%N) as [-> | Hx]; [now rewrite pretty_N_go_0|].
  rewrite pretty_N_go_step by lia.
  apply IH; [apply N.div_lt; lia|].
  rewrite flatName_cons, Hs, andb_true_r.
  unfold pretty_N_char. repeat case_match; reflexivity.
Qed.

(** A number in decimal notation has no separator in it. *)
Lemma flatName_pretty (z : Z) : flatName (pretty z) = true.
Proof.
  destruct z as [|p|p]; [reflexivity | |].
  - now apply flatName_pretty_go.
  - change (pretty (Z.neg p)) with ("-" +:+ pretty_N_go (N.pos p) "").
    rewrite flatName_app. now rewrite flatName_pretty_go.
Qed.

Lemma fileName_snapshotFile (d : Dir) (snapshotName : string) :
  flatName snapshotName = true -> fileName d (snapshotFile snapshotName) = true.
Proof.
  intros H. apply fileName_png; [|apply JsStringFacts.endsWith_app].
  unfold snapshotFile. now rewrite flatName_app, H.
Qed.

Lemma fileName_diffFile (d : Dir) (snapshotName : string) (now : Z) :
  flatName snapshotName = true -> fileName d (diffFile snapshotName now) = true.
Proof.
  intros H. unfold diffFile. apply fileName_png.
  - now rewrite !flatName_app, H, flatName_pretty.
  - rewrite <- !append_assoc. apply JsStringFacts.endsWith_app.
Qed.

Lemma fileName_failFile (d : Dir) (testId : string) (now : Z) :
  flatName testId = true -> fileName d (failFile testId now) = true.
Proof.
  intros H. unfold failFile. apply fileName_png.
  - now rewrite !flatName_app, H, flatName_pretty.
  - rewrite <- !append_assoc. apply JsStringFacts.endsWith_app.
Qed.

Lemma location_inj (fs : FileSystem) (d d' : Dir) (name name' : string) :
  location fs d name = location fs d' name' -> d = d' /\ name = name'.
Proof.
  intros E. unfold location, dirPath in E. rewrite <- !app_assoc in E.
  apply app_inv_head in E.
  destruct d, d'; cbn in E; try discriminate; injection E; auto.
Qed.

(** *** Calls on a tidy disk *)

Lemma isDir_up (fs : FileSystem) (d : Dir) : isDir fs d -> isDir fs Screenshots.
Proof.
  intros [e He]. unfold isDir, dirPath in *. destruct d; [eauto | |].
  all: cbn [dirSegments] in He;
    change ["screenshots"; ?x] with (["screenshots"] ++ [x]) in He;
    rewrite app_assoc, get_app in He; cbn [dirSegments];
    destruct (get (root fs) (cwd fs ++ ["screenshots"])) as [[|e0]|];
    try discriminate; eauto.
Qed.

Lemma ensureDir_tidy (fs : FileSystem) (d : Dir) :
  tidy fs ->
  exists fs',
    ensureDir fs d = (Normal tt, fs') /\ tidy fs' /\ isDir fs' d /\
    (forall d', isDir fs d' -> isDir fs' d') /\
    cwd fs' = cwd fs /\
    (forall q, fileAt (root fs') q = fileAt (root fs) q).
Proof.
  intros Htidy. apply tidy_inv in Htidy as (here & Hhere & Hs).
  destruct (mkdirs_shelves here d Hs) as (here' & Hmk & Hs').
  assert (Hglobal : mkdirs (root fs) (dirPath fs d)
                    = inr (place (root fs) (cwd fs) (Folder here'))).
  { unfold dirPath. now rewrite (mkdirs_through _ _ _ _ Hhere), Hmk. }
  unfold ensureDir. rewrite Hglobal. eexists. split; [reflexivity|].
  split; [now apply tidy_placed|].
  split; [exact (get_mkdirs _ _ _ Hglobal)|].
  split; [intros d' [e He]; exact (mkdirs_keeps_folders _ _ _ _ _ Hglobal He)|].
  split; [reflexivity|].
  intros q. exact (fileAt_mkdirs _ _ _ _ Hglobal).
Qed.

Lemma writeFile_tidy (fs : FileSystem) (d : Dir) (name : string) (b : Buffer) :
  tidy fs -> isDir fs d -> fileName d name = true ->
  exists fs',
    writeFile fs (d, name) b = (Normal tt, fs') /\ tidy fs' /\
    (forall d', isDir fs d' -> isDir fs' d') /\
    cwd fs' = cwd fs /\
    (forall q, fileAt (root fs') q =
               if decide (q = location fs d name) then Some b else fileAt (root fs) q).
Proof.
  intros Htidy [e He] Hname. apply tidy_inv in Htidy as (here & Hhere & Hs).
  unfold dirPath in He. rewrite (get_local _ _ _ Hhere) in He.
  destruct (writeAt_shelves here e d name b Hs He Hname) as (here' & Hw & Hs').
  assert (Hglobal : writeAt (root fs) (location fs d name) b
                    = inr (place (root fs) (cwd fs) (Folder here'))).
  { unfold location, dirPath. rewrite <- app_assoc.
    now rewrite (writeAt_through _ _ _ _ _ Hhere), Hw. }
  unfold writeFile. rewrite (resolve_file _ _ _ Hname), Hglobal.
  eexists. split; [reflexivity|].
  split; [now apply tidy_placed|].
  split; [intros d' [e' He']; exact (writeAt_keeps_folders _ _ _ _ _ _ Hglobal He')|].
  split; [reflexivity|].
  intros q. exact (fileAt_writeAt _ _ _ _ _ Hglobal).
Qed.

Lemma removeFile_tidy (fs : FileSystem) (d : Dir) (name : string) :
  tidy fs -> fileName d name = true ->
  tidy (removeFile fs (d, name)) /\
  (forall d', isDir fs d' -> isDir (removeFile fs (d, name)) d') /\
  cwd (removeFile fs (d, name)) = cwd fs /\
  (forall q, fileAt (root (removeFile fs (d, name))) q =
             if decide (q = location fs d name) then None else fileAt (root fs) q).
Proof.
  intros Htidy Hname.
  pose proof (fun inner => tidy_entry fs d name inner Htidy Hname) as Hfree.
  apply tidy_inv in Htidy as (here & Hhere & Hs).
  destruct (removeAt_shelves here d name Hs Hname) as (here' & Hrm & Hs').
  assert (Hne : location fs d name <> []) by (unfold location; now destruct (dirPath fs d)).
  assert (Hglobal : removeAt (root fs) (location fs d name)
                    = place (root fs) (cwd fs) (Folder here')).
  { unfold location, dirPath. rewrite <- app_assoc.
    rewrite (removeAt_through _ _ _ _ Hhere), Hrm; [reflexivity|].
    now destruct (dirSegments d). }
  unfold removeFile. rewrite (resolve_file _ _ _ Hname). cbn [root cwd withRoot].
  split; [rewrite Hglobal; now apply tidy_placed|].
  split; [intros d' [e' He']; unfold isDir; cbn [root cwd withRoot dirPath];
          exact (removeAt_keeps_folders _ _ _ _ Hne Hfree He')|].
  split; [reflexivity|].
  intros q. now apply fileAt_removeAt.
Qed.



(** The image of [page.screenshot({ path })] is at its path. *)
Lemma lookupFile_saveShot (fs : FileSystem) (p : Path) (b : Buffer) :
  is_Some (resolve fs p) -> lookupFile (saveShot fs p b) p = Some b.
Proof.
  intros [q Hq]. unfold lookupFile, nodeAt, saveShot. rewrite Hq.
  change (resolve (withRoot fs ?t) p) with (resolve fs p). rewrite Hq.
  cbn. now rewrite get_place.
Qed.

Lemma resolve_cwd (fs fs' : FileSystem) (p : Path) :
  cwd fs' = cwd fs -> resolve fs' p = resolve fs p.
Proof. intros E. unfold resolve, dirPath. now rewrite E. Qed.

Lemma location_cwd (fs fs' : FileSystem) (d : Dir) (name : string) :
  cwd fs' = cwd fs -> location fs' d name = location fs d name.
Proof. intros E. unfold location, dirPath. now rewrite E. Qed.

Lemma lookupFile_same (fs fs' : FileSystem) (p : Path) :
  cwd fs' = cwd fs ->
  (forall q, fileAt (root fs') q = fileAt (root fs) q) ->
  lookupFile fs' p = lookupFile fs p.
Proof.
  intros E H. rewrite !lookupFile_fileAt, (resolve_cwd _ _ _ E).
  destruct (resolve fs p) as [q|]; [apply H | reflexivity].
Qed.

Lemma ensureDir_keeps (fs fs' : FileSystem) (d : Dir) :
  ensureDir fs d = (Normal tt, fs') ->
  cwd fs' = cwd fs /\ isDir fs' d /\
  (forall d', isDir fs d' -> isDir fs' d') /\
  (forall q, fileAt (root fs') q = fileAt (root fs) q) /\
  (forall q, ~ q `prefix_of` dirPath fs d -> get (root fs') q = get (root fs) q).
Proof.
  unfold ensureDir. destruct (mkdirs (root fs) (dirPath fs d)) as [e | t] eqn:E;
    [discriminate|].
  intros [= <-]. split; [reflexivity|].
  split; [exact (get_mkdirs _ _ _ E)|].
  split; [intros d' [e He]; exact (mkdirs_keeps_folders _ _ _ _ _ E He)|].
  split; [intros q; exact (fileAt_mkdirs _ _ _ _ E)|].
  intros q Hoff. exact (get_mkdirs_off _ _ _ _ E Hoff).
Qed.

Lemma tidy_canPrepare (fs : FileSystem) : tidy fs -> canPrepare fs.
Proof.
  intros Htidy.
  destruct (ensureDir_tidy fs Baseline Htidy) as (fs1 & E1 & T1 & _).
  destruct (ensureDir_tidy fs1 Actual T1) as (fs2 & E2 & _).
  now exists fs1, fs2.
Qed.

Lemma pathExists_found (fs : FileSystem) (p : Path) (b : Buffer) :
  lookupFile fs p = Some b -> pathExists fs p = true.
Proof.
  unfold lookupFile, pathExists. intros H. apply bool_decide_eq_true.
  destruct (nodeAt fs p); [eauto | discriminate].
Qed.

Lemma location_not_dir (fs : FileSystem) (d d' : Dir) (name : string) :
  d <> Screenshots -> ~ location fs d name `prefix_of` dirPath fs d'.
Proof.
  intros Hd [k Hk]. unfold location, dirPath in Hk.
  rewrite <- !app_assoc in Hk. apply app_inv_head in Hk.
  destruct d, d'; try contradiction; cbn in Hk; discriminate.
Qed.

(** A write into a folder that is there, on a name where nothing is. *)
Lemma writeFile_new (fs : FileSystem) (d : Dir) (name : string) (b : Buffer) :
  isDir fs d -> plainName name = true -> pathExists fs (d, name) = false ->
  exists fs',
    writeFile fs (d, name) b = (Normal tt, fs') /\ cwd fs' = cwd fs /\
    (forall q, fileAt (root fs') q =
               if decide (q = location fs d name) then Some b else fileAt (root fs) q).
Proof.
  intros [e He] Hplain Hnone. unfold pathExists, nodeAt in Hnone.
  rewrite (resolve_plain _ _ _ Hplain) in Hnone. cbn in Hnone.
  apply bool_decide_eq_false in Hnone. rewrite get_app, He in Hnone. cbn in Hnone.
  destruct (writeAt_into (dirPath fs d) name b (root fs) e He) as (t' & Hw & _).
  { intros inner E. apply Hnone. rewrite E. eauto. }
  unfold writeFile. rewrite (resolve_plain _ _ _ Hplain), Hw.
  eexists. split; [reflexivity|]. split; [reflexivity|].
  intros q. exact (fileAt_writeAt _ _ _ _ _ Hw).
Qed.

Lemma lookupFile_plain (fs : FileSystem) (d : Dir) (name : string) :
  plainName name = true ->
  lookupFile fs (d, name) = fileAt (root fs) (location fs d name).
Proof.
  intros H. unfold lookupFile, nodeAt. now rewrite (resolve_plain _ _ _ H).
Qed.

Lemma plainName_snapshotFile (snapshotName : string) :
  flatName snapshotName = true -> plainName (snapshotFile snapshotName) = true.
Proof.
  intros H. now destruct (fileName_inv _ _ (fileName_snapshotFile Actual _ H)).
Qed.
(** ** The visual comparison step *)

Ltac world_simpl :=
  cbn [files sessions openContexts nextCtx reported trace ticks
       tick emit withFiles withSession addResult closeContext openContext
       fst snd].

Tactic Notation "world_simpl" "in" hyp(H) :=
  cbn [files sessions openContexts nextCtx reported trace ticks
       tick emit withFiles withSession addResult closeContext openContext
       fst snd] in H.

Ltac run_step :=
  first [ rewrite run_try | rewrite run_bind ];
  try rewrite run_call; cbn [handle run]; world_simpl.

Lemma truthy_nonempty (s : string) : s <> "" -> JsString.truthy (Some s) = true.
Proof.
  intros H. simpl. destruct (String.eqb_spec s ""); [contradiction | reflexivity].
Qed.

Lemma truthyValue_named (v : JsValue) : toText v <> "" -> truthyValue (Some v) = true.
Proof.
  intros H. rewrite truthyValue_text.
  destruct (String.eqb_spec (toText v) ""); [contradiction | reflexivity].
Qed.

Lemma snapshotFile_inj (a b : string) : snapshotFile a = snapshotFile b -> a = b.
Proof.
  unfold snapshotFile. revert b.
  induction a as [|x a IH]; intros [|y b] H.
  - reflexivity.
  - injection H as _ H. destruct b as [|? [|? [|? [|? ?]]]]; discriminate.
  - injection H as _ H. destruct a as [|? [|? [|? [|? ?]]]]; discriminate.
  - injection H as -> H. f_equal. now apply IH.
Qed.

Section CompareScreenshot.
Context (host : Host) (c : Ctx) (w : World).
Context (snapshotName : string) (v : JsValue) (rest : list JsValue).
Context (candidate : Buffer).
Hypothesis named : snapshotName <> "".
Hypothesis printed : toText v = snapshotName.
Hypothesis flat : flatName snapshotName = true.
Hypothesis captured : screenshotReply host (ticks w) c None = Normal candidate.
Hypothesis neat : tidy (files w).

Let baselinePath : Path := (Baseline, snapshotFile snapshotName).
Let actualPath : Path := (Actual, snapshotFile snapshotName).
Let baselineAt : list string := location (files w) Baseline (snapshotFile snapshotName).
Let actualAt : list string := location (files w) Actual (snapshotFile snapshotName).

(** The two folders are there once the step has asked for them. *)
Lemma prepared :
  exists fs,
    (ensureDir (files w) Baseline).1 = Normal tt /\
    (ensureDir (ensureDir (files w) Baseline).2 Actual) = (Normal tt, fs) /\
    tidy fs /\ isDir fs Baseline /\ isDir fs Actual /\ isDir fs Screenshots /\
    cwd fs = cwd (files w) /\
    (forall q, fileAt (root fs) q = fileAt (root (files w)) q).
Proof.
  destruct (ensureDir_tidy (files w) Baseline neat)
    as (fs1 & E1 & T1 & D1 & K1 & C1 & F1).
  destruct (ensureDir_tidy fs1 Actual T1) as (fs2 & E2 & T2 & D2 & K2 & C2 & F2).
  exists fs2. rewrite E1. cbn [fst snd]. split; [reflexivity|].
  split; [exact E2|]. split; [exact T2|]. split; [now apply K2|].
  split; [exact D2|]. split; [exact (isDir_up _ _ D2)|].
  split; [now rewrite C2|]. intros q. now rewrite F2.
Qed.

(** No baseline under the name: the capture becomes the baseline. *)
Lemma compareScreenshot_first_run :
  lookupFile (files w) baselinePath = None ->
  exists w',
    run host (compareScreenshot c (v :: rest)) w = (Normal tt, w') /\
    tidy (files w') /\ cwd (files w') = cwd (files w) /\
    (forall q, fileAt (root (files w')) q =
               if decide (q = baselineAt) then Some candidate
               else fileAt (root (files w)) q) /\
    trace w' = trace w ++ [EvShot c; EvLog (LogBaselineNotFound snapshotName)] /\
    sameRun w w'.
Proof.
  intros Hnone. unfold baselinePath in Hnone. unfold compareScreenshot.
  change ((v :: rest) !! 0%nat) with (Some v).
  rewrite truthyValue_named by (rewrite printed; exact named). cbn [negb].
  change (default "" (toText <$> Some v)) with (toText v). rewrite printed.
  destruct prepared as (fs & E1 & E2 & Htidy & Hbase & Hact & Hshots & Hcwd & Hfiles).
  pose proof (fileName_snapshotFile Baseline snapshotName flat) as Hname.
  destruct (writeFile_tidy fs Baseline (snapshotFile snapshotName) candidate
              Htidy Hbase Hname) as (fs' & Hw & Htidy' & _ & Hcwd' & Hfiles').
  run_step. rewrite captured. run_step.
  destruct (ensureDir (files w) Baseline) as [r1 fs1]. cbn [fst snd] in *. subst r1.
  run_step. rewrite E2. cbn [fst snd]. run_step.
  rewrite (pathExists_tidy _ _ _ Htidy Hname).
  rewrite (lookupFile_same _ _ _ Hcwd Hfiles). rewrite Hnone.
  rewrite bool_decide_false by (intros [? ?]; discriminate). cbn [negb].
  run_step. rewrite run_call. cbn [handle]. world_simpl. rewrite Hw. cbn [fst snd].
  eexists. split; [reflexivity|]. world_simpl.
  split; [exact Htidy'|]. split; [now rewrite Hcwd'|].
  split.
  { intros q. rewrite Hfiles', (location_cwd _ _ _ _ Hcwd). fold baselineAt.
    destruct (decide (q = baselineAt)); [reflexivity | apply Hfiles]. }
  split; [now rewrite <- !app_assoc|]. repeat split.
Qed.

Context (baseline : Buffer) (img1 img2 : PNG) (numDiffPixels : Z) (diff : list Z).
Hypothesis stored : lookupFile (files w) baselinePath = Some baseline.
Hypothesis decoded1 : PNG_sync_read baseline = Normal img1.
Hypothesis decoded2 : PNG_sync_read candidate = Normal img2.
Hypothesis counted :
  pixelmatch host (pixels img1) (pixels img2) (width img1) (height img1) threshold
  = Normal (numDiffPixels, diff).

Let diffAt : list string :=
  location (files w) Screenshots (diffFile snapshotName (clock host (6 + ticks w))).
Let diffImage : Buffer :=
  PNG_sync_write {| width := width img1; height := height img1; pixels := diff |}.

(** A baseline under the name, both images decoded, [pixelmatch]
    returned a count: the verdict and what is left on disk. *)
Lemma compareScreenshot_verdict :
  exists w',
    run host (compareScreenshot c (v :: rest)) w =
      (if 0 <? numDiffPixels then Thrown (regressionMessage numDiffPixels)
       else Normal tt, w') /\
    tidy (files w') /\ cwd (files w') = cwd (files w) /\
    (forall q, fileAt (root (files w')) q =
               if 0 <? numDiffPixels then
                 if decide (q = actualAt) then Some candidate
                 else if decide (q = diffAt) then Some diffImage
                 else fileAt (root (files w)) q
               else
                 if decide (q = actualAt) then None else fileAt (root (files w)) q) /\
    trace w' = trace w ++
      [EvShot c; EvPixelmatch;
       EvLog (if 0 <? numDiffPixels then LogVisualRegression numDiffPixels
              else LogVisualPassed)] /\
    sameRun w w'.
Proof.
  pose proof stored as Hstored. unfold baselinePath in Hstored.
  unfold compareScreenshot.
  change ((v :: rest) !! 0%nat) with (Some v).
  rewrite truthyValue_named by (rewrite printed; exact named). cbn [negb].
  change (default "" (toText <$> Some v)) with (toText v). rewrite printed.
  destruct prepared as (fs & E1 & E2 & Htidy & Hbase & Hact & Hshots & Hcwd & Hfiles).
  pose proof (fileName_snapshotFile Baseline snapshotName flat) as Hname.
  pose proof (fileName_snapshotFile Actual snapshotName flat) as HnameA.
  run_step. rewrite captured. run_step.
  destruct (ensureDir (files w) Baseline) as [r1 fs1]. cbn [fst snd] in *. subst r1.
  run_step. rewrite E2. cbn [fst snd]. run_step.
  rewrite (pathExists_tidy _ _ _ Htidy Hname).
  rewrite (lookupFile_same _ _ _ Hcwd Hfiles). rewrite Hstored.
  rewrite bool_decide_true by eauto. cbn [negb].
  run_step. rewrite (readFile_found _ _ baseline)
    by (rewrite (lookupFile_same _ _ _ Hcwd Hfiles); exact Hstored).
  run_step. rewrite decoded1. run_step. rewrite decoded2.
  run_step. rewrite counted.
  destruct (0 <? numDiffPixels) eqn:Hpos.
  - run_step.
    replace (S (S (S (S (S (S (ticks w))))))) with (6 + ticks w)%nat by lia.
    pose proof (fileName_diffFile Screenshots snapshotName
                  (clock host (6 + ticks w)) flat) as HnameD.
    destruct (writeFile_tidy fs Screenshots _ diffImage Htidy Hshots HnameD)
      as (fs3 & Hw3 & Htidy3 & Hdirs3 & Hcwd3 & Hfiles3).
    destruct (writeFile_tidy fs3 Actual _ candidate Htidy3 (Hdirs3 _ Hact) HnameA)
      as (fs4 & Hw4 & Htidy4 & Hdirs4 & Hcwd4 & Hfiles4).
    run_step. fold diffImage. rewrite Hw3. cbn [fst snd].
    run_step. rewrite Hw4. cbn [fst snd].
    do 2 run_step. cbn [run].
    eexists. split; [reflexivity|]. world_simpl.
    split; [exact Htidy4|]. split; [now rewrite Hcwd4, Hcwd3|].
    split.
    { intros q. rewrite Hfiles4, (location_cwd _ _ _ _ Hcwd3),
        (location_cwd _ _ _ _ Hcwd). fold actualAt.
      destruct (decide (q = actualAt)); [reflexivity|].
      rewrite Hfiles3, (location_cwd _ _ _ _ Hcwd). fold diffAt.
      destruct (decide (q = diffAt)); [reflexivity | apply Hfiles]. }
    split; [now rewrite <- !app_assoc|]. repeat split.
  - do 2 run_step. rewrite (pathExists_tidy _ _ _ Htidy HnameA).
    destruct (removeFile_tidy fs Actual _ Htidy HnameA)
      as (Htidy5 & _ & Hcwd5 & Hfiles5).
    destruct (bool_decide (is_Some (lookupFile fs (Actual, snapshotFile snapshotName))))
      eqn:Hstale.
    + run_step. cbn [run].
      eexists. split; [reflexivity|]. world_simpl.
      split; [exact Htidy5|]. split; [now rewrite Hcwd5|].
      split.
      { intros q. rewrite Hfiles5, (location_cwd _ _ _ _ Hcwd). fold actualAt.
        destruct (decide (q = actualAt)); [reflexivity | apply Hfiles]. }
      split; [now rewrite <- !app_assoc|]. repeat split.
    + cbn [run]. eexists. split; [reflexivity|]. world_simpl.
      split; [exact Htidy|]. split; [exact Hcwd|].
      split.
      { intros q. rewrite Hfiles. destruct (decide (q = actualAt)) as [->|]; [|reflexivity].
        apply bool_decide_eq_false in Hstale.
        rewrite (lookupFile_same _ _ _ Hcwd Hfiles) in Hstale.
        rewrite (lookupFile_file _ _ _ HnameA) in Hstale. fold actualAt in Hstale.
        destruct (fileAt (root (files w)) actualAt); [|reflexivity].
        exfalso. apply Hstale. eauto. }
      split; [now rewrite <- !app_assoc|]. repeat split.
Qed.

End CompareScreenshot.

(** The step on any disk on which its two folders can be made. *)
Section CompareAnywhere.
Context (host : Host) (c : Ctx) (w : World).
Context (snapshotName : string) (v : JsValue) (rest : list JsValue).
Context (candidate : Buffer).
Hypothesis named : snapshotName <> "".
Hypothesis printed : toText v = snapshotName.
Hypothesis captured : screenshotReply host (ticks w) c None = Normal candidate.
Hypothesis ready : canPrepare (files w).

Lemma prepared_anywhere :
  exists fs,
    (ensureDir (files w) Baseline).1 = Normal tt /\
    (ensureDir (ensureDir (files w) Baseline).2 Actual) = (Normal tt, fs) /\
    isDir fs Baseline /\ isDir fs Actual /\
    cwd fs = cwd (files w) /\
    (forall q, fileAt (root fs) q = fileAt (root (files w)) q) /\
    (forall name, get (root fs) (location (files w) Baseline name)
                  = get (root (files w)) (location (files w) Baseline name)).
Proof.
  destruct ready as (fs1 & fs2 & E1 & E2).
  destruct (ensureDir_keeps _ _ _ E1) as (C1 & D1 & K1 & F1 & G1).
  destruct (ensureDir_keeps _ _ _ E2) as (C2 & D2 & K2 & F2 & G2).
  exists fs2. rewrite E1. cbn [fst snd]. split; [reflexivity|].
  split; [exact E2|]. split; [now apply K2|]. split; [exact D2|].
  split; [now rewrite C2|]. split; [intros q; now rewrite F2|].
  intros name. rewrite G2, G1; [reflexivity | |].
  - now apply location_not_dir.
  - rewrite <- (location_cwd _ _ _ _ C1). now apply location_not_dir.
Qed.

(** Nothing at the place of the baseline: the capture becomes the
    baseline. *)
Lemma compareScreenshot_new_baseline :
  flatName snapshotName = true ->
  pathExists (files w) (Baseline, snapshotFile snapshotName) = false ->
  exists w',
    run host (compareScreenshot c (v :: rest)) w = (Normal tt, w') /\
    cwd (files w') = cwd (files w) /\
    (forall q, fileAt (root (files w')) q =
               if decide (q = location (files w) Baseline (snapshotFile snapshotName))
               then Some candidate
               else fileAt (root (files w)) q) /\
    trace w' = trace w ++ [EvShot c; EvLog (LogBaselineNotFound snapshotName)] /\
    sameRun w w'.
Proof.
  intros Hflat Hnone. unfold compareScreenshot.
  change ((v :: rest) !! 0%nat) with (Some v).
  rewrite truthyValue_named by (rewrite printed; exact named). cbn [negb].
  change (default "" (toText <$> Some v)) with (toText v). rewrite printed.
  destruct prepared_anywhere as (fs & E1 & E2 & Hbase & Hact & Hcwd & Hfiles & Hget).
  pose proof (fileName_snapshotFile Baseline snapshotName Hflat) as Hname.
  apply fileName_inv in Hname as [Hplain _].
  assert (Hnone' : pathExists fs (Baseline, snapshotFile snapshotName) = false).
  { rewrite <- Hnone. unfold pathExists, nodeAt.
    rewrite (resolve_cwd _ _ _ Hcwd), (resolve_plain _ _ _ Hplain).
    change (Some ?q ≫= ?f) with (f q).
    pose proof (Hget (snapshotFile snapshotName)) as Hsame.
    unfold location in Hsame. now rewrite Hsame. }
  destruct (writeFile_new fs Baseline (snapshotFile snapshotName) candidate
              Hbase Hplain Hnone') as (fs' & Hw & Hcwd' & Hfiles').
  run_step. rewrite captured. run_step.
  destruct (ensureDir (files w) Baseline) as [r1 fs1]. cbn [fst snd] in *. subst r1.
  run_step. rewrite E2. cbn [fst snd]. run_step.
  rewrite Hnone'. cbn [negb].
  run_step. rewrite run_call. cbn [handle]. world_simpl. rewrite Hw. cbn [fst snd].
  eexists. split; [reflexivity|]. world_simpl.
  split; [now rewrite Hcwd'|].
  split.
  { intros q. rewrite Hfiles', (location_cwd _ _ _ _ Hcwd).
    destruct (decide (q = _)); [reflexivity | apply Hfiles]. }
  split; [now rewrite <- !app_assoc|]. repeat split.
Qed.

Context (baseline : Buffer) (img1 img2 : PNG) (numDiffPixels : Z) (diff : list Z).
Hypothesis stored :
  lookupFile (files w) (Baseline, snapshotFile snapshotName) = Some baseline.
Hypothesis decoded1 : PNG_sync_read baseline = Normal img1.
Hypothesis decoded2 : PNG_sync_read candidate = Normal img2.
Hypothesis counted :
  pixelmatch host (pixels img1) (pixels img2) (width img1) (height img1) threshold
  = Normal (numDiffPixels, diff).

(** A baseline under the name, both images decoded, [pixelmatch]
    returned a count: the step throws when the count is above zero,
    and only then. *)
Lemma compareScreenshot_counts :
  exists r w' more,
    run host (compareScreenshot c (v :: rest)) w = (r, w') /\
    trace w' = trace w ++ [EvShot c; EvPixelmatch] ++ more /\
    ((exists m, r = Thrown m) <-> 0 < numDiffPixels) /\
    (numDiffPixels <= 0 -> r = Normal tt) /\
    sameRun w w'.
Proof.
  unfold compareScreenshot.
  change ((v :: rest) !! 0%nat) with (Some v).
  rewrite truthyValue_named by (rewrite printed; exact named). cbn [negb].
  change (default "" (toText <$> Some v)) with (toText v). rewrite printed.
  destruct prepared_anywhere as (fs & E1 & E2 & Hbase & Hact & Hcwd & Hfiles & Hget).
  assert (Hstored : lookupFile fs (Baseline, snapshotFile snapshotName) = Some baseline)
    by (rewrite (lookupFile_same _ _ _ Hcwd Hfiles); exact stored).
  run_step. rewrite captured. run_step.
  destruct (ensureDir (files w) Baseline) as [r1 fs1]. cbn [fst snd] in *. subst r1.
  run_step. rewrite E2. cbn [fst snd]. run_step.
  rewrite (pathExists_found _ _ _ Hstored). cbn [negb].
  run_step. rewrite (readFile_found _ _ _ Hstored).
  run_step. rewrite decoded1. run_step. rewrite decoded2.
  run_step. rewrite counted.
  destruct (Z.ltb_spec 0 numDiffPixels) as [Hpos | Hle].
  - run_step. run_step.
    match goal with
    | |- context [writeFile fs ?p ?b] =>
        destruct (writeFile fs p b) as [[[] | m3] fs3]
    end; cbn [fst snd].
    + run_step.
      match goal with
      | |- context [writeFile fs3 ?p ?b] =>
          destruct (writeFile fs3 p b) as [[[] | m4] fs4]
      end; cbn [fst snd].
      * do 2 run_step. cbn [run]. eexists _, _, [_]. split; [reflexivity|].
        world_simpl. split; [now rewrite <- !app_assoc|].
        split; [split; eauto|]. split; [lia|]. repeat split.
      * eexists _, _, []. split; [reflexivity|].
        world_simpl. split; [now rewrite <- !app_assoc|].
        split; [split; eauto|]. split; [lia|]. repeat split.
    + eexists _, _, []. split; [reflexivity|].
      world_simpl. split; [now rewrite <- !app_assoc|].
      split; [split; eauto|]. split; [lia|]. repeat split.
  - do 2 run_step.
    match goal with
    | |- context [if ?stale then _ else _] => destruct stale
    end.
    + run_step. cbn [run]. eexists _, _, [_]. split; [reflexivity|].
      world_simpl. split; [now rewrite <- !app_assoc|].
      split; [split; [intros [? ?]; discriminate | lia]|].
      split; [reflexivity|]. repeat split.
    + cbn [run]. eexists _, _, [_]. split; [reflexivity|].
      world_simpl. split; [now rewrite <- !app_assoc|].
      split; [split; [intros [? ?]; discriminate | lia]|].
      split; [reflexivity|]. repeat split.
Qed.

End CompareAnywhere.

(** ** Steps *)

Lemma run_execute (host : Host) (env rowParams : Row) (c : Ctx)
    (step : TemplateStep) (w : World) :
  run host (execute env c step rowParams) w =
  match resolveParams env (params step) rowParams with
  | Thrown m => (Thrown m, w)
  | Normal resolved =>
      let started :=
        emit (tick w) (EvLog (LogStep (action step) (toText <$> resolved))) in
      match run host (dispatch c (action step) resolved) started with
      | (Normal _, w') => (Normal tt, w')
      | (Thrown m, w') => (Thrown (stepFailed (action step) m), w')
      end
  end.
Proof.
  unfold execute.
  destruct (resolveParams env (params step) rowParams) as [resolved | m];
    [|reflexivity].
  run_step. rewrite run_bind.
  destruct (run host (dispatch c (action step) resolved) _) as [[[] | m] w'];
    reflexivity.
Qed.

Lemma newEvents_app (w w' : World) (evs : list Event) :
  trace w' = trace w ++ evs -> newEvents w w' = evs.
Proof. intros H. unfold newEvents. rewrite H. apply drop_app_length. Qed.

Lemma sameFilesBut_one (fs fs' : FileSystem) (q0 : list string) (b : option Buffer) :
  cwd fs' = cwd fs ->
  (forall q, fileAt (root fs') q = if decide (q = q0) then b else fileAt (root fs) q) ->
  sameFilesBut [q0] fs fs'.
Proof.
  intros Hcwd Hfiles. split; [exact Hcwd|]. intros q Hq. rewrite Hfiles.
  rewrite decide_False; [reflexivity|]. intros ->. apply Hq. now left.
Qed.

(** A compare step run on a disk where nothing is at the place of the
    baseline. *)
Lemma execute_new_baseline (host : Host) (env rowParams : Row) (c : Ctx)
    (step : TemplateStep) (w : World) (snapshotName : string) (candidate : Buffer) :
  visualStep env rowParams step snapshotName ->
  flatName snapshotName = true ->
  screenshotReply host (S (ticks w)) c None = Normal candidate ->
  canPrepare (files w) ->
  pathExists (files w) (Baseline, snapshotFile snapshotName) = false ->
  exists w',
    run host (execute env c step rowParams) w = (Normal tt, w') /\
    cwd (files w') = cwd (files w) /\
    (forall q, fileAt (root (files w')) q =
               if decide (q = location (files w) Baseline (snapshotFile snapshotName))
               then Some candidate
               else fileAt (root (files w)) q) /\
    newEvents w w' =
      [EvLog (LogStep "compare_screenshot"
                (toText <$> default [] (match resolveParams env (params step) rowParams
                                        with Normal l => Some l | Thrown _ => None end)));
       EvShot c; EvLog (LogBaselineNotFound snapshotName)] /\
    sameRun w w'.
Proof.
  intros (Hact & Hname & v & rest & Hres & Htext) Hflat Hshot Hready Hnone.
  rewrite run_execute, Hres, Hact. cbn zeta.
  change (dispatch c "compare_screenshot" (v :: rest))
    with (compareScreenshot c (v :: rest)).
  destruct (compareScreenshot_new_baseline host c
              (emit (tick w) (EvLog (LogStep "compare_screenshot" (toText <$> v :: rest))))
              snapshotName v rest candidate Hname Htext Hshot Hready Hflat Hnone)
    as (w' & -> & Hcwd & Hfiles & Htrace & Hsame).
  world_simpl in Hcwd. world_simpl in Hfiles. world_simpl in Htrace.
  exists w'. split; [reflexivity|]. split; [exact Hcwd|]. split; [exact Hfiles|].
  split; [|exact Hsame].
  rewrite <- app_assoc in Htrace. now apply newEvents_app in Htrace.
Qed.

(** C7, amended. A [compare_screenshot] step whose snapshot name has
    no path separator in it, run when nothing exists at the path of
    the baseline of that name (the capture being taken and the folders
    [baseline] and [actual] there or made): the step completes
    successfully, stores the capture as the baseline under that name,
    changes no other file, never calls [pixelmatch], and writes the
    "baseline not found" warning to the console. *)
Theorem first_run_saves_baseline (host : Host) (env rowParams : Row) (c : Ctx)
    (step : TemplateStep) (w : World) (snapshotName : string) (candidate : Buffer) :
  visualStep env rowParams step snapshotName ->
  flatName snapshotName = true ->
  screenshotReply host (S (ticks w)) c None = Normal candidate ->
  canPrepare (files w) ->
  pathExists (files w) (Baseline, snapshotFile snapshotName) = false ->
  exists w',
    run host (execute env c step rowParams) w = (Normal tt, w') /\
    lookupFile (files w') (Baseline, snapshotFile snapshotName) = Some candidate /\
    sameFilesBut [location (files w) Baseline (snapshotFile snapshotName)]
                 (files w) (files w') /\
    ~ In EvPixelmatch (newEvents w w') /\
    In (EvLog (LogBaselineNotFound snapshotName)) (newEvents w w').
Proof.
  intros Hvis Hflat Hshot Hready Hnone.
  destruct (execute_new_baseline host env rowParams c step w snapshotName candidate
              Hvis Hflat Hshot Hready Hnone)
    as (w' & Hrun & Hcwd & Hfiles & Hevents & _).
  exists w'. split; [exact Hrun|]. split.
  { rewrite (lookupFile_file _ _ _ (fileName_snapshotFile Baseline _ Hflat)).
    rewrite Hfiles, (location_cwd _ _ _ _ Hcwd). now rewrite decide_True. }
  split; [exact (sameFilesBut_one _ _ _ _ Hcwd Hfiles)|].
  rewrite Hevents. split.
  - simpl. intros [H | [H | [H | []]]]; discriminate.
  - simpl. auto.
Qed.

Lemma first_run_saves_baseline_witness :
  exists w',
    run Sample.host (execute ∅ 0%nat Sample.visualCheck Sample.homeRow)
        (Sample.worldWith Sample.noFiles) = (Normal tt, w') /\
    lookupFile (files w') (Baseline, "home.png") = Some (PngBytes Sample.black).
Proof.
  destruct (first_run_saves_baseline Sample.host ∅ Sample.homeRow 0%nat
              Sample.visualCheck (Sample.worldWith Sample.noFiles) "home"
              (PngBytes Sample.black))
    as (w' & Hrun & Hfile & _).
  - split; [reflexivity|]. split; [discriminate|]. exists (Str "home"), [].
    split; reflexivity.
  - reflexivity.
  - reflexivity.
  - do 2 eexists. split; reflexivity.
  - reflexivity.
  - exists w'. split; [exact Hrun | exact Hfile].
Defined.

(** C7 as the specification has it does not hold of every snapshot
    name: for the name [sub/home], with no baseline and nothing else
    on the disk, the step finds no folder [baseline/sub] to write the
    baseline into, and fails. *)
Lemma first_run_fails_below_missing_folder :
  visualStep ∅ {[ "snapshotName" := "sub/home" ]} Sample.visualCheck "sub/home" /\
  pathExists Sample.noFiles (Baseline, snapshotFile "sub/home") = false /\
  exists w',
    run Sample.host
        (execute ∅ 0%nat Sample.visualCheck {[ "snapshotName" := "sub/home" ]})
        (Sample.worldWith Sample.noFiles)
    = (Thrown ("Step failed: compare_screenshot - ENOENT: no such file or directory, " +:+
               "open '/app/screenshots/baseline/sub/home.png'"), w') /\
    lookupFile (files w') (Baseline, snapshotFile "sub/home") = None.
Proof.
  split.
  { split; [reflexivity|]. split; [discriminate|].
    exists (Str "sub/home"), []. split; reflexivity. }
  split; [reflexivity|].
  eexists. split; [vm_compute; reflexivity|]. reflexivity.
Qed.

Section VisualStep.
Context (host : Host) (env rowParams : Row) (c : Ctx) (step : TemplateStep).
Context (w : World) (snapshotName : string).
Context (candidate baseline : Buffer) (img1 img2 : PNG).
Context (numDiffPixels : Z) (diff : list Z).
Hypothesis visual : visualStep env rowParams step snapshotName.
Hypothesis captured : screenshotReply host (S (ticks w)) c None = Normal candidate.
Hypothesis stored :
  lookupFile (files w) (Baseline, snapshotFile snapshotName) = Some baseline.
Hypothesis decoded1 : PNG_sync_read baseline = Normal img1.
Hypothesis decoded2 : PNG_sync_read candidate = Normal img2.
Hypothesis counted :
  pixelmatch host (pixels img1) (pixels img2) (width img1) (height img1) threshold
  = Normal (numDiffPixels, diff).

(** The step against a stored baseline, once [pixelmatch] has
    returned its count, on any disk where the two folders can be made. *)
Lemma execute_compare_counts :
  canPrepare (files w) ->
  exists r w',
    run host (execute env c step rowParams) w = (r, w') /\
    In EvPixelmatch (newEvents w w') /\
    ((exists m, r = Thrown m) <-> 0 < numDiffPixels) /\
    (numDiffPixels <= 0 -> r = Normal tt) /\
    sameRun w w'.
Proof.
  intros Hready. destruct visual as (Hact & Hname & v & rest & Hres & Htext).
  rewrite run_execute, Hres, Hact. cbn zeta.
  change (dispatch c "compare_screenshot" (v :: rest))
    with (compareScreenshot c (v :: rest)).
  destruct (compareScreenshot_counts host c
              (emit (tick w) (EvLog (LogStep "compare_screenshot" (toText <$> v :: rest))))
              snapshotName v rest candidate Hname Htext captured Hready
              baseline img1 img2 numDiffPixels diff stored decoded1 decoded2 counted)
    as (r & w' & more & Hrun & Htrace & Hiff & Hzero & Hsame).
  rewrite Hrun. world_simpl in Htrace.
  rewrite <- app_assoc in Htrace. apply newEvents_app in Htrace.
  destruct r as [[] | m].
  - exists (Normal tt), w'. split; [reflexivity|].
    split; [rewrite Htrace; simpl; auto|]. split; [|split; [auto | exact Hsame]].
    split; [intros [? ?]; discriminate | intros H; apply Hiff in H as [? ?]; discriminate].
  - exists (Thrown (stepFailed "compare_screenshot" m)), w'. split; [reflexivity|].
    split; [rewrite Htrace; simpl; auto|]. split; [|split; [|exact Hsame]].
    + split; [intros _; apply Hiff; eauto | eauto].
    + intros Hle. apply Hzero in Hle. discriminate.
Qed.

(** The same on a tidy disk, for a name without separator: the
    verdict and what is left on disk. *)
Lemma execute_compare_verdict :
  tidy (files w) -> flatName snapshotName = true ->
  exists w',
    run host (execute env c step rowParams) w =
      (if 0 <? numDiffPixels
       then Thrown (stepFailed "compare_screenshot" (regressionMessage numDiffPixels))
       else Normal tt, w') /\
    tidy (files w') /\ cwd (files w') = cwd (files w) /\
    (forall q, fileAt (root (files w')) q =
       let actualAt := location (files w) Actual (snapshotFile snapshotName) in
       let diffAt := location (files w) Screenshots
                       (diffFile snapshotName (clock host (7 + ticks w))) in
       if 0 <? numDiffPixels then
         if decide (q = actualAt) then Some candidate
         else if decide (q = diffAt)
              then Some (PNG_sync_write {| width := width img1; height := height img1;
                                           pixels := diff |})
              else fileAt (root (files w)) q
       else
         if decide (q = actualAt) then None else fileAt (root (files w)) q) /\
    In EvPixelmatch (newEvents w w') /\
    sameRun w w'.
Proof.
  intros Htidy Hflat. destruct visual as (Hact & Hname & v & rest & Hres & Htext).
  rewrite run_execute, Hres, Hact. cbn zeta.
  change (dispatch c "compare_screenshot" (v :: rest))
    with (compareScreenshot c (v :: rest)).
  destruct (compareScreenshot_verdict host c
              (emit (tick w) (EvLog (LogStep "compare_screenshot" (toText <$> v :: rest))))
              snapshotName v rest candidate Hname Htext Hflat captured Htidy
              baseline img1 img2 numDiffPixels diff stored decoded1 decoded2 counted)
    as (w' & Hrun & Htidy' & Hcwd & Hfiles & Htrace & Hsame).
  rewrite Hrun. world_simpl in Hfiles. world_simpl in Htrace. world_simpl in Hcwd.
  exists w'. split; [now destruct (0 <? numDiffPixels)|].
  split; [exact Htidy'|]. split; [exact Hcwd|].
  split; [exact Hfiles|]. split; [|exact Hsame].
  rewrite <- app_assoc in Htrace. apply newEvents_app in Htrace.
  rewrite Htrace. simpl. auto.
Qed.

End VisualStep.

(** C6. When the baseline and the capture decode to rasters of equal
    size, the step calls [pixelmatch] with threshold 0.1 and fails
    exactly when the count of differing pixels it returns is above
    zero; with a count of zero the step passes. The failure is the
    visual regression with that count when the snapshot name has no
    path separator in it and the disk is tidy, so that the diff and
    the actual image can be written. *)
Theorem compare_fails_iff_pixels_differ (host : Host) (env rowParams : Row)
    (c : Ctx) (step : TemplateStep) (w : World) (snapshotName : string)
    (candidate baseline : Buffer) (img1 img2 : PNG)
    (numDiffPixels : Z) (diff : list Z) :
  visualStep env rowParams step snapshotName ->
  screenshotReply host (S (ticks w)) c None = Normal candidate ->
  canPrepare (files w) ->
  lookupFile (files w) (Baseline, snapshotFile snapshotName) = Some baseline ->
  PNG_sync_read baseline = Normal img1 ->
  PNG_sync_read candidate = Normal img2 ->
  width img2 = width img1 -> height img2 = height img1 ->
  pixelmatch host (pixels img1) (pixels img2) (width img1) (height img1) (1 # 10)
    = Normal (numDiffPixels, diff) ->
  exists r w',
    run host (execute env c step rowParams) w = (r, w') /\
    In EvPixelmatch (newEvents w w') /\
    ((exists m, r = Thrown m) <-> 0 < numDiffPixels) /\
    (tidy (files w) -> flatName snapshotName = true -> 0 < numDiffPixels ->
       r = Thrown (stepFailed "compare_screenshot" (regressionMessage numDiffPixels))) /\
    (numDiffPixels = 0 -> r = Normal tt).
Proof.
  intros Hvis Hshot Hready Hbase Hd1 Hd2 _ _ Hcount.
  destruct (execute_compare_counts host env rowParams c step w snapshotName
              candidate baseline img1 img2 numDiffPixels diff
              Hvis Hshot Hbase Hd1 Hd2 Hcount Hready)
    as (r & w' & Hrun & Hpm & Hiff & Hzero & _).
  exists r, w'. split; [exact Hrun|]. split; [exact Hpm|]. split; [exact Hiff|].
  split; [|intros ->; now apply Hzero].
  intros Htidy Hflat Hpos.
  destruct (execute_compare_verdict host env rowParams c step w snapshotName
              candidate baseline img1 img2 numDiffPixels diff
              Hvis Hshot Hbase Hd1 Hd2 Hcount Htidy Hflat)
    as (w'' & Hrun' & _).
  rewrite Hrun in Hrun'. apply Z.ltb_lt in Hpos. rewrite Hpos in Hrun'.
  now injection Hrun' as -> _.
Qed.

Lemma compare_fails_iff_pixels_differ_witness :
  exists w',
    run (Sample.hostShowing Sample.white)
        (execute ∅ 0%nat Sample.visualCheck Sample.homeRow)
        (Sample.worldWith (Sample.baselineOnly "home.png" Sample.black))
    = (Thrown (stepFailed "compare_screenshot" (regressionMessage 1)), w').
Proof.
  destruct (compare_fails_iff_pixels_differ (Sample.hostShowing Sample.white)
              ∅ Sample.homeRow 0%nat Sample.visualCheck
              (Sample.worldWith (Sample.baselineOnly "home.png" Sample.black))
              "home" (PngBytes Sample.white) (PngBytes Sample.black)
              Sample.black Sample.white 1 (pixels Sample.black))
    as (r & w' & Hrun & _ & _ & Hfail & _).
  - split; [reflexivity|]. split; [discriminate|]. exists (Str "home"), [].
    split; reflexivity.
  - reflexivity.
  - do 2 eexists. split; reflexivity.
  - reflexivity.
  - reflexivity.
  - reflexivity.
  - reflexivity.
  - reflexivity.
  - reflexivity.
  - exists w'. rewrite Hrun. rewrite Hfail; [reflexivity | | reflexivity | lia].
    apply (bool_decide_unpack _). vm_compute. exact I.
Defined.

(** ** One review *)


(** ** The pending set *)


Lemma pending_at (w : World) (snapshotName : string) :
  flatName snapshotName = true ->
  pending w snapshotName <->
  is_Some (fileAt (root (files w))
             (location (files w) Actual (snapshotFile snapshotName))).
Proof.
  intros H. unfold pending.
  now rewrite (lookupFile_plain _ _ _ (plainName_snapshotFile _ H)).
Qed.

Section PendingAfterComparison.
Context (host : Host) (env rowParams : Row) (c : Ctx) (step : TemplateStep).
Context (w : World) (snapshotName : string).
Context (candidate baseline : Buffer) (img1 img2 : PNG).
Context (numDiffPixels : Z) (diff : list Z).
Hypothesis visual : visualStep env rowParams step snapshotName.
Hypothesis flat : flatName snapshotName = true.
Hypothesis neat : tidy (files w).
Hypothesis captured : screenshotReply host (S (ticks w)) c None = Normal candidate.
Hypothesis stored :
  lookupFile (files w) (Baseline, snapshotFile snapshotName) = Some baseline.
Hypothesis decoded1 : PNG_sync_read baseline = Normal img1.
Hypothesis decoded2 : PNG_sync_read candidate = Normal img2.
Hypothesis counted :
  pixelmatch host (pixels img1) (pixels img2) (width img1) (height img1) threshold
  = Normal (numDiffPixels, diff).

Lemma primary_comparison_effect :
  exists r w',
    run host (execute env c step rowParams) w = (r, w') /\
    tidy (files w') /\
    (0 < numDiffPixels ->
       r = Thrown (stepFailed "compare_screenshot" (regressionMessage numDiffPixels)) /\
       lookupFile (files w') (Actual, snapshotFile snapshotName) = Some candidate /\
       lookupFile (files w')
         (Screenshots, diffFile snapshotName (clock host (7 + ticks w)))
       = Some (PNG_sync_write {| width := width img1; height := height img1;
                                 pixels := diff |})) /\
    (numDiffPixels <= 0 ->
       r = Normal tt /\
       lookupFile (files w') (Actual, snapshotFile snapshotName) = None) /\
    (forall other, flatName other = true -> other <> snapshotName ->
       (pending w' other <-> pending w other)).
Proof.
  destruct (execute_compare_verdict host env rowParams c step w snapshotName
              candidate baseline img1 img2 numDiffPixels diff
              visual captured stored decoded1 decoded2 counted neat flat)
    as (w' & Hrun & Htidy & Hcwd & Hfiles & _ & _).
  cbn zeta in Hfiles.
  pose proof (plainName_snapshotFile _ flat) as Hplain.
  pose proof (fileName_diffFile Screenshots snapshotName
                (clock host (7 + ticks w)) flat) as HnameD.
  apply fileName_inv in HnameD as [HplainD _].
  eexists. exists w'. split; [exact Hrun|]. split; [exact Htidy|].
  assert (Hother : forall other, flatName other = true -> other <> snapshotName ->
                     (pending w' other <-> pending w other)).
  { intros other Hflat Hne. rewrite !pending_at by exact Hflat.
    rewrite (location_cwd _ _ _ _ Hcwd), Hfiles.
    assert (Ha : location (files w) Actual (snapshotFile other)
                 <> location (files w) Actual (snapshotFile snapshotName)).
    { intros E. apply location_inj in E as [_ E].
      apply snapshotFile_inj in E. contradiction. }
    assert (Hd : location (files w) Actual (snapshotFile other)
                 <> location (files w) Screenshots
                      (diffFile snapshotName (clock host (7 + ticks w)))).
    { intros E. apply location_inj in E as [E _]. discriminate. }
    destruct (0 <? numDiffPixels); now rewrite !decide_False by assumption. }
  destruct (Z.ltb_spec 0 numDiffPixels) as [Hpos | Hle].
  - split; [|split; [lia | exact Hother]].
    intros _. split; [reflexivity|]. split.
    + rewrite (lookupFile_plain _ _ _ Hplain), (location_cwd _ _ _ _ Hcwd), Hfiles.
      now rewrite decide_True.
    + rewrite (lookupFile_plain _ _ _ HplainD), (location_cwd _ _ _ _ Hcwd), Hfiles.
      rewrite decide_False
        by (intros E; apply location_inj in E as [E _]; discriminate).
      now rewrite decide_True.
  - split; [lia|]. split; [|exact Hother].
    intros _. split; [reflexivity|].
    rewrite (lookupFile_plain _ _ _ Hplain), (location_cwd _ _ _ _ Hcwd), Hfiles.
    now rewrite decide_True.
Qed.

End PendingAfterComparison.






(** ** Images of different dimensions *)

(** C1 asks that a capture whose dimensions differ from those of the
    baseline is never compared and never reported as a number of
    differing pixels. The [compare_screenshot] step does not keep to
    it: it never looks at the dimensions of the capture, calls
    [pixelmatch] with the dimensions of the baseline all the same, and
    when [pixelmatch] returns a count above zero it reports that many
    differing pixels and stores the capture as the actual image (for
    a snapshot name without path separator on a tidy disk, where the
    diff and the actual image can be written). *)
Theorem compare_step_counts_pixels_across_dimensions (host : Host)
    (env rowParams : Row) (c : Ctx) (step : TemplateStep) (w : World)
    (snapshotName : string) (candidate baseline : Buffer) (img1 img2 : PNG)
    (numDiffPixels : Z) (diff : list Z) :
  visualStep env rowParams step snapshotName ->
  flatName snapshotName = true ->
  tidy (files w) ->
  screenshotReply host (S (ticks w)) c None = Normal candidate ->
  lookupFile (files w) (Baseline, snapshotFile snapshotName) = Some baseline ->
  PNG_sync_read baseline = Normal img1 ->
  PNG_sync_read candidate = Normal img2 ->
  (width img2, height img2) <> (width img1, height img1) ->
  pixelmatch host (pixels img1) (pixels img2) (width img1) (height img1) threshold
    = Normal (numDiffPixels, diff) ->
  0 < numDiffPixels ->
  exists w',
    run host (execute env c step rowParams) w =
      (Thrown (stepFailed "compare_screenshot" (regressionMessage numDiffPixels)), w') /\
    In EvPixelmatch (newEvents w w') /\
    pending w' snapshotName.
Proof.
  intros Hvis Hflat Htidy Hshot Hbase Hd1 Hd2 _ Hcount Hpos.
  destruct (primary_comparison_effect host env rowParams c step w snapshotName
              candidate baseline img1 img2 numDiffPixels diff
              Hvis Hflat Htidy Hshot Hbase Hd1 Hd2 Hcount)
    as (r & w' & Hrun & _ & Hmis & _).
  destruct (execute_compare_counts host env rowParams c step w snapshotName
              candidate baseline img1 img2 numDiffPixels diff
              Hvis Hshot Hbase Hd1 Hd2 Hcount (tidy_canPrepare _ Htidy))
    as (r' & w'' & Hrun' & Hpm & _).
  rewrite Hrun in Hrun'. injection Hrun' as <- <-.
  destruct (Hmis Hpos) as (-> & Hactual & _).
  exists w'. split; [exact Hrun|]. split; [exact Hpm|].
  unfold pending. rewrite Hactual. eauto.
Qed.

Lemma compare_step_counts_pixels_across_dimensions_witness :
  exists w',
    run (Sample.hostShowing Sample.wide)
        (execute ∅ 0%nat Sample.visualCheck Sample.homeRow)
        (Sample.worldWith (Sample.baselineOnly "home.png" Sample.tall))
    = (Thrown (stepFailed "compare_screenshot" (regressionMessage 2)), w') /\
    pending w' "home".
Proof.
  destruct (compare_step_counts_pixels_across_dimensions
              (Sample.hostShowing Sample.wide) ∅ Sample.homeRow 0%nat
              Sample.visualCheck
              (Sample.worldWith (Sample.baselineOnly "home.png" Sample.tall))
              "home" (PngBytes Sample.wide) (PngBytes Sample.tall)
              Sample.tall Sample.wide 2 (pixels Sample.tall))
    as (w' & Hrun & _ & Hpending).
  - split; [reflexivity|]. split; [discriminate|]. exists (Str "home"), [].
    split; reflexivity.
  - reflexivity.
  - apply (bool_decide_unpack _). vm_compute. exact I.
  - reflexivity.
  - reflexivity.
  - reflexivity.
  - reflexivity.
  - discriminate.
  - reflexivity.
  - lia.
  - exists w'. split; [exact Hrun | exact Hpending].
Defined.

(** The diff on the failure path, in contrast, compares dimensions
    first: for a baseline and a failure screenshot of different
    dimensions it returns no diff, calls [pixelmatch] not at all and
    writes no file. *)
Lemma diffOnFailure_skips_other_dimensions (host : Host) (w : World)
    (snapshotName : string) (screenshotPath : Path)
    (baseline actual : Buffer) (img1 img2 : PNG) :
  lookupFile (files w) (Baseline, snapshotFile snapshotName) = Some baseline ->
  lookupFile (files w) screenshotPath = Some actual ->
  PNG_sync_read baseline = Normal img1 ->
  PNG_sync_read actual = Normal img2 ->
  (width img2, height img2) <> (width img1, height img1) ->
  exists w',
    run host (diffOnFailure snapshotName screenshotPath) w = (Normal (None, None), w') /\
    files w' = files w /\ trace w' = trace w.
Proof.
  intros Hbase Hshot Hd1 Hd2 Hdims. unfold diffOnFailure.
  run_step. rewrite (pathExists_found _ _ _ Hbase).
  run_step. rewrite (readFile_found _ _ _ Hbase).
  run_step. rewrite (readFile_found _ _ _ Hshot).
  run_step. rewrite Hd1. run_step. rewrite Hd2.
  destruct ((width img2 =? width img1) && (height img2 =? height img1)) eqn:E.
  - apply andb_true_iff in E as [Ew Eh].
    apply Z.eqb_eq in Ew, Eh. destruct Hdims. congruence.
  - cbn [run]. eexists. split; [reflexivity|]. world_simpl. auto.
Qed.

(** ** The approval workflow *)






(** ** What a step can and cannot do *)

Lemma only_bind (P : forall X : Type, Eff X -> Prop) {A B : Type}
    (p : Prog A) (f : A -> Prog B) :
  only P p -> (forall a, only P (f a)) -> only P (bind p f).
Proof.
  intros Hp Hf. induction p as [a | X e k IH]; simpl; [apply Hf|].
  destruct Hp as [He Hk]. split; [exact He|]. intros x. apply IH, Hk.
Qed.

Lemma only_try (P : forall X : Type, Eff X -> Prop) {A B : Type}
    (p : Prog (Exc A)) (f : A -> Prog (Exc B)) :
  only P p -> (forall a, only P (f a)) -> only P (try_ p f).
Proof.
  intros Hp Hf. apply only_bind; [exact Hp|].
  intros [a | m]; [apply Hf | exact I].
Qed.

Lemma only_call (P : forall X : Type, Eff X -> Prop) {X : Type} (e : Eff X) :
  P X e -> only P (call e).
Proof. intros He. split; [exact He | intros x; exact I]. Qed.

Lemma only_forEach (P : forall X : Type, Eff X -> Prop) {A : Type}
    (xs : list A) (body : A -> Prog (Exc unit)) :
  (forall x, only P (body x)) -> only P (forEach xs body).
Proof.
  intros Hbody. induction xs as [|x xs IH]; [exact I|].
  simpl. apply only_try; [apply Hbody | intros _; exact IH].
Qed.

Ltac only_tac :=
  repeat first
    [ exact I
    | reflexivity
    | apply only_try
    | apply only_bind
    | apply only_call
    | apply only_forEach
    | progress intros
    | match goal with
      | |- only _ (if ?b then _ else _) => destruct b
      | |- only _ (match ?x with _ => _ end) => destruct x
      | |- only _ (let '(_, _) := ?x in _) => destruct x
      end
    | progress cbn beta iota delta [stepEffect keepsFiles] ].

Lemma measureLoop_step (todo : nat) (c : Ctx) (perfUrl perfMethod : option JsValue)
    (acc : list Z) :
  only stepEffect (measureLoop todo c perfUrl perfMethod acc).
Proof.
  revert acc. induction todo as [|n IH]; intros acc; [exact I|].
  cbn [measureLoop]. only_tac. apply IH.
Qed.

Lemma compareScreenshot_step (c : Ctx) (resolved : list JsValue) :
  only stepEffect (compareScreenshot c resolved).
Proof. unfold compareScreenshot. only_tac. Qed.

Lemma execute_step (env rowParams : Row) (c : Ctx) (step : TemplateStep) :
  only stepEffect (execute env c step rowParams).
Proof.
  unfold execute. only_tac. unfold dispatch. only_tac.
  unfold builtin. only_tac;
    first [apply measureLoop_step | apply compareScreenshot_step].
Qed.

Lemma runTemplates_step (env : Row) (config : TestConfig) (testNumber : Z)
    (c : Ctx) (rowParams : Row) :
  only stepEffect (runTemplates env config testNumber c rowParams).
Proof. unfold runTemplates. only_tac; apply execute_step. Qed.

Lemma diffOnFailure_step (snapshotName : string) (screenshotPath : Path) :
  only stepEffect (diffOnFailure snapshotName screenshotPath).
Proof. unfold diffOnFailure. only_tac. Qed.

Lemma enrichFailure_step (testNumber : Z) (c : Ctx) (rowParams : Row)
    (screenshotPath : Path) :
  only stepEffect (enrichFailure testNumber c rowParams screenshotPath).
Proof. unfold enrichFailure. only_tac; apply diffOnFailure_step. Qed.

Lemma sameRun_refl (w : World) : sameRun w w.
Proof. repeat split. Qed.

Lemma sameRun_trans (w1 w2 w3 : World) :
  sameRun w1 w2 -> sameRun w2 w3 -> sameRun w1 w3.
Proof. unfold sameRun. intros (-> & -> & ->) (-> & -> & ->). auto. Qed.

Lemma stepEffect_handle (host : Host) {X : Type} (e : Eff X) (w : World) :
  stepEffect X e ->
  sameRun w (handle host e w).2 /\
  exists evs, trace (handle host e w).2 = trace w ++ evs /\
              Forall (fun ev => stepEvent ev = true) evs.
Proof.
  intros He. split.
  - destruct e; try contradiction; try (repeat split; fail).
    cbn [handle]. destruct (screenshotReply _ _ _ _), file; repeat split.
  - destruct e; try contradiction; cbn [handle]; world_simpl;
      try (exists []; split; [now rewrite app_nil_r | constructor]; fail);
      try (eexists [_]; split; [reflexivity | repeat constructor]; fail).
    + destruct (screenshotReply _ _ _ _), file; world_simpl;
        (eexists [_]; split; [reflexivity | repeat constructor]).
    + eexists [_]. split; [reflexivity|]. repeat constructor.
      simpl in *. now rewrite He.
Qed.

(** A program made of step calls leaves contexts and results as they
    are and adds only step events to the trace. *)
Lemma only_step_frame (host : Host) {A : Type} (p : Prog A) :
  only stepEffect p ->
  forall w,
    sameRun w (run host p w).2 /\
    exists evs, trace (run host p w).2 = trace w ++ evs /\
                Forall (fun ev => stepEvent ev = true) evs.
Proof.
  induction p as [a | X e k IH]; intros Hp w.
  - split; [apply sameRun_refl|]. exists []. split; [now rewrite app_nil_r | constructor].
  - destruct Hp as [He Hk]. cbn [run].
    destruct (stepEffect_handle host e w He) as (Hs1 & evs1 & Ht1 & Hq1).
    destruct (handle host e w) as [x w1]. cbn [snd] in *.
    destruct (IH x (Hk x) w1) as (Hs2 & evs2 & Ht2 & Hq2).
    split; [eapply sameRun_trans; eassumption|].
    exists (evs1 ++ evs2). split.
    + now rewrite Ht2, Ht1, app_assoc.
    + now apply Forall_app.
Qed.

Lemma stepEvents_sessions (evs : list Event) :
  Forall (fun ev => stepEvent ev = true) evs -> sessionsOf evs = [].
Proof.
  induction 1 as [|ev evs Hev _ IH]; [reflexivity|].
  unfold sessionsOf in *. simpl. rewrite IH. now destruct ev.
Qed.

Lemma stepEvents_outcomes (evs : list Event) :
  Forall (fun ev => stepEvent ev = true) evs -> outcomesOf evs = [].
Proof.
  induction 1 as [|ev evs Hev _ IH]; [reflexivity|].
  destruct ev as [| | | | | | | |l]; simpl; try exact IH.
  simpl in Hev. apply negb_true_iff in Hev. now rewrite Hev.
Qed.

Lemma sessionsOf_app (a b : list Event) :
  sessionsOf (a ++ b) = sessionsOf a ++ sessionsOf b.
Proof. apply List.filter_app. Qed.

Lemma outcomesOf_app (a b : list Event) :
  outcomesOf (a ++ b) = outcomesOf a ++ outcomesOf b.
Proof.
  induction a as [|ev a IH]; [reflexivity|].
  destruct ev as [| | | | | | | |l]; simpl; try exact IH.
  destruct (outcomeLine l); simpl; now rewrite IH.
Qed.

Lemma enrichFailure_keepsFiles (testNumber : Z) (c : Ctx) (rowParams : Row)
    (screenshotPath : Path) :
  only keepsFiles (enrichFailure testNumber c rowParams screenshotPath).
Proof. unfold enrichFailure. only_tac. Qed.

Lemma writeFile_keeps (fs : FileSystem) (p q : Path) (b : Buffer) :
  is_Some (lookupFile fs q) -> is_Some (lookupFile (writeFile fs p b).2 q).
Proof.
  intros Hq. unfold writeFile. destruct (resolve fs p) as [at_p|]; [|exact Hq].
  destruct (writeAt (root fs) at_p b) as [e | t] eqn:E; [exact Hq|].
  cbn [snd]. rewrite lookupFile_fileAt in *.
  change (resolve (withRoot fs t) q) with (resolve fs q).
  destruct (resolve fs q) as [at_q|]; [|exact Hq]. cbn in *.
  rewrite (fileAt_writeAt _ _ _ _ _ E). case_decide; eauto.
Qed.

Lemma ensureDir_keeps_files (fs : FileSystem) (d : Dir) (q : Path) :
  lookupFile (ensureDir fs d).2 q = lookupFile fs q.
Proof.
  unfold ensureDir. destruct (mkdirs (root fs) (dirPath fs d)) as [e | t] eqn:E;
    [reflexivity|].
  cbn [snd]. apply lookupFile_same; [reflexivity|].
  intros at_q. exact (fileAt_mkdirs _ _ _ _ E).
Qed.

Lemma keepsFiles_handle (host : Host) {X : Type} (e : Eff X) (w : World) (q : Path) :
  keepsFiles X e ->
  is_Some (lookupFile (files w) q) ->
  is_Some (lookupFile (files (handle host e w).2) q).
Proof.
  intros He Hq. destruct e; try contradiction; cbn [handle]; world_simpl;
    try exact Hq.
  - destruct file; [contradiction|].
    destruct (screenshotReply _ _ _ _); world_simpl; exact Hq.
  - now rewrite ensureDir_keeps_files.
  - now apply writeFile_keeps.
Qed.

Lemma only_keepsFiles (host : Host) {A : Type} (p : Prog A) (q : Path) :
  only keepsFiles p ->
  forall w, is_Some (lookupFile (files w) q) ->
            is_Some (lookupFile (files (run host p w).2) q).
Proof.
  induction p as [a | X e k IH]; intros Hp w Hq; [exact Hq|].
  destruct Hp as [He Hk]. cbn [run].
  pose proof (keepsFiles_handle host e w q He Hq) as H1.
  destruct (handle host e w) as [x w1]. now apply IH.
Qed.

(** The events of the templates of one attempt: step events, which
    begin with the first template and its first step. *)
Lemma runTemplates_events (host : Host) (env : Row) (config : TestConfig)
    (testNumber : Z) (c : Ctx) (rowParams : Row) (w : World) :
  sameRun w (run host (runTemplates env config testNumber c rowParams) w).2 /\
  exists evs,
    trace (run host (runTemplates env config testNumber c rowParams) w).2
      = trace w ++ evs /\
    Forall (fun ev => stepEvent ev = true) evs /\
    attemptOpening host env config testNumber rowParams evs.
Proof.
  pose proof (runTemplates_step env config testNumber c rowParams) as Hstep.
  destruct (only_step_frame host _ Hstep w) as (Hsame & evs & Htr & Hq).
  split; [exact Hsame|]. exists evs. split; [exact Htr|]. split; [exact Hq|].
  intros t0 Hhead. unfold runTemplates in *.
  destruct (templatesToRun config) as [|t later]; [discriminate|].
  injection Hhead as ->. cbn [forEach try_ bind call] in *.
  destruct Hstep as [_ Hk]. rewrite run_vis in Htr. cbn [handle fst snd] in Htr.
  specialize (Hk tt). split.
  - match type of Htr with
    | trace (run host ?p ?w1).2 = _ =>
        destruct (only_step_frame host p Hk w1) as (_ & evs' & Htr' & _)
    end.
    rewrite Htr' in Htr. world_simpl in Htr. rewrite <- app_assoc in Htr.
    apply app_inv_head in Htr. now subst evs.
  - intros tmpl step0 resolved Hstore Hsteps Hres.
    destruct (steps tmpl) as [|s0 more] eqn:Esteps; [discriminate|].
    injection Hsteps as ->.
    destruct Hk as [_ Hk]. rewrite run_vis in Htr. cbn [handle fst snd] in Htr.
    world_simpl in Htr. rewrite Hstore in Htr. specialize (Hk (Normal (Some tmpl))).
    cbn iota beta in Htr, Hk. rewrite Esteps in Htr, Hk.
    cbn [forEach try_ bind] in Htr, Hk.
    unfold execute in Htr, Hk. rewrite Hres in Htr, Hk.
    cbn [bind call] in Htr, Hk. destruct Hk as [_ Hk].
    rewrite run_vis in Htr. cbn [handle fst snd] in Htr. specialize (Hk tt).
    match type of Htr with
    | trace (run host ?p ?w1).2 = _ =>
        destruct (only_step_frame host p Hk w1) as (_ & evs' & Htr' & _)
    end.
    rewrite Htr' in Htr. world_simpl in Htr. rewrite <- !app_assoc in Htr.
    apply app_inv_head in Htr. now subst evs.
Qed.

Lemma attemptOpening_app (host : Host) (env : Row) (config : TestConfig)
    (testNumber : Z) (rowParams : Row) (evs more : list Event) :
  attemptOpening host env config testNumber rowParams evs ->
  attemptOpening host env config testNumber rowParams (evs ++ more).
Proof.
  intros Hopen t0 Ht0. destruct (Hopen t0 Ht0) as [H0 H1]. split.
  - now apply lookup_app_l_Some.
  - intros tmpl step0 resolved Hstore Hsteps Hres.
    apply lookup_app_l_Some. eapply H1; eassumption.
Qed.


(** ** One attempt *)

Lemma includes_nul_failFile (testId : string) (now : Z) :
  JsString.includes testId nul = false ->
  JsString.includes (failFile testId now) nul = false.
Proof.
  intros H. unfold failFile, nul. rewrite !includes_char_app.
  fold nul. rewrite H.
  pose proof (flatName_pretty now) as Hp. unfold flatName in Hp.
  apply andb_true_iff in Hp as [_ Hp]. apply negb_true_iff in Hp. rewrite Hp.
  reflexivity.
Qed.

Section Attempt.
Context (host : Host) (env : Row) (config : TestConfig).
Context (testNumber maxRetries : Z) (contextOptions : ContextOptions).
Context (testId testName : string) (rowParams : Row).

(** The end of an attempt whose failure screenshot, if one is asked
    for, can be taken. *)
Lemma settleAttempt_spec (attempt : Z) (c : Ctx) (startTime : Z)
    (outcome : Exc unit) (w : World) :
  (forall m, outcome = Thrown m -> maxRetries <= attempt ->
             exists b, failureShot host testId c w = Normal b) ->
  exists ctl w' line evs,
    run host (settleAttempt config testNumber maxRetries testId testName
                rowParams attempt c startTime outcome) w = (Normal ctl, w') /\
    trace w' = trace w ++ evs ++ [EvClose c] /\
    sessionsOf evs = [] /\ outcomesOf evs = [line] /\
    nextCtx w' = nextCtx w /\
    settled testNumber maxRetries testId attempt outcome ctl line (reported w) w'.
Proof.
  intros Hshot. unfold settleAttempt, settled. destruct outcome as [[] | m].
  - do 6 run_step. cbn [run].
    eexists _, _, _, [_; _]. split; [reflexivity|]. world_simpl.
    rewrite <- !app_assoc. split; [reflexivity|].
    split; [reflexivity|]. split; [reflexivity|]. split; [reflexivity|].
    split; [reflexivity|]. split; [reflexivity|]. eexists. repeat split.
  - destruct (Z.ltb_spec attempt maxRetries) as [Hlt | Hge].
    + do 2 run_step. cbn [run].
      eexists _, _, _, [_]. split; [reflexivity|]. world_simpl.
      rewrite <- !app_assoc. repeat split.
    + do 3 run_step.
      destruct (Hshot m eq_refl Hge) as [b Hb]. unfold failureShot in Hb.
      rewrite Hb. world_simpl. run_step.
      match goal with
      | |- context [run host (enrichFailure ?tn ?c ?rp ?sp) ?w0] =>
          destruct (only_step_frame host _ (enrichFailure_step tn c rp sp) w0)
            as ((_ & Hnext & Hrep) & evs & Htr & Hq);
          pose proof (only_keepsFiles host _ sp
                        (enrichFailure_keepsFiles tn c rp sp) w0) as Hkeep;
          destruct (run host (enrichFailure tn c rp sp) w0) as [found w1]
      end.
      cbn [snd] in *. world_simpl in Hnext. world_simpl in Hrep.
      world_simpl in Htr. world_simpl in Hkeep.
      do 4 run_step. cbn [run].
      eexists _, _, _, ([_; _] ++ evs ++ [_]).
      split; [reflexivity|]. world_simpl. rewrite Htr, Hrep, Hnext.
      split; [now rewrite <- !app_assoc|].
      split.
      { rewrite !sessionsOf_app, (stepEvents_sessions evs Hq). reflexivity. }
      split.
      { rewrite !outcomesOf_app, (stepEvents_outcomes evs Hq). reflexivity. }
      split; [reflexivity|]. split; [reflexivity|]. split; [reflexivity|].
      eexists. split; [reflexivity|]. cbn [status result_error result_id screenshot].
      repeat split. eexists. split; [reflexivity|].
      intros Hid. apply Hkeep. rewrite lookupFile_saveShot; [eauto|].
      unfold resolve. cbn [fst snd].
      rewrite (includes_nul_failFile _ _ Hid). eauto.
Qed.

(** The end of the last attempt when its failure screenshot cannot be
    taken: the error of the screenshot leaves the [catch] block, no
    result is recorded, and the context is not closed. *)
Lemma settleAttempt_lost (attempt : Z) (c : Ctx) (startTime : Z)
    (m e : string) (w : World) :
  maxRetries <= attempt ->
  failureShot host testId c w = Thrown e ->
  exists w',
    run host (settleAttempt config testNumber maxRetries testId testName
                rowParams attempt c startTime (Thrown m)) w = (Thrown e, w') /\
    trace w' = trace w ++ [EvLog (LogFAIL testNumber m); EvShot c] /\
    reported w' = reported w /\ openContexts w' = openContexts w /\
    nextCtx w' = nextCtx w /\ files w' = files w.
Proof.
  intros Hge Hshot. unfold settleAttempt.
  destruct (Z.ltb_spec attempt maxRetries) as [Hlt | _]; [lia|].
  do 3 run_step. unfold failureShot in Hshot. rewrite Hshot. world_simpl.
  eexists. split; [reflexivity|]. world_simpl. rewrite <- !app_assoc.
  repeat split.
Qed.

(** The start of an attempt: the retry line, the new context, the
    start time. *)
Lemma attemptOnce_start (attempt : Z) (w : World) :
  run host (attemptOnce env config testNumber maxRetries contextOptions
              testId testName rowParams attempt) w =
  let '(outcome, wt) := attemptBody host env config testNumber rowParams attempt w in
  run host (settleAttempt config testNumber maxRetries testId testName rowParams
              attempt (nextCtx w)
              (clock host (S (ticks (if 0 <? attempt
                                     then emit (tick w) (EvLog (LogRetry testNumber attempt))
                                     else w))))
              outcome) wt.
Proof.
  unfold attemptOnce, attemptBody, attemptStart. rewrite run_bind.
  destruct (0 <? attempt); cbn [run call handle]; world_simpl;
    do 2 run_step; rewrite run_bind; reflexivity.
Qed.

Lemma attemptStart_facts (attempt : Z) (w : World) :
  exists pre,
    trace (attemptStart testNumber attempt w) = trace w ++ pre ++ [EvOpen (nextCtx w)] /\
    sessionsOf pre = [] /\ outcomesOf pre = [] /\
    nextCtx (attemptStart testNumber attempt w) = S (nextCtx w) /\
    reported (attemptStart testNumber attempt w) = reported w /\
    openContexts (attemptStart testNumber attempt w) = nextCtx w :: openContexts w.
Proof.
  unfold attemptStart. destruct (0 <? attempt); world_simpl.
  - exists [EvLog (LogRetry testNumber attempt)]. rewrite <- !app_assoc.
    repeat split.
  - exists []. repeat split.
Qed.

(** One attempt, from the retry line to the closing of its context. *)
Lemma attemptOnce_spec (attempt : Z) (w : World) :
  (forall m,
     (attemptBody host env config testNumber rowParams attempt w).1 = Thrown m ->
     maxRetries <= attempt ->
     exists b,
       failureShot host testId (nextCtx w)
         (attemptBody host env config testNumber rowParams attempt w).2 = Normal b) ->
  exists ctl w' seg line,
    run host (attemptOnce env config testNumber maxRetries contextOptions
                testId testName rowParams attempt) w = (Normal ctl, w') /\
    trace w' = trace w ++ seg /\
    nextCtx w' = S (nextCtx w) /\
    attemptEvents (attemptOpening host env config testNumber rowParams) (nextCtx w) line seg /\
    settled testNumber maxRetries testId attempt
      (attemptBody host env config testNumber rowParams attempt w).1
      ctl line (reported w) w'.
Proof.
  intros Hshot. rewrite attemptOnce_start.
  destruct (attemptStart_facts attempt w) as (pre & Htr1 & Hs1 & Ho1 & Hnext1 & Hrep1 & _).
  unfold attemptBody in *.
  destruct (runTemplates_events host env config testNumber (nextCtx w) rowParams
              (attemptStart testNumber attempt w))
    as ((_ & Hnext2 & Hrep2) & evs2 & Htr2 & Hq2 & Hhead).
  destruct (run host (runTemplates env config testNumber (nextCtx w) rowParams)
              (attemptStart testNumber attempt w)) as [outcome w2].
  cbn [fst snd] in *.
  match goal with
  | |- context [settleAttempt _ _ _ _ _ _ _ _ ?st _] =>
      destruct (settleAttempt_spec attempt (nextCtx w) st outcome w2 Hshot)
        as (ctl & w' & line & evs3 & Hrun & Htr3 & Hs3 & Ho3 & Hnext3 & Hsettled)
  end.
  rewrite Hrun.
  exists ctl, w', (pre ++ [EvOpen (nextCtx w)] ++ (evs2 ++ evs3) ++ [EvClose (nextCtx w)]), line.
  split; [reflexivity|]. split.
  { rewrite Htr3, Htr2, Htr1. now rewrite <- !app_assoc. }
  split; [now rewrite Hnext3, Hnext2|].
  split.
  - exists pre, (evs2 ++ evs3). split; [reflexivity|].
    split; [exact Hs1|]. split; [exact Ho1|].
    split; [now rewrite sessionsOf_app, (stepEvents_sessions evs2 Hq2), Hs3|].
    split; [now rewrite outcomesOf_app, (stepEvents_outcomes evs2 Hq2), Ho3|].
    now apply attemptOpening_app.
  - now rewrite Hrep2, Hrep1 in Hsettled.
Qed.

(** The last attempt when its failure screenshot cannot be taken. *)
Lemma attemptOnce_lost (attempt : Z) (w : World) (m e : string) :
  (attemptBody host env config testNumber rowParams attempt w).1 = Thrown m ->
  maxRetries <= attempt ->
  failureShot host testId (nextCtx w)
    (attemptBody host env config testNumber rowParams attempt w).2 = Thrown e ->
  exists w' pre body,
    run host (attemptOnce env config testNumber maxRetries contextOptions
                testId testName rowParams attempt) w = (Thrown e, w') /\
    trace w' = trace w ++ pre ++ [EvOpen (nextCtx w)] ++ body /\
    sessionsOf pre = [] /\ outcomesOf pre = [] /\
    sessionsOf body = [] /\ outcomesOf body = [LogFAIL testNumber m] /\
    attemptOpening host env config testNumber rowParams body /\
    reported w' = reported w /\
    openContexts w' = nextCtx w :: openContexts w /\
    nextCtx w' = S (nextCtx w).
Proof.
  intros Hbody Hge Hshot. rewrite attemptOnce_start.
  destruct (attemptStart_facts attempt w)
    as (pre & Htr1 & Hs1 & Ho1 & Hnext1 & Hrep1 & Hopen1).
  unfold attemptBody in *.
  destruct (runTemplates_events host env config testNumber (nextCtx w) rowParams
              (attemptStart testNumber attempt w))
    as ((Hopen2 & Hnext2 & Hrep2) & evs2 & Htr2 & Hq2 & Hhead).
  destruct (run host (runTemplates env config testNumber (nextCtx w) rowParams)
              (attemptStart testNumber attempt w)) as [outcome w2].
  cbn [fst snd] in *. subst outcome.
  match goal with
  | |- context [settleAttempt _ _ _ _ _ _ _ _ ?st _] =>
      destruct (settleAttempt_lost attempt (nextCtx w) st m e w2 Hge Hshot)
        as (w' & Hrun & Htr3 & Hrep3 & Hopen3 & Hnext3 & _)
  end.
  rewrite Hrun.
  exists w', pre, (evs2 ++ [EvLog (LogFAIL testNumber m); EvShot (nextCtx w)]).
  split; [reflexivity|]. split.
  { rewrite Htr3, Htr2, Htr1. now rewrite <- !app_assoc. }
  split; [exact Hs1|]. split; [exact Ho1|].
  split; [now rewrite sessionsOf_app, (stepEvents_sessions evs2 Hq2)|].
  split; [now rewrite outcomesOf_app, (stepEvents_outcomes evs2 Hq2)|].
  split; [now apply attemptOpening_app|].
  split; [now rewrite Hrep3, Hrep2|].
  split; [now rewrite Hopen3, Hopen2|].
  now rewrite Hnext3, Hnext2.
Qed.

End Attempt.

(** ** One run unit *)

Lemma attemptsTrace_snoc (opening : list Event -> Prop) (outcomes : list LogLine)
    (line : LogLine) (evs seg : list Event) :
  forall c,
    attemptsTrace opening c outcomes evs ->
    attemptEvents opening (c + length outcomes)%nat line seg ->
    attemptsTrace opening c (outcomes ++ [line]) (evs ++ seg).
Proof.
  intros c H. induction H as [c | c outcome outcomes seg0 evs Hseg0 Hrest IH];
    intros Hseg.
  - cbn in *. replace (c + 0)%nat with c in Hseg by lia.
    rewrite <- (app_nil_r seg). apply attempts_next; [exact Hseg | constructor].
  - cbn [app]. rewrite <- app_assoc. apply attempts_next; [exact Hseg0|].
    apply IH. cbn [length] in Hseg.
    now replace (S c + length outcomes)%nat with (c + S (length outcomes))%nat by lia.
Qed.

Section Unit.
Context (host : Host) (env : Row) (config : TestConfig).
Context (testNumber maxRetries : Z) (contextOptions : ContextOptions).
Context (testId testName : string) (rowParams : Row).

Let opening := attemptOpening host env config testNumber rowParams.
Let attempts :=
  attemptsFrom host env config testNumber maxRetries contextOptions
               testId testName rowParams.
Let body := attemptBody host env config testNumber rowParams.
Let attemptNo :=
  attemptOnce env config testNumber maxRetries contextOptions testId testName rowParams.

(** The retry loop with [n] turns left, [attempt] being the next:
    the attempts that fail with attempts left, then the result of the
    one attempt that is not retried. *)
Lemma retry_loop (n : nat) :
  forall (attempt : Z) (w : World),
    Z.of_nat n + attempt = maxRetries + 1 -> (0 < n)%nat ->
    exists msgs wl evs,
      attempts attempt w msgs (attempt + Z.of_nat (length msgs)) wl /\
      (length msgs < n)%nat /\
      reported wl = reported w /\
      nextCtx wl = (nextCtx w + length msgs)%nat /\
      trace wl = trace w ++ evs /\
      attemptsTrace opening (nextCtx w) (LogTestFailed testNumber <$> msgs) evs /\
      run host (forRange n attempt attemptNo) w =
        (match (run host (attemptNo (attempt + Z.of_nat (length msgs))) wl).1 with
         | Normal _ => Normal tt
         | Thrown e => Thrown e
         end,
         (run host (attemptNo (attempt + Z.of_nat (length msgs))) wl).2).
Proof.
  induction n as [|n IH]; intros attempt w Hcount Hpos; [lia|].
  cbn [forRange]. rewrite run_try.
  destruct (body attempt w).1 as [[] | m] eqn:Hbody.
  - exists [], w, []. cbn [length]. replace (attempt + Z.of_nat 0) with attempt by lia.
    split.
    { apply attempts_last. intros m Hm. fold body in Hm. congruence. }
    split; [lia|]. split; [reflexivity|]. split; [lia|].
    split; [now rewrite app_nil_r|]. split; [constructor|].
    destruct (attemptOnce_spec host env config testNumber maxRetries contextOptions
                testId testName rowParams attempt w)
      as (ctl & w1 & seg & line & Hrun & _ & _ & _ & Hsettled).
    { intros m Hm. fold body in Hm. congruence. }
    fold attemptNo in Hrun. rewrite Hrun. cbn [fst snd].
    fold body in Hsettled. rewrite Hbody in Hsettled.
    destruct Hsettled as (-> & _). reflexivity.
  - destruct (Z.ltb_spec attempt maxRetries) as [Hlt | Hge].
    + destruct (attemptOnce_spec host env config testNumber maxRetries contextOptions
                  testId testName rowParams attempt w)
        as (ctl & w1 & seg & line & Hrun & Htr & Hnext & Hseg & Hsettled).
      { intros m' _ Hm'. lia. }
      fold attemptNo in Hrun. rewrite Hrun.
      fold body in Hsettled. rewrite Hbody in Hsettled.
      destruct Hsettled as (-> & Hsettled).
      apply Z.ltb_lt in Hlt. rewrite Hlt in Hsettled. apply Z.ltb_lt in Hlt.
      destruct Hsettled as (-> & Hrep).
      destruct (IH (attempt + 1) w1 ltac:(lia) ltac:(lia))
        as (msgs & wl & evs & Hat & Hlen & Hrepl & Hnextl & Htrl & Htrace & Hloop).
      exists (m :: msgs), wl, (seg ++ evs). cbn [length].
      replace (attempt + Z.of_nat (S (length msgs)))
        with (attempt + 1 + Z.of_nat (length msgs)) by lia.
      split.
      { apply attempts_retry; [exact Hbody | exact Hlt|].
        unfold afterAttempt. fold attemptNo. rewrite Hrun. exact Hat. }
      split; [lia|]. split; [now rewrite Hrepl|]. split; [lia|].
      split; [now rewrite Htrl, Htr, app_assoc|].
      split; [|exact Hloop].
      rewrite fmap_cons. apply attempts_next; [exact Hseg | now rewrite <- Hnext].
    + assert (n = 0%nat) as -> by lia.
      exists [], w, []. cbn [length]. replace (attempt + Z.of_nat 0) with attempt by lia.
      split; [apply attempts_last; intros; exact Hge|].
      split; [lia|]. split; [reflexivity|]. split; [lia|].
      split; [now rewrite app_nil_r|]. split; [constructor|].
      destruct (run host (attemptNo attempt) w) as [[ctl | e] w1]; [|reflexivity].
      cbn [fst snd]. now destruct ctl.
Qed.

(** The messages of the attempts that were retried are what their
    templates threw. *)
Lemma attemptsFrom_thrown (attempt last : Z) (w wl : World) (msgs : list string) :
  attempts attempt w msgs last wl ->
  Forall (fun m => exists a w0, (body a w0).1 = Thrown m) msgs.
Proof.
  induction 1 as [|attempt w m msgs last wl Hbody _ _ IH]; [constructor|].
  constructor; [eauto | exact IH].
Qed.

End Unit.

(** A run unit: its attempts, then the result of the one attempt that
    is not retried. *)
Lemma runRow_exact (host : Host) (env : Row)
    (config : TestConfig) (testNumber maxRetries : Z)
    (contextOptions : ContextOptions) (rows i : nat) (rowParams : Row) (w : World) :
  0 <= maxRetries ->
  exists msgs wl evs,
    attemptsFrom host env config testNumber maxRetries contextOptions
      (testIdOf config rows i) (testNameOf config rows i) rowParams
      0 (unitStart testNumber rows i w) msgs (Z.of_nat (length msgs)) wl /\
    Z.of_nat (length msgs) <= maxRetries /\
    reported wl = reported w /\
    nextCtx wl = (nextCtx w + length msgs)%nat /\
    trace wl = trace w ++
      (if (1 <? rows)%nat then [EvLog (LogRow testNumber (S i))] else []) ++ evs /\
    attemptsTrace (attemptOpening host env config testNumber rowParams) (nextCtx w)
      (LogTestFailed testNumber <$> msgs) evs /\
    run host (runRow env config testNumber maxRetries contextOptions rows i rowParams) w
    = (match (run host (attemptOnce env config testNumber maxRetries contextOptions
                          (testIdOf config rows i) (testNameOf config rows i)
                          rowParams (Z.of_nat (length msgs))) wl).1 with
       | Normal _ => Normal tt
       | Thrown e => Thrown e
       end,
       (run host (attemptOnce env config testNumber maxRetries contextOptions
                    (testIdOf config rows i) (testNameOf config rows i)
                    rowParams (Z.of_nat (length msgs))) wl).2).
Proof.
  intros Hretries. unfold runRow. rewrite run_bind.
  assert (Hpre : run host (if (1 <? rows)%nat
                           then call (Log (LogRow testNumber (S i)))
                           else Ret tt) w = (tt, unitStart testNumber rows i w) /\
                 trace (unitStart testNumber rows i w) = trace w ++
                   (if (1 <? rows)%nat then [EvLog (LogRow testNumber (S i))] else []) /\
                 nextCtx (unitStart testNumber rows i w) = nextCtx w /\
                 reported (unitStart testNumber rows i w) = reported w).
  { unfold unitStart. destruct (1 <? rows)%nat; cbn; rewrite ?app_nil_r; auto. }
  destruct Hpre as (-> & Htr1 & Hnext1 & Hrep1).
  destruct (retry_loop host env config testNumber maxRetries contextOptions
              (testIdOf config rows i) (testNameOf config rows i) rowParams
              (Z.to_nat (maxRetries + 1)) 0 (unitStart testNumber rows i w)
              ltac:(lia) ltac:(lia))
    as (msgs & wl & evs & Hat & Hlen & Hrep & Hnext & Htr & Htrace & Hloop).
  cbn [Z.add] in *. exists msgs, wl, evs.
  split; [exact Hat|]. split; [lia|]. split; [now rewrite Hrep|].
  split; [now rewrite Hnext, Hnext1|].
  split; [now rewrite Htr, Htr1, <- app_assoc|].
  split; [now rewrite <- Hnext1|]. exact Hloop.
Qed.

Lemma attemptsFrom_last (host : Host) (env : Row) (config : TestConfig)
    (testNumber maxRetries : Z) (contextOptions : ContextOptions)
    (testId testName : string) (rowParams : Row)
    (attempt last : Z) (w wl : World) (msgs : list string) :
  attemptsFrom host env config testNumber maxRetries contextOptions testId testName
    rowParams attempt w msgs last wl ->
  forall m, (attemptBody host env config testNumber rowParams last wl).1 = Thrown m ->
            maxRetries <= last.
Proof. induction 1 as [attempt w Hlast|]; [exact Hlast | assumption]. Qed.

Lemma no_close_in_open_attempt (c : Ctx) (pre body : list Event) :
  sessionsOf pre = [] -> sessionsOf body = [] ->
  ~ In (EvClose c) (pre ++ [EvOpen c] ++ body).
Proof.
  intros Hpre Hbody Hin.
  assert (H : In (EvClose c) (sessionsOf (pre ++ [EvOpen c] ++ body)))
    by (apply List.filter_In; split; [exact Hin | reflexivity]).
  rewrite !sessionsOf_app, Hpre, Hbody in H. cbn in H.
  destruct H as [H | []]. discriminate.
Qed.

(** How a run unit ends, by what the templates of its last attempt
    return and, when they throw, by the answer to the failure
    screenshot. *)
Lemma runRow_end (host : Host) (env : Row)
    (config : TestConfig) (testNumber maxRetries : Z)
    (contextOptions : ContextOptions) (testId testName : string) (rowParams : Row)
    (last : Z) (wl : World) :
  (forall m, (attemptBody host env config testNumber rowParams last wl).1 = Thrown m ->
             maxRetries <= last) ->
  last <= maxRetries ->
  let result :=
    run host (attemptOnce env config testNumber maxRetries contextOptions
                testId testName rowParams last) wl in
  match attemptBody host env config testNumber rowParams last wl with
  | (Normal _, _) =>
      exists ctl r seg,
        result.1 = Normal ctl /\
        reported result.2 = reported wl ++ [r] /\
        status r = PASS /\ result_error r = None /\ result_id r = testId /\
        trace result.2 = trace wl ++ seg /\ nextCtx result.2 = S (nextCtx wl) /\
        attemptEvents (attemptOpening host env config testNumber rowParams)
          (nextCtx wl) (LogPASS testNumber) seg
  | (Thrown m, wt) =>
      last = maxRetries /\
      match failureShot host testId (nextCtx wl) wt with
      | Normal _ =>
          exists ctl r seg shot,
            result.1 = Normal ctl /\
            reported result.2 = reported wl ++ [r] /\
            status r = FAIL /\ result_error r = Some m /\ result_id r = testId /\
            screenshot r = Some shot /\
            (JsString.includes testId nul = false ->
             is_Some (lookupFile (files result.2) shot)) /\
            trace result.2 = trace wl ++ seg /\ nextCtx result.2 = S (nextCtx wl) /\
            attemptEvents (attemptOpening host env config testNumber rowParams)
              (nextCtx wl) (LogFAIL testNumber m) seg
      | Thrown e =>
          result.1 = Thrown e /\ reported result.2 = reported wl /\
          openContexts result.2 = nextCtx wl :: openContexts wl /\
          ~ In (EvClose (nextCtx wl)) (newEvents wl result.2)
      end
  end.
Proof.
  intros Hlast Hle result. subst result.
  destruct (attemptBody host env config testNumber rowParams last wl)
    as [[[] | m] wt] eqn:Hbody.
  - destruct (attemptOnce_spec host env config testNumber maxRetries contextOptions
                testId testName rowParams last wl)
      as (ctl & w' & seg & line & Hrun & Htr & Hnext & Hseg & Hsettled).
    { intros m Hm. rewrite Hbody in Hm. discriminate. }
    rewrite Hrun. rewrite Hbody in Hsettled. cbn [fst snd] in *.
    destruct Hsettled as (_ & -> & r & Hrep & Hst & Herr & Hid).
    exists ctl, r, seg. auto 10.
  - assert (Hge : maxRetries <= last) by (apply (Hlast m); reflexivity).
    split; [lia|].
    destruct (failureShot host testId (nextCtx wl) wt) as [b | e] eqn:Hshot.
    + destruct (attemptOnce_spec host env config testNumber maxRetries contextOptions
                  testId testName rowParams last wl)
        as (ctl & w' & seg & line & Hrun & Htr & Hnext & Hseg & Hsettled).
      { intros m' _ _. rewrite Hbody. eauto. }
      rewrite Hrun. rewrite Hbody in Hsettled. cbn [fst snd] in *.
      destruct Hsettled as (_ & Hsettled).
      destruct (Z.ltb_spec last maxRetries) as [Hlt | _]; [lia|].
      destruct Hsettled as (-> & r & Hrep & Hst & Herr & Hid & shot & Hshot' & Hfile).
      exists ctl, r, seg, shot. auto 12.
    + destruct (attemptOnce_lost host env config testNumber maxRetries contextOptions
                  testId testName rowParams last wl m e)
        as (w' & pre & body & Hrun & Htr & Hs1 & _ & Hs2 & _ & _ & Hrep & Hopen & _).
      { now rewrite Hbody. }
      { exact Hge. }
      { now rewrite Hbody. }
      rewrite Hrun. cbn [fst snd]. split; [reflexivity|]. split; [exact Hrep|].
      split; [exact Hopen|].
      rewrite (newEvents_app _ _ _ Htr). now apply no_close_in_open_attempt.
Qed.

(** C2. A run unit with retry count [maxRetries >= 0] makes its
    attempts one after the other: each attempt whose templates throw
    while attempts are left announces the failure, records nothing and
    closes its context before the next attempt opens one, and every
    attempt starts with the first template and its first step. The
    unit ends with the first attempt whose templates return normally,
    or with attempt number [maxRetries], the last of [maxRetries + 1].
    When the templates of that attempt return normally, exactly one
    result is recorded, a PASS. When they throw and the failure
    screenshot is taken, exactly one result is recorded, a FAIL with
    the error of that attempt and the screenshot. When they throw and
    the failure screenshot cannot be taken, the error of the
    screenshot leaves the unit: no result is recorded, and the context
    of the attempt is never closed. *)
Theorem run_unit_attempts_and_result (host : Host) (env : Row)
    (config : TestConfig) (testNumber maxRetries : Z)
    (contextOptions : ContextOptions) (rows i : nat) (rowParams : Row) (w : World) :
  0 <= maxRetries ->
  exists (msgs : list string) (wl : World) (evs : list Event),
    attemptsFrom host env config testNumber maxRetries contextOptions
      (testIdOf config rows i) (testNameOf config rows i) rowParams
      0 (unitStart testNumber rows i w) msgs (Z.of_nat (length msgs)) wl /\
    Z.of_nat (length msgs) <= maxRetries /\
    reported wl = reported w /\
    nextCtx wl = (nextCtx w + length msgs)%nat /\
    newEvents w wl =
      (if (1 <? rows)%nat then [EvLog (LogRow testNumber (S i))] else []) ++ evs /\
    attemptsTrace (attemptOpening host env config testNumber rowParams) (nextCtx w)
      (LogTestFailed testNumber <$> msgs) evs /\
    let result :=
      run host (runRow env config testNumber maxRetries contextOptions rows i rowParams) w in
    match attemptBody host env config testNumber rowParams (Z.of_nat (length msgs)) wl with
    | (Normal _, _) =>
        result.1 = Normal tt /\
        exists r,
          reported result.2 = reported w ++ [r] /\
          status r = PASS /\ result_error r = None /\
          result_id r = testIdOf config rows i /\
          attemptEvents (attemptOpening host env config testNumber rowParams)
            (nextCtx wl) (LogPASS testNumber) (newEvents wl result.2)
    | (Thrown m, wt) =>
        Z.of_nat (length msgs) = maxRetries /\
        match failureShot host (testIdOf config rows i) (nextCtx wl) wt with
        | Normal _ =>
            result.1 = Normal tt /\
            exists r shot,
              reported result.2 = reported w ++ [r] /\
              status r = FAIL /\ result_error r = Some m /\
              result_id r = testIdOf config rows i /\
              screenshot r = Some shot /\
              (JsString.includes (testIdOf config rows i) nul = false ->
               is_Some (lookupFile (files result.2) shot)) /\
              attemptEvents (attemptOpening host env config testNumber rowParams)
                (nextCtx wl) (LogFAIL testNumber m) (newEvents wl result.2)
        | Thrown e =>
            result.1 = Thrown e /\
            reported result.2 = reported w /\
            openContexts result.2 = nextCtx wl :: openContexts wl /\
            ~ In (EvClose (nextCtx wl)) (newEvents wl result.2)
        end
    end.
Proof.
  intros Hretries.
  destruct (runRow_exact host env config testNumber maxRetries contextOptions
              rows i rowParams w Hretries)
    as (msgs & wl & evs & Hat & Hlen & Hrep & Hnext & Htr & Htrace & Hrun).
  exists msgs, wl, evs. split; [exact Hat|]. split; [exact Hlen|].
  split; [exact Hrep|]. split; [exact Hnext|].
  split; [now apply newEvents_app|]. split; [exact Htrace|].
  cbn zeta. rewrite Hrun. cbn [fst snd].
  pose proof (runRow_end host env config testNumber maxRetries contextOptions
                (testIdOf config rows i) (testNameOf config rows i) rowParams
                (Z.of_nat (length msgs)) wl
                (attemptsFrom_last _ _ _ _ _ _ _ _ _ _ _ _ _ _ Hat) Hlen) as Hend.
  cbn zeta in Hend.
  destruct (attemptBody host env config testNumber rowParams
              (Z.of_nat (length msgs)) wl) as [[[] | m] wt].
  - destruct Hend as (ctl & r & seg & -> & Hr & Hst & Herr & Hid & Htr' & _ & Hseg).
    split; [reflexivity|]. exists r. rewrite Hr, Hrep.
    rewrite (newEvents_app _ _ _ Htr'). auto.
  - destruct Hend as [Hmax Hend]. split; [exact Hmax|].
    destruct (failureShot host (testIdOf config rows i) (nextCtx wl) wt).
    + destruct Hend as (ctl & r & seg & shot & -> & Hr & Hst & Herr & Hid & Hshot &
                        Hfile & Htr' & _ & Hseg).
      split; [reflexivity|]. exists r, shot. rewrite Hr, Hrep.
      rewrite (newEvents_app _ _ _ Htr'). auto 10.
    + destruct Hend as (-> & Hr & Hopen & Hclose).
      split; [reflexivity|]. rewrite Hr, Hrep. auto.
Qed.

Lemma run_unit_attempts_and_result_witness :
  exists w',
    run Sample.crashed
        (runRow ∅ Sample.loginConfig 1 0 Sample.plainContext 1 0
                (parameters Sample.loginConfig))
        (Sample.worldWith Sample.noFiles)
    = (Thrown "page.screenshot: Target page, context or browser has been closed", w') /\
    reported w' = [] /\ openContexts w' = [0%nat].
Proof.
  destruct (run_unit_attempts_and_result Sample.crashed ∅ Sample.loginConfig
              1 0 Sample.plainContext 1 0 (parameters Sample.loginConfig)
              (Sample.worldWith Sample.noFiles))
    as (msgs & wl & evs & Hat & Hlen & _ & _ & _ & _ & Hend); [lia|].
  destruct msgs as [|m msgs]; [|cbn in Hlen; lia].
  inversion Hat; subst. cbn zeta in Hend.
  match type of Hend with
  | match ?b with _ => _ end =>
      let b' := eval vm_compute in b in change b with b' in Hend
  end.
  cbn iota beta in Hend. destruct Hend as [_ Hend].
  match type of Hend with
  | match ?b with _ => _ end =>
      let b' := eval vm_compute in b in change b with b' in Hend
  end.
  cbn iota beta in Hend. destruct Hend as (Hthrow & Hrep & Hopen & _).
  destruct (run Sample.crashed _ _) as [r w']. cbn [fst snd] in *.
  exists w'. subst r. split; [reflexivity|]. split; [exact Hrep | exact Hopen].
Defined.

(** A run unit whose failure screenshots can be taken: its attempts,
    its one result. *)
Lemma runRow_spec (host : Host) (env : Row)
    (config : TestConfig) (testNumber maxRetries : Z)
    (contextOptions : ContextOptions) (rows i : nat) (rowParams : Row) (w : World) :
  0 <= maxRetries ->
  failureShots host ->
  exists w' r msgs final evs,
    run host (runRow env config testNumber maxRetries contextOptions rows i rowParams) w
      = (Normal tt, w') /\
    reported w' = reported w ++ [r] /\
    result_id r = testIdOf config rows i /\
    newEvents w w' =
      (if (1 <? rows)%nat then [EvLog (LogRow testNumber (S i))] else []) ++ evs /\
    attemptsTrace (attemptOpening host env config testNumber rowParams) (nextCtx w)
      ((LogTestFailed testNumber <$> msgs) ++ [final]) evs /\
    Forall (fun m => exists a w0,
              (attemptBody host env config testNumber rowParams a w0).1 = Thrown m) msgs /\
    ((final = LogPASS testNumber /\ status r = PASS /\ result_error r = None /\
      Z.of_nat (length msgs) <= maxRetries /\
      exists a w0, (attemptBody host env config testNumber rowParams a w0).1 = Normal tt) \/
     (exists m, final = LogFAIL testNumber m /\ status r = FAIL /\
                result_error r = Some m /\
                Z.of_nat (length msgs) = maxRetries /\
                (exists a w0,
                   (attemptBody host env config testNumber rowParams a w0).1 = Thrown m) /\
                exists shot, screenshot r = Some shot /\
                             (JsString.includes (testIdOf config rows i) nul = false ->
                              is_Some (lookupFile (files w') shot)))).
Proof.
  intros Hretries Hshots.
  destruct (runRow_exact host env config testNumber maxRetries contextOptions
              rows i rowParams w Hretries)
    as (msgs & wl & evs & Hat & Hlen & Hrep & Hnext & Htr & Htrace & Hrun).
  pose proof (runRow_end host env config testNumber maxRetries contextOptions
                (testIdOf config rows i) (testNameOf config rows i) rowParams
                (Z.of_nat (length msgs)) wl
                (attemptsFrom_last _ _ _ _ _ _ _ _ _ _ _ _ _ _ Hat) Hlen) as Hend.
  pose proof (attemptsFrom_thrown _ _ _ _ _ _ _ _ _ _ _ _ _ _ Hat) as Hmsgs.
  cbn zeta in Hend. rewrite Hrun.
  destruct (attemptBody host env config testNumber rowParams
              (Z.of_nat (length msgs)) wl) as [[[] | m] wt] eqn:Hbody.
  - destruct Hend as (ctl & r & seg & -> & Hr & Hst & Herr & Hid & Htr' & _ & Hseg).
    eexists _, r, msgs, (LogPASS testNumber), (evs ++ seg).
    split; [reflexivity|]. split; [now rewrite Hr, Hrep|]. split; [exact Hid|].
    split; [apply newEvents_app; rewrite Htr', Htr; now rewrite <- !app_assoc|].
    split.
    { apply attemptsTrace_snoc; [exact Htrace|].
      now rewrite length_fmap, <- Hnext. }
    split; [exact Hmsgs|]. left.
    split; [reflexivity|]. split; [exact Hst|]. split; [exact Herr|].
    split; [exact Hlen|].
    exists (Z.of_nat (length msgs)), wl. now rewrite Hbody.
  - destruct Hend as [Hmax Hend].
    destruct (Hshots (S (S (ticks wt))) (nextCtx wl)
                (failFile (testIdOf config rows i) (clock host (S (ticks wt)))))
      as [b Hb].
    unfold failureShot in Hend. rewrite Hb in Hend.
    destruct Hend as (ctl & r & seg & shot & -> & Hr & Hst & Herr & Hid & Hshot &
                      Hfile & Htr' & _ & Hseg).
    eexists _, r, msgs, (LogFAIL testNumber m), (evs ++ seg).
    split; [reflexivity|]. split; [now rewrite Hr, Hrep|]. split; [exact Hid|].
    split; [apply newEvents_app; rewrite Htr', Htr; now rewrite <- !app_assoc|].
    split.
    { apply attemptsTrace_snoc; [exact Htrace|].
      now rewrite length_fmap, <- Hnext. }
    split; [exact Hmsgs|]. right. exists m.
    split; [reflexivity|]. split; [exact Hst|]. split; [exact Herr|].
    split; [exact Hmax|].
    split; [exists (Z.of_nat (length msgs)), wl; now rewrite Hbody|].
    exists shot. split; assumption.
Qed.

(** What a run unit has recorded when it returns, and when it throws. *)
Lemma runRow_returns (host : Host) (env : Row)
    (config : TestConfig) (testNumber maxRetries : Z)
    (contextOptions : ContextOptions) (rows i : nat) (rowParams : Row)
    (w w' : World) (result : Exc unit) :
  0 <= maxRetries ->
  run host (runRow env config testNumber maxRetries contextOptions rows i rowParams) w
    = (result, w') ->
  match result with
  | Normal _ =>
      exists r, reported w' = reported w ++ [r] /\ result_id r = testIdOf config rows i
  | Thrown _ => reported w' = reported w
  end.
Proof.
  intros Hretries Hrun.
  destruct (runRow_exact host env config testNumber maxRetries contextOptions
              rows i rowParams w Hretries)
    as (msgs & wl & evs & Hat & Hlen & Hrep & _ & _ & _ & Hrun').
  pose proof (runRow_end host env config testNumber maxRetries contextOptions
                (testIdOf config rows i) (testNameOf config rows i) rowParams
                (Z.of_nat (length msgs)) wl
                (attemptsFrom_last _ _ _ _ _ _ _ _ _ _ _ _ _ _ Hat) Hlen) as Hend.
  cbn zeta in Hend. rewrite Hrun in Hrun'. injection Hrun' as -> ->.
  destruct (attemptBody host env config testNumber rowParams
              (Z.of_nat (length msgs)) wl) as [[[] | m] wt].
  - destruct Hend as (ctl & r & seg & -> & Hr & _ & _ & Hid & _).
    exists r. now rewrite Hr, Hrep.
  - destruct Hend as [_ Hend].
    destruct (failureShot host (testIdOf config rows i) (nextCtx wl) wt).
    + destruct Hend as (ctl & r & seg & shot & -> & Hr & _ & _ & Hid & _).
      exists r. now rewrite Hr, Hrep.
    + destruct Hend as (-> & Hr & _). now rewrite Hr, Hrep.
Qed.

(** ** The rows of one configuration *)

Lemma contextOptionsFor_step (config : TestConfig) (testNumber : Z) :
  only stepEffect (contextOptionsFor config testNumber).
Proof. unfold contextOptionsFor. only_tac. Qed.

Section Rows.
Context (host : Host) (env : Row) (config : TestConfig).
Context (testNumber maxRetries : Z) (contextOptions : ContextOptions) (total : nat).
Hypothesis retries : 0 <= maxRetries.

Let unit := runRow env config testNumber maxRetries contextOptions total.

(** The loop over the data rows when the failure screenshots can be
    taken: one unit and one result per row. *)
Lemma run_rows (rows : list Row) :
  failureShots host ->
  forall (first : nat) (w : World),
    exists w' rs,
      run host (forEach (imap (fun j row => ((first + j)%nat, row)) rows)
                  (fun row => unit row.1 row.2)) w
        = (Normal tt, w') /\
      unitsRun host unit first rows w w' /\
      reported w' = reported w ++ rs /\
      result_id <$> rs = testIdOf config total <$> seq first (length rows).
Proof.
  intros shots. induction rows as [|row rows IH]; intros first w.
  - exists w, []. split; [reflexivity|]. split; [constructor|].
    split; [now rewrite app_nil_r | reflexivity].
  - rewrite imap_cons, run_forEach_cons. cbn [fst snd].
    replace (first + 0)%nat with first by lia.
    destruct (runRow_spec host env config testNumber
                maxRetries contextOptions total first row w retries shots)
      as (w1 & r & _ & _ & _ & Hrun1 & Hrep1 & Hid1 & _).
    fold unit in Hrun1. rewrite Hrun1.
    destruct (IH (S first) w1) as (w' & rs & Hrun & Hunits & Hrep & Hids).
    exists w', (r :: rs). split.
    + rewrite <- Hrun. f_equal. f_equal. apply imap_ext.
      intros j x _. simpl. f_equal. lia.
    + split; [econstructor; eassumption|].
      split; [now rewrite Hrep, Hrep1, <- app_assoc|].
      rewrite fmap_cons. cbn [length seq]. rewrite fmap_cons.
      now rewrite Hid1, Hids.
Qed.

(** The units that returned have recorded one result each. *)
Lemma unitsRun_results (rows : list Row) (first : nat) (w w' : World) :
  unitsRun host unit first rows w w' ->
  exists rs, reported w' = reported w ++ rs /\ length rs = length rows.
Proof.
  induction 1 as [i w | i row rows w w1 w2 Hrun _ IH].
  - exists []. split; [now rewrite app_nil_r | reflexivity].
  - destruct IH as (rs & Hrep & Hlen).
    pose proof (runRow_returns host env config testNumber maxRetries contextOptions
                  total i row w w1 (Normal tt) retries Hrun) as (r & Hr & _).
    exists (r :: rs). split; [now rewrite Hrep, Hr, <- app_assoc|].
    cbn [length]. now rewrite Hlen.
Qed.

(** A unit that throws ends the loop: the rows after it are not run. *)
Lemma run_rows_cut (before : list Row) (first : nat) (w w2 : World) :
  unitsRun host unit first before w w2 ->
  forall (row : Row) (later : list Row) (e : string) (w3 : World),
    run host (unit (first + length before)%nat row) w2 = (Thrown e, w3) ->
    run host (forEach (imap (fun j row => ((first + j)%nat, row))
                            (before ++ row :: later))
                (fun row => unit row.1 row.2)) w
      = (Thrown e, w3).
Proof.
  induction 1 as [i w | i row0 rows w w1 w2 Hrun _ IH]; intros row later e w3 Hthrow.
  - cbn [app length] in *. rewrite imap_cons, run_forEach_cons. cbn [fst snd].
    now rewrite Hthrow.
  - cbn [app]. rewrite imap_cons, run_forEach_cons. cbn [fst snd].
    replace (i + 0)%nat with i by lia. rewrite Hrun.
    rewrite <- (IH row later e w3).
    + f_equal. f_equal. apply imap_ext. intros j x _. simpl. f_equal. lia.
    + rewrite <- Hthrow. f_equal. f_equal. cbn [length]. lia.
Qed.

End Rows.

(** C4. A configuration with a data source. When the source loads
    [N] rows, unit [i] is run with the [i]-th row merged over the
    default parameters (a key of the row wins over the same key of the
    defaults), one unit after the other. When the failure screenshots
    can be taken, all [N] units are run and exactly [N] results are
    recorded. When a unit throws (as it does when its failure
    screenshot cannot be taken), [runSingleTest] throws with it: the
    rows after it are not run, and the results recorded are those of
    the units before it, fewer than [N]. When the load throws, exactly
    one result is recorded, the FAIL result of the load with the
    message "Failed to load data: " and the error, no context is ever
    opened, and [runSingleTest] returns normally, so that the caller
    goes on with the next configuration. *)
Theorem data_rows_fan_out (host : Host) (env : Row) (config : TestConfig)
    (testNumber totalTests maxRetries : Z) (file : string) (w : World) :
  0 <= maxRetries ->
  data config = Some file -> file <> "" ->
  (forall loaded,
     dataSource host (2 + ticks w) file = Normal loaded ->
     let rows := (fun row => row ∪ parameters config) <$> loaded in
     let contextOptions := (beforeRows host config testNumber totalTests w).1 in
     let w1 := (beforeRows host config testNumber totalTests w).2 in
     reported w1 = reported w /\
     (forall row k,
        (row ∪ parameters config) !! k =
        match row !! k with
        | Some v => Some v
        | None => parameters config !! k
        end) /\
     (failureShots host ->
      exists w' rs,
        run host (runSingleTest env config testNumber totalTests maxRetries) w
          = (Normal tt, w') /\
        unitsRun host
          (runRow env config testNumber maxRetries contextOptions (length loaded))
          0 rows w1 w' /\
        reported w' = reported w ++ rs /\
        length rs = length loaded) /\
     (forall before row later w2 e w3,
        rows = before ++ row :: later ->
        unitsRun host
          (runRow env config testNumber maxRetries contextOptions (length loaded))
          0 before w1 w2 ->
        run host (runRow env config testNumber maxRetries contextOptions
                    (length loaded) (length before) row) w2 = (Thrown e, w3) ->
        run host (runSingleTest env config testNumber totalTests maxRetries) w
          = (Thrown e, w3) /\
        exists rs, reported w3 = reported w ++ rs /\ length rs = length before)) /\
  (forall message,
     dataSource host (2 + ticks w) file = Thrown message ->
     exists w' r,
       run host (runSingleTest env config testNumber totalTests maxRetries) w
         = (Normal tt, w') /\
       reported w' = reported w ++ [r] /\
       status r = FAIL /\
       result_error r = Some ("Failed to load data: " +:+ message) /\
       result_id r = config_id config /\
       screenshot r = None /\
       sessionsOf (newEvents w w') = []).
Proof.
  intros Hretries Hdata Hfile. split.
  - intros loaded Hload rows contextOptions w1.
    assert (Hstart :
              reported w1 = reported w /\
              run host (runSingleTest env config testNumber totalTests maxRetries) w
              = run host (forEach (imap (fun j row => ((0 + j)%nat, row)) rows)
                            (fun row => runRow env config testNumber maxRetries
                                          contextOptions (length loaded) row.1 row.2))
                    w1).
    { assert (Hload' : exists wload,
                reported wload = reported w /\
                beforeRows host config testNumber totalTests w
                = run host (contextOptionsFor config testNumber) wload /\
                run host (runSingleTest env config testNumber totalTests maxRetries) w
                = (let '(opts, w0) :=
                     run host (contextOptionsFor config testNumber) wload in
                   run host (forEach (imap pair rows)
                               (fun row => runRow env config testNumber maxRetries
                                             opts (length rows) row.1 row.2)) w0)).
      { eexists. split; [|split].
        2:{ unfold beforeRows. run_step. rewrite run_bind.
            unfold loadRows. rewrite Hdata, (truthy_nonempty _ Hfile).
            change (default "" (Some file)) with file.
            do 2 run_step. change (S (S (ticks w))) with (2 + ticks w)%nat.
            rewrite Hload. run_step. cbn [run]. reflexivity. }
        - reflexivity.
        - unfold runSingleTest. run_step. rewrite run_bind.
          unfold loadRows. rewrite Hdata, (truthy_nonempty _ Hfile).
          change (default "" (Some file)) with file.
          do 2 run_step. change (S (S (ticks w))) with (2 + ticks w)%nat.
          rewrite Hload. run_step. cbn [run]. rewrite run_bind. reflexivity. }
      destruct Hload' as (wload & Hrepl & Hb & Hr).
      subst contextOptions w1. rewrite Hb, Hr.
      destruct (only_step_frame host _
                  (contextOptionsFor_step config testNumber) wload)
        as ((_ & _ & Hrep0) & _).
      destruct (run host (contextOptionsFor config testNumber) wload) as [opts w0].
      cbn [fst snd] in *. split; [now rewrite Hrep0|].
      subst rows. now rewrite length_fmap. }
    destruct Hstart as (Hrep0 & Hrun0).
    split; [exact Hrep0|]. split.
    { intros row k. rewrite lookup_union.
      now destruct (row !! k), (parameters config !! k). }
    split.
    + intros Hshots.
      destruct (run_rows host env config testNumber maxRetries contextOptions
                  (length loaded) Hretries rows Hshots 0%nat w1)
        as (w' & rs & Hrun & Hunits & Hrep & Hids).
      exists w', rs. split; [now rewrite Hrun0|]. split; [exact Hunits|].
      split; [now rewrite Hrep, Hrep0|].
      apply (f_equal length) in Hids. subst rows.
      now rewrite !length_fmap, length_seq in Hids.
    + intros before row later w2 e w3 Hrows Hunits Hthrow.
      split.
      * rewrite Hrun0, Hrows.
        now apply (run_rows_cut host env config testNumber maxRetries contextOptions
                     (length loaded) before 0%nat w1 w2 Hunits).
      * destruct (unitsRun_results host env config testNumber maxRetries
                    contextOptions (length loaded) Hretries before 0%nat w1 w2 Hunits)
          as (rs & Hrep & Hlen).
        pose proof (runRow_returns host env config testNumber maxRetries contextOptions
                      (length loaded) (length before) row w2 w3 (Thrown e)
                      Hretries Hthrow) as Hr.
        cbn in Hr. exists rs. split; [now rewrite Hr, Hrep, Hrep0 | exact Hlen].
  - intros message Hload. unfold runSingleTest. run_step. rewrite run_bind.
    unfold loadRows. rewrite Hdata, (truthy_nonempty _ Hfile).
    change (default "" (Some file)) with file.
    do 2 run_step. change (S (S (ticks w))) with (2 + ticks w)%nat.
    rewrite Hload. do 3 run_step. cbn [run].
    eexists _, _. split; [reflexivity|]. world_simpl.
    split; [reflexivity|].
    split; [reflexivity|]. split; [reflexivity|]. split; [reflexivity|].
    split; [reflexivity|].
    unfold newEvents. world_simpl.
    rewrite <- !app_assoc. now rewrite drop_app_length.
Qed.

Lemma data_rows_fan_out_witness :
  exists w',
    run Sample.crashed (runSingleTest ∅ Sample.loginConfig 1 1 0)
        (Sample.worldWith Sample.noFiles)
    = (Thrown "page.screenshot: Target page, context or browser has been closed", w') /\
    length Sample.users = 2%nat /\ reported w' = [].
Proof.
  destruct (data_rows_fan_out Sample.crashed ∅ Sample.loginConfig 1 1 0
              "users.json" (Sample.worldWith Sample.noFiles))
    as [Hrows _].
  - lia.
  - reflexivity.
  - discriminate.
  - destruct (Hrows Sample.users eq_refl) as (_ & _ & _ & Hcut).
    set (w1 := (beforeRows Sample.crashed Sample.loginConfig 1 1
                  (Sample.worldWith Sample.noFiles)).2) in *.
    set (opts := (beforeRows Sample.crashed Sample.loginConfig 1 1
                    (Sample.worldWith Sample.noFiles)).1) in *.
    set (alice := ({[ "username" := "alice" ]} : Row) ∪ parameters Sample.loginConfig).
    set (bob := ({[ "username" := "bob" ]} : Row) ∪ parameters Sample.loginConfig).
    destruct (Hcut [] alice [bob] w1
                "page.screenshot: Target page, context or browser has been closed"
                (run Sample.crashed
                     (runRow ∅ Sample.loginConfig 1 0 opts 2 0 alice) w1).2)
      as (Hrun & rs & Hrep & Hlen).
    + reflexivity.
    + constructor.
    + apply injective_projections; [vm_compute; reflexivity | reflexivity].
    + eexists. split; [exact Hrun|]. split; [reflexivity|].
      destruct rs; [|discriminate]. now rewrite Hrep.
Defined.
(** ** Errors of placeholder resolution *)

Lemma resolveParam_throws (env rowParams : Row) (value m : string) :
  resolveParam env value rowParams = Thrown m ->
  exists envVar, m = envUndefinedMessage envVar.
Proof.
  unfold resolveParam.
  destruct (negb _ || negb _); [discriminate|].
  destruct (JsString.startsWith _ "env.").
  - destruct (propertyOf env _); [discriminate|]. intros [= <-]. eauto.
  - destruct (propertyOf rowParams _); discriminate.
Qed.

Lemma resolveParams_throws_env (env rowParams : Row) (values : list string) (m : string) :
  resolveParams env values rowParams = Thrown m ->
  exists envVar, m = envUndefinedMessage envVar.
Proof.
  induction values as [|v rest IH]; simpl; [discriminate|].
  destruct (resolveParam env v rowParams) as [r | m0] eqn:E.
  - destruct (resolveParams env rest rowParams); [discriminate|].
    intros [= <-]. now apply IH.
  - intros [= <-]. now apply resolveParam_throws in E.
Qed.

(** Templates whose first step cannot be resolved throw the
    resolution error as it is, in whatever world they start. *)
Lemma runTemplates_unresolved (host : Host) (env : Row) (config : TestConfig)
    (testNumber : Z) (rowParams : Row) (t0 : option string)
    (later : list (option string)) (tmpl : Template) (step0 : TemplateStep)
    (more : list TemplateStep) (m : string) (c : Ctx) (w : World) :
  templatesToRun config = t0 :: later ->
  (forall t, templateStore host t t0 = Normal (Some tmpl)) ->
  steps tmpl = step0 :: more ->
  resolveParams env (params step0) rowParams = Thrown m ->
  (run host (runTemplates env config testNumber c rowParams) w).1 = Thrown m.
Proof.
  intros Htemplates Hstore Hsteps Hres. unfold runTemplates.
  rewrite Htemplates, run_forEach_cons. do 2 run_step. rewrite Hstore.
  rewrite Hsteps, run_forEach_cons. unfold execute. rewrite Hres. reflexivity.
Qed.

(** C10. Placeholder resolution happens before the [try] around the
    action: when it throws, the step ends with exactly that error (the
    message about the undefined environment variable, which does not
    start with "Step failed: "), having made no call at all, while an
    error thrown once the parameters are resolved always carries the
    prefix "Step failed: <action> - ". The scheduler treats the
    unwrapped error as any other failure of an attempt: a unit whose
    first step cannot be resolved is attempted [maxRetries + 1] times
    and recorded once, as FAIL, with that message. *)
Theorem resolution_error_is_not_wrapped (host : Host) (env rowParams : Row) :
  (forall c step m,
     resolveParams env (params step) rowParams = Thrown m ->
     execute env c step rowParams = Ret (Thrown m) /\
     (exists envVar, m = envUndefinedMessage envVar) /\
     JsString.startsWith m "Step failed: " = false) /\
  (forall c step resolved w m w',
     resolveParams env (params step) rowParams = Normal resolved ->
     run host (execute env c step rowParams) w = (Thrown m, w') ->
     exists inner, m = "Step failed: " +:+ action step +:+ " - " +:+ inner) /\
  (forall config testNumber maxRetries contextOptions rows i w
          t0 later tmpl step0 more m,
     0 <= maxRetries ->
     failureShots host ->
     templatesToRun config = t0 :: later ->
     (forall t, templateStore host t t0 = Normal (Some tmpl)) ->
     steps tmpl = step0 :: more ->
     resolveParams env (params step0) rowParams = Thrown m ->
     exists w' r msgs evs,
       run host (runRow env config testNumber maxRetries contextOptions
                   rows i rowParams) w = (Normal tt, w') /\
       reported w' = reported w ++ [r] /\
       status r = FAIL /\ result_error r = Some m /\
       newEvents w w' =
         (if (1 <? rows)%nat then [EvLog (LogRow testNumber (S i))] else []) ++ evs /\
       attemptsTrace (attemptOpening host env config testNumber rowParams) (nextCtx w)
         ((LogTestFailed testNumber <$> msgs) ++ [LogFAIL testNumber m]) evs /\
       Forall (fun m' => m' = m) msgs /\
       Z.of_nat (length msgs) = maxRetries).
Proof.
  split; [|split].
  - intros c step m Hres. split; [unfold execute; now rewrite Hres|].
    destruct (resolveParams_throws_env _ _ _ _ Hres) as [envVar ->].
    split; [eauto | reflexivity].
  - intros c step resolved w m w' Hres Hrun.
    rewrite run_execute, Hres in Hrun. cbn zeta in Hrun.
    destruct (run host (dispatch c (action step) resolved) _) as [[[] | inner] w1];
      [discriminate|].
    injection Hrun as <- _. now exists inner.
  - intros config testNumber maxRetries contextOptions rows i w
           t0 later tmpl step0 more m Hretries Hshots Htemplates Hstore Hsteps Hres.
    assert (Hbody : forall a w0,
              (attemptBody host env config testNumber rowParams a w0).1 = Thrown m).
    { intros a w0. unfold attemptBody.
      eapply runTemplates_unresolved; eassumption. }
    destruct (runRow_spec host env config testNumber maxRetries contextOptions
                rows i rowParams w Hretries Hshots)
      as (w' & r & msgs & final & evs & Hrun & Hrep & _ & Hev & Hat & Hmsgs & Hfinal).
    destruct Hfinal as [(_ & _ & _ & _ & a & w0 & Hp)
                       | (m' & -> & Hst & Herr & Hlen & (a & w0 & Hp) & _)];
      [rewrite Hbody in Hp; discriminate|].
    rewrite Hbody in Hp. injection Hp as <-.
    exists w', r, msgs, evs. repeat (split; [assumption|]).
    split; [|exact Hlen].
    eapply Forall_impl; [exact Hmsgs|]. intros m' (a' & w0' & Hm').
    rewrite Hbody in Hm'. now injection Hm'.
Qed.

Lemma resolution_error_is_not_wrapped_witness :
  execute ∅ 0%nat {| action := "type"; params := ["#password"; "{{env.PASSWORD}}"] |} ∅
  = Ret (Thrown (envUndefinedMessage "PASSWORD")).
Proof.
  destruct (resolution_error_is_not_wrapped Sample.host ∅ ∅) as [Hthrow _].
  destruct (Hthrow 0%nat
              {| action := "type"; params := ["#password"; "{{env.PASSWORD}}"] |}
              (envUndefinedMessage "PASSWORD")) as [Hexec _].
  - reflexivity.
  - exact Hexec.
Defined.

(** ** Contexts held by a call in flight *)

Lemma holds_weaken {A : Type} (p : Prog A) (Q Q' : A -> option Ctx -> Prop) :
  (forall a h, Q a h -> Q' a h) ->
  forall h, holds p h Q -> holds p h Q'.
Proof.
  intros HQ. induction p as [a | X e k IH]; intros h Hp; [now apply HQ|].
  cbn [holds] in *. destruct e; cbn [effectHolds] in *;
    try (intros x; apply IH, Hp).
  - destruct Hp as [-> Hk]. split; [reflexivity|]. intros c. apply IH, Hk.
  - destruct Hp as [-> Hk]. split; [reflexivity|]. apply IH, Hk.
Qed.

Lemma holds_bind {A B : Type} (p : Prog A) (f : A -> Prog B)
    (Q : A -> option Ctx -> Prop) (Q' : B -> option Ctx -> Prop) :
  (forall a h, Q a h -> holds (f a) h Q') ->
  forall h, holds p h Q -> holds (bind p f) h Q'.
Proof.
  intros Hf. induction p as [a | X e k IH]; intros h Hp; [now apply Hf|].
  cbn [holds bind] in *. destruct e; cbn [effectHolds] in *;
    try (intros x; apply IH, Hp).
  - destruct Hp as [-> Hk]. split; [reflexivity|]. intros c. apply IH, Hk.
  - destruct Hp as [-> Hk]. split; [reflexivity|]. apply IH, Hk.
Qed.

(** A program of step calls keeps whatever context is held. *)
Lemma only_step_holds {A : Type} (p : Prog A) :
  only stepEffect p -> forall h, holds p h (fun _ h' => h' = h).
Proof.
  induction p as [a | X e k IH]; intros Hp h; [reflexivity|].
  destruct Hp as [He Hk]. cbn [holds].
  destruct e; try contradiction; cbn [effectHolds]; intros x; apply IH, Hk.
Qed.

Lemma holds_step_then {A B : Type} (p : Prog A) (f : A -> Prog B)
    (Q : B -> option Ctx -> Prop) (h : option Ctx) :
  only stepEffect p ->
  (forall a, holds (f a) h Q) ->
  holds (bind p f) h Q.
Proof.
  intros Hp Hf. eapply holds_bind; [|apply only_step_holds, Hp].
  intros a h' ->. apply Hf.
Qed.

Ltac holds_tac :=
  repeat first
    [ progress cbn [holds effectHolds bind call try_ released]
    | progress intros
    | match goal with
      | |- _ /\ _ => split
      | |- ?x = ?x => reflexivity
      | |- True => exact I
      | |- holds (if ?b then _ else _) _ _ => destruct b
      | |- holds (match ?x with _ => _ end) _ _ => destruct x
      | |- holds (bind (if ?b then _ else _) _) _ _ => destruct b
      | |- holds (bind (match ?x with _ => _ end) _) _ _ => destruct x
      end ].

Section Discipline.
Context (env : Row) (config : TestConfig) (testNumber totalTests maxRetries : Z).

Lemma settleAttempt_holds (testId testName : string) (rowParams : Row)
    (attempt : Z) (c : Ctx) (startTime : Z) (outcome : Exc unit) :
  holds (settleAttempt config testNumber maxRetries testId testName rowParams
           attempt c startTime outcome) (Some c) released.
Proof.
  unfold settleAttempt. destruct outcome as [[] | m]; [holds_tac|].
  destruct (attempt <? maxRetries); [holds_tac|].
  cbn [holds effectHolds bind call try_]. intros _ now [buf | msg]; [|exact I].
  apply holds_step_then; [apply enrichFailure_step|]. holds_tac.
Qed.

Lemma attemptOnce_holds (contextOptions : ContextOptions)
    (testId testName : string) (rowParams : Row) (attempt : Z) :
  holds (attemptOnce env config testNumber maxRetries contextOptions
           testId testName rowParams attempt) None released.
Proof.
  unfold attemptOnce.
  assert (Hrest : holds
            (c <- call (NewContext contextOptions) ;;
             startTime <- call DateNow ;;
             outcome <- runTemplates env config testNumber c rowParams ;;
             settleAttempt config testNumber maxRetries testId testName rowParams
               attempt c startTime outcome) None released).
  { cbn [holds effectHolds bind call]. split; [reflexivity|]. intros c startTime.
    apply holds_step_then; [apply runTemplates_step|].
    intros outcome. apply settleAttempt_holds. }
  destruct (0 <? attempt); cbn [holds effectHolds bind call]; intros; exact Hrest.
Qed.

Lemma forRange_holds (body : Z -> Prog (Exc LoopCtl)) :
  (forall a, holds (body a) None released) ->
  forall n from, holds (forRange n from body) None released.
Proof.
  intros Hbody. induction n as [|n IH]; intros from; [reflexivity|].
  cbn [forRange]. unfold try_. eapply holds_bind; [|apply Hbody].
  intros [[] | m] h Hr; cbn [released] in Hr; subst; cbn [holds released]; auto.
Qed.

Lemma forEach_holds {A : Type} (body : A -> Prog (Exc unit)) :
  (forall x, holds (body x) None released) ->
  forall xs, holds (forEach xs body) None released.
Proof.
  intros Hbody. induction xs as [|x xs IH]; [reflexivity|].
  cbn [forEach]. unfold try_. eapply holds_bind; [|apply Hbody].
  intros [[] | m] h Hr; cbn [released] in Hr; subst; cbn [holds released]; auto.
Qed.

Lemma runRow_holds (contextOptions : ContextOptions) (rows i : nat) (rowParams : Row) :
  holds (runRow env config testNumber maxRetries contextOptions rows i rowParams)
        None released.
Proof.
  unfold runRow.
  destruct (1 <? rows)%nat; cbn [holds effectHolds bind call]; intros;
    apply forRange_holds; intros a; apply attemptOnce_holds.
Qed.

(** A call to [runSingleTest] starts holding no context, holds at most
    one at any time, and holds none when it returns normally. *)
Lemma runSingleTest_holds :
  holds (runSingleTest env config testNumber totalTests maxRetries) None released.
Proof.
  unfold runSingleTest. cbn [holds effectHolds bind call]. intros _.
  eapply holds_bind with (Q := fun _ h => h = None).
  - intros [dataRows|] h ->; [|reflexivity].
    apply holds_step_then; [apply contextOptionsFor_step|].
    intros contextOptions. apply forEach_holds. intros row. apply runRow_holds.
  - unfold loadRows. holds_tac.
Qed.

End Discipline.

(** ** The states of the scheduler *)

Lemma handle_keeps_contexts (host : Host) {X : Type} (e : Eff X) (w : World) :
  sessionCall e = false ->
  openContexts (handle host e w).2 = openContexts w /\
  nextCtx (handle host e w).2 = nextCtx w.
Proof.
  intros He. destruct e; try discriminate; cbn [handle]; world_simpl; auto.
  destruct (screenshotReply _ _ _ _), file; auto.
Qed.

Lemma effectHolds_other {X : Type} (e : Eff X) (h : option Ctx)
    (K : X -> option Ctx -> Prop) (x : X) :
  sessionCall e = false -> effectHolds e h K -> K x h.
Proof. intros He HK. destruct e; try discriminate; apply HK. Qed.

Lemma elem_of_insert_other {A : Type} (l : list A) (i : nat) (v x : A) :
  x ∈ l -> l !! i <> Some x -> x ∈ <[i := v]> l.
Proof.
  intros Hx Hi. apply list_elem_of_lookup in Hx as [j Hj].
  apply list_elem_of_lookup. exists j.
  rewrite list_lookup_insert_ne; [exact Hj|]. intros ->. congruence.
Qed.

Lemma elem_of_insert_inv {A : Type} (l : list A) (i : nat) (v x : A) :
  x ∈ <[i := v]> l -> x = v \/ x ∈ l.
Proof.
  intros Hx. apply list_elem_of_lookup in Hx as [j Hj].
  destruct (decide (i = j)) as [<- | Hne].
  - destruct (decide (i < length l)%nat) as [Hlt | Hge].
    + rewrite list_lookup_insert_eq in Hj by exact Hlt. left. congruence.
    + rewrite list_insert_ge in Hj by lia. right.
      apply list_elem_of_lookup. eauto.
  - rewrite list_lookup_insert_ne in Hj by exact Hne. right.
    apply list_elem_of_lookup. eauto.
Qed.

Section SchedulerInvariant.
Context (host : Host) (env : Row) (totalTests maxRetries K : Z).

Lemma disciplined_step (s s' : Sched) :
  disciplined K s -> sched_step host env totalTests maxRetries s s' ->
  disciplined K s'.
Proof.
  intros (hs & Hall & Hopen & Hnodup & Hfresh & Hlen & Hrest) Hstep.
  destruct Hstep as [s i X e k x w' Hi Hhandle | s batch rest Hdone Hnext].
  - destruct (Forall2_lookup_l _ _ _ _ _ Hall Hi) as (h & Hh & Hp).
    cbn [holds] in Hp. unfold disciplined. cbn [world inFlight notStarted].
    destruct (sessionCall e) eqn:Hses.
    + destruct e; try discriminate; cbn [effectHolds] in Hp;
        destruct Hp as [-> Hk]; cbn [handle] in Hhandle; injection Hhandle as <- <-.
      * (* a context is opened *)
        exists (<[i := Some (nextCtx (world s))]> hs). world_simpl.
        split; [apply Forall2_insert; [exact Hall | apply Hk]|].
        split.
        { intros c Hc. apply elem_of_cons in Hc as [-> | Hc].
          - apply list_elem_of_lookup. exists i.
            apply list_lookup_insert_eq. now apply lookup_lt_Some in Hh.
          - apply elem_of_insert_other; [now apply Hopen | congruence]. }
        split.
        { apply NoDup_cons. split; [|exact Hnodup].
          intros Hc. apply Hopen, Hfresh in Hc. lia. }
        split.
        { intros c Hc. apply elem_of_insert_inv in Hc as [[= ->] | Hc]; [lia|].
          apply Hfresh in Hc. lia. }
        split; [now rewrite length_insert | exact Hrest].
      * (* the context held is closed *)
        exists (<[i := None]> hs). world_simpl.
        split; [apply Forall2_insert; [exact Hall | exact Hk]|].
        split.
        { intros c' Hc'. apply list_elem_of_filter in Hc' as [Hne Hc'].
          apply elem_of_insert_other; [now apply Hopen | congruence]. }
        split; [now apply NoDup_filter|].
        split.
        { intros c' Hc'. apply elem_of_insert_inv in Hc' as [[=] | Hc'].
          now apply Hfresh. }
        split; [now rewrite length_insert | exact Hrest].
    + (* any other call *)
      destruct (handle_keeps_contexts host e (world s) Hses) as [Ho Hn].
      rewrite Hhandle in Ho, Hn. cbn [snd] in Ho, Hn.
      exists (<[i := h]> hs). rewrite Ho, Hn.
      split.
      { apply Forall2_insert; [exact Hall|].
        exact (effectHolds_other e h _ x Hses Hp). }
      rewrite (list_insert_id hs i h Hh).
      split; [exact Hopen|]. split; [exact Hnodup|]. split; [exact Hfresh|].
      split; [now rewrite length_insert | exact Hrest].
  - (* the next batch starts *)
    rewrite Hnext in Hrest. apply Forall_cons in Hrest as [Hbatch Hrest].
    assert (Hnone : forall c, Some c ∉ hs).
    { intros c Hc. apply list_elem_of_lookup in Hc as [j Hj].
      destruct (Forall2_lookup_r _ _ _ _ _ Hall Hj) as (p & Hp & Hholds).
      rewrite Forall_forall in Hdone.
      assert (p = Ret (Normal tt)) as ->
        by (apply Hdone, list_elem_of_lookup; eauto).
      discriminate Hholds. }
    exists (replicate (length batch) None). cbn [world inFlight notStarted].
    split.
    { unfold startBatch. clear. induction batch as [|t batch IH]; [constructor|].
      cbn [fmap list_fmap length replicate]. constructor; [|exact IH].
      apply runSingleTest_holds. }
    split; [intros c Hc; now apply Hopen, Hnone in Hc|].
    split; [exact Hnodup|].
    split; [intros c Hc; apply elem_of_replicate in Hc as [[=] _]|].
    split; [|exact Hrest].
    unfold startBatch. now rewrite length_fmap.
Qed.

Lemma disciplined_bound (s : Sched) :
  disciplined K s ->
  (length (openContexts (world s)) <= length (inFlight s))%nat /\
  Z.of_nat (length (inFlight s)) <= K.
Proof.
  intros (hs & Hall & Hopen & Hnodup & _ & Hlen & _). split; [|exact Hlen].
  rewrite (Forall2_length _ _ _ Hall).
  assert (Hsub : openContexts (world s) ⊆+ omap (fun h : option Ctx => h) hs).
  { apply NoDup_submseteq; [exact Hnodup|]. intros c Hc.
    apply list_elem_of_omap. exists (Some c). split; [now apply Hopen | reflexivity]. }
  apply submseteq_length in Hsub.
  assert (Hshort : (length (omap (fun h : option Ctx => h) hs) <= length hs)%nat).
  { clear. induction hs as [|[c|] hs IH]; csimpl; lia. }
  lia.
Qed.

End SchedulerInvariant.


(** ** The numbered lines of a call *)

Ltac numbered_tac :=
  repeat first
    [ exact I
    | match goal with
      | |- numbered _ _ _ =>
          cbn beta iota delta [numbered lineNumber];
          first [exact I | left; reflexivity | right; reflexivity]
      end
    | apply only_try
    | apply only_bind
    | apply only_call
    | apply only_forEach
    | progress intros
    | match goal with
      | |- only _ (if ?b then _ else _) => destruct b
      | |- only _ (match ?x with _ => _ end) => destruct x
      | |- only _ (let '(_, _) := ?x in _) => destruct x
      end ].

Lemma only_forRange (P : forall X : Type, Eff X -> Prop)
    (body : Z -> Prog (Exc LoopCtl)) :
  (forall a, only P (body a)) ->
  forall n from, only P (forRange n from body).
Proof.
  intros Hbody. induction n as [|n IH]; intros from; [exact I|].
  cbn [forRange]. apply only_try; [apply Hbody|].
  intros [|]; [apply IH | exact I].
Qed.

Lemma residual_only (P : forall X : Type, Eff X -> Prop) {A : Type} (p p' : Prog A) :
  residual p p' -> only P p -> only P p'.
Proof.
  intros H Hp. induction H as [|X e k x _ IH]; [exact Hp|].
  destruct IH as [_ Hk]. apply Hk.
Qed.

Section Numbered.
Context (n : Z).

Lemma measureLoop_numbered (todo : nat) (c : Ctx) (perfUrl perfMethod : option JsValue)
    (acc : list Z) :
  only (numbered n) (measureLoop todo c perfUrl perfMethod acc).
Proof.
  revert acc. induction todo as [|m IH]; intros acc; [exact I|].
  cbn [measureLoop]. numbered_tac. apply IH.
Qed.

Lemma compareScreenshot_numbered (c : Ctx) (resolved : list JsValue) :
  only (numbered n) (compareScreenshot c resolved).
Proof. unfold compareScreenshot. numbered_tac. Qed.

Lemma execute_numbered (env rowParams : Row) (c : Ctx) (step : TemplateStep) :
  only (numbered n) (execute env c step rowParams).
Proof.
  unfold execute. numbered_tac. unfold dispatch. numbered_tac.
  unfold builtin. numbered_tac;
    first [apply measureLoop_numbered | apply compareScreenshot_numbered].
Qed.

Lemma runTemplates_numbered (env : Row) (config : TestConfig)
    (c : Ctx) (rowParams : Row) :
  only (numbered n) (runTemplates env config n c rowParams).
Proof. unfold runTemplates. numbered_tac; apply execute_numbered. Qed.

Lemma diffOnFailure_numbered (snapshotName : string) (screenshotPath : Path) :
  only (numbered n) (diffOnFailure snapshotName screenshotPath).
Proof. unfold diffOnFailure. numbered_tac. Qed.

Lemma enrichFailure_numbered (c : Ctx) (rowParams : Row) (screenshotPath : Path) :
  only (numbered n) (enrichFailure n c rowParams screenshotPath).
Proof. unfold enrichFailure. numbered_tac; apply diffOnFailure_numbered. Qed.

Lemma settleAttempt_numbered (config : TestConfig) (maxRetries : Z)
    (testId testName : string) (rowParams : Row) (attempt : Z) (c : Ctx)
    (startTime : Z) (outcome : Exc unit) :
  only (numbered n) (settleAttempt config n maxRetries testId testName rowParams
                       attempt c startTime outcome).
Proof. unfold settleAttempt. numbered_tac; apply enrichFailure_numbered. Qed.

Lemma attemptOnce_numbered (env : Row) (config : TestConfig) (maxRetries : Z)
    (contextOptions : ContextOptions) (testId testName : string) (rowParams : Row)
    (attempt : Z) :
  only (numbered n) (attemptOnce env config n maxRetries contextOptions
                       testId testName rowParams attempt).
Proof.
  unfold attemptOnce. numbered_tac;
    first [apply execute_numbered | apply settleAttempt_numbered].
Qed.

Lemma runRow_numbered (env : Row) (config : TestConfig) (maxRetries : Z)
    (contextOptions : ContextOptions) (rows i : nat) (rowParams : Row) :
  only (numbered n) (runRow env config n maxRetries contextOptions rows i rowParams).
Proof.
  unfold runRow. numbered_tac; apply only_forRange; intros attempt;
    apply attemptOnce_numbered.
Qed.

(** A call to [runSingleTest] writes no line with another test number
    than its own. *)
Lemma runSingleTest_numbered (env : Row) (config : TestConfig)
    (totalTests maxRetries : Z) :
  only (numbered n) (runSingleTest env config n totalTests maxRetries).
Proof.
  unfold runSingleTest, loadRows, contextOptionsFor.
  numbered_tac; apply only_forRange; intros attempt; apply attemptOnce_numbered.
Qed.

End Numbered.

(** The events of one call: a console line is the event of the call
    that writes it, and no other call adds a console line. *)
Lemma handle_numbers (host : Host) {X : Type} (e : Eff X) (w : World) (n : Z) :
  numbered n X e ->
  exists evs,
    trace (handle host e w).2 = trace w ++ evs /\
    Forall (fun ev => numberOf ev = None \/ numberOf ev = Some n) evs.
Proof.
  intros He. destruct e; cbn [handle]; world_simpl;
    try (exists []; split; [now rewrite app_nil_r | constructor]; fail);
    try (eexists [_]; split; [reflexivity|]; repeat constructor; fail).
  - destruct (screenshotReply _ _ _ _), file; world_simpl;
      (eexists [_]; split; [reflexivity|]; repeat constructor).
  - eexists [_]. split; [reflexivity|]. constructor; [exact He | constructor].
Qed.

(** ** The test numbers of the batches *)

Lemma elem_of_imap_numbers (f : nat -> Z) (batch : list TestConfig) (n : Z) :
  n ∈ (imap (fun j cfg => (f j, cfg)) batch).*1 ->
  exists j, (j < length batch)%nat /\ n = f j.
Proof.
  intros H. apply list_elem_of_fmap in H as ([n' cfg] & -> & H).
  apply list_elem_of_lookup in H as [j Hj]. rewrite list_lookup_imap in Hj.
  destruct (batch !! j) as [cfg'|] eqn:E; [|discriminate].
  injection Hj as <- <-. exists j. split; [|reflexivity].
  now apply lookup_lt_Some in E.
Qed.

Lemma numberBatches_above (chunks : list (list TestConfig)) :
  forall completed j b n,
    numberBatches completed chunks !! j = Some b -> n ∈ b.*1 -> completed < n.
Proof.
  induction chunks as [|c chunks IH]; intros completed j b n Hj Hn; [discriminate|].
  cbn [numberBatches] in Hj. destruct j as [|j].
  - injection Hj as <-. apply elem_of_imap_numbers in Hn as (i & _ & ->). lia.
  - specialize (IH _ _ _ _ Hj Hn). lia.
Qed.

Lemma numberBatches_separate (chunks : list (list TestConfig)) :
  forall completed, separate (numberBatches completed chunks).
Proof.
  induction chunks as [|c chunks IH]; intros completed j j' b b' n Hj Hj' Hn Hn';
    [discriminate|].
  cbn [numberBatches] in Hj, Hj'. destruct j as [|j], j' as [|j'].
  - reflexivity.
  - injection Hj as <-. apply elem_of_imap_numbers in Hn as (i & Hi & ->).
    pose proof (numberBatches_above _ _ _ _ _ Hj' Hn'). lia.
  - injection Hj' as <-. apply elem_of_imap_numbers in Hn' as (i & Hi & ->).
    pose proof (numberBatches_above _ _ _ _ _ Hj Hn). lia.
  - f_equal. exact (IH _ _ _ _ _ _ Hj Hj' Hn Hn').
Qed.

Lemma singletons_separate (tests : list TestConfig) :
  separate (imap (fun i cfg => [(Z.of_nat i + 1, cfg)]) tests).
Proof.
  intros j j' b b' n Hj Hj' Hn Hn'. rewrite list_lookup_imap in Hj, Hj'.
  destruct (tests !! j); [|discriminate]. destruct (tests !! j'); [|discriminate].
  injection Hj as <-. injection Hj' as <-. cbn in Hn, Hn'.
  apply list_elem_of_singleton in Hn, Hn'. lia.
Qed.

Lemma batchesOf_separate (fuel : nat) (tests : list TestConfig) (K : Z)
    (batches : list (list (Z * TestConfig))) :
  batchesOf fuel tests K = Some batches -> separate batches.
Proof.
  unfold batchesOf. destruct (K =? 1).
  - intros [= <-]. apply singletons_separate.
  - destruct (chunk fuel tests K) as [chunks|]; [|discriminate].
    intros [= <-]. apply numberBatches_separate.
Qed.

Lemma batchOf_separate (batches : list (list (Z * TestConfig))) (j : nat)
    (b : list (Z * TestConfig)) (n : Z) :
  separate batches -> batches !! j = Some b -> n ∈ b.*1 ->
  batchOf batches n = Some j.
Proof.
  intros Hsep Hj Hn. unfold batchOf.
  destruct (list_find (fun batch => n ∈ batch.*1) batches) as [[j' b']|] eqn:E.
  - apply list_find_Some in E as (Hj' & Hn' & _). cbn. f_equal.
    exact (Hsep _ _ _ _ _ Hj' Hj Hn' Hn).
  - apply list_find_None in E. rewrite Forall_forall in E.
    destruct (E b); [|exact Hn]. apply list_elem_of_lookup. eauto.
Qed.

(** ** Lines in the order of the batches *)

Lemma batchesLogged_app (batches : list (list (Z * TestConfig)))
    (evs evs' : list Event) :
  batchesLogged batches (evs ++ evs')
  = batchesLogged batches evs ++ batchesLogged batches evs'.
Proof. apply omap_app. Qed.

Lemma oneBatchAtATime_app (batches : list (list (Z * TestConfig)))
    (evs evs' : list Event) (m : nat) :
  oneBatchAtATime batches evs ->
  Forall (fun a => (a <= m)%nat) (batchesLogged batches evs) ->
  Forall (fun a => a = m) (batchesLogged batches evs') ->
  oneBatchAtATime batches (evs ++ evs').
Proof.
  intros Hold Hle Heq i j a b Hi Hj Hij. rewrite batchesLogged_app in Hi, Hj.
  rewrite Forall_forall in Hle, Heq.
  destruct (decide (j < length (batchesLogged batches evs))%nat) as [Hjl | Hjr].
  - rewrite lookup_app_l in Hi, Hj by lia. exact (Hold i j a b Hi Hj Hij).
  - rewrite (lookup_app_r _ _ j) in Hj by lia.
    assert (b = m) as -> by (apply Heq; eapply list_elem_of_lookup_2; eassumption).
    destruct (decide (i < length (batchesLogged batches evs))%nat) as [Hil | Hir].
    + rewrite lookup_app_l in Hi by lia.
      apply Hle. eapply list_elem_of_lookup_2; eassumption.
    + rewrite lookup_app_r in Hi by lia.
      assert (a = m) as -> by (apply Heq; eapply list_elem_of_lookup_2; eassumption).
      lia.
Qed.

Lemma advance_step (host : Host) (env : Row) (totalTests maxRetries : Z)
    (i : nat) (s s' : Sched) :
  advance host i s = Some s' -> sched_step host env totalTests maxRetries s s'.
Proof.
  unfold advance. destruct (inFlight s !! i) as [[a | X e k]|] eqn:E; try discriminate.
  intros [= <-]. eapply step_call; [exact E|].
  now destruct (handle host e (world s)).
Qed.
(** ** Batches *)

Section Chunk.
Context {T : Type} (array : list T) (size : Z).
Hypothesis positive : 1 <= size.

Lemma arraySlice_chunk (i : Z) :
  0 <= i ->
  arraySlice array i (i + size) = take (Z.to_nat size) (drop (Z.to_nat i) array).
Proof.
  intros Hi. unfold arraySlice.
  destruct (Z.ltb_spec i 0); [lia|]. destruct (Z.ltb_spec (i + size) 0); [lia|].
  destruct (Z_lt_le_dec i (Z.of_nat (length array))) as [Hin | Hout].
  - rewrite (Z.min_l i) by lia.
    destruct (Z_le_gt_dec (i + size) (Z.of_nat (length array))).
    + rewrite Z.min_l by lia. f_equal. lia.
    + rewrite Z.min_r by lia.
      rewrite !take_ge; [reflexivity | |]; rewrite length_drop; lia.
  - rewrite !Z.min_r by lia. rewrite Nat2Z.id, Z.sub_diag.
    rewrite drop_all. rewrite (drop_ge array (Z.to_nat i)) by lia.
    now rewrite !take_nil.
Qed.

Lemma chunkLoop_spec (fuel : nat) :
  forall (i : Z) (acc : list (list T)),
    0 <= i ->
    (forall res, chunkLoop fuel array size i acc = Some res ->
                 exists more, res = acc ++ more /\ blocksFrom array size i more) /\
    (Z.of_nat (length array) - i < Z.of_nat fuel ->
     exists res, chunkLoop fuel array size i acc = Some res).
Proof.
  induction fuel as [|fuel IH]; intros i acc Hi.
  - cbn [chunkLoop]. destruct (Z.ltb_spec i (Z.of_nat (length array))) as [Hin | Hout].
    + split; [discriminate | lia].
    + split; [|eauto]. intros res [= <-]. exists []. split; [now rewrite app_nil_r|].
      split; [|split; [constructor | intros j b Hj; discriminate]].
      rewrite drop_ge by lia. reflexivity.
  - cbn [chunkLoop]. destruct (Z.ltb_spec i (Z.of_nat (length array))) as [Hin | Hout].
    + rewrite arraySlice_chunk by exact Hi.
      set (c := take (Z.to_nat size) (drop (Z.to_nat i) array)).
      destruct (IH (i + size) (acc ++ [c]) ltac:(lia)) as [Hpart Htotal].
      split; [|intros Hfuel; apply Htotal; lia].
      intros res Hres. destruct (Hpart res Hres) as (more & -> & Hcat & Hall & Hfull).
      exists (c :: more). split; [now rewrite <- app_assoc|].
      assert (Hc : length c = Nat.min (Z.to_nat size) (length array - Z.to_nat i))
        by (subst c; now rewrite length_take, length_drop).
      split; [|split].
      * cbn [concat]. rewrite Hcat. subst c.
        replace (Z.to_nat (i + size)) with (Z.to_nat i + Z.to_nat size)%nat by lia.
        rewrite <- drop_drop. apply take_drop.
      * constructor; [lia | exact Hall].
      * intros [|j] b Hj Hlen; cbn in Hj, Hlen.
        -- injection Hj as <-.
           destruct more as [|b' more]; [cbn in Hlen; lia|].
           apply Forall_cons in Hall as [[Hb' _] _].
           apply (f_equal length) in Hcat. cbn [concat] in Hcat.
           rewrite length_app, length_drop in Hcat. lia.
        -- apply (Hfull j b Hj). lia.
    + split; [|eauto]. intros res [= <-]. exists []. split; [now rewrite app_nil_r|].
      split; [|split; [constructor | intros j b Hj; discriminate]].
      rewrite drop_ge by lia. reflexivity.
Qed.

End Chunk.

Lemma imap_numbered (f : nat -> Z) (batch : list TestConfig) :
  (imap (fun j cfg => (f j, cfg)) batch).*2 = batch.
Proof.
  revert f. induction batch as [|cfg batch IH]; intros f; [reflexivity|].
  rewrite imap_cons, fmap_cons. cbn [snd]. f_equal.
  apply (IH (fun j => f (S j))).
Qed.

Lemma numberBatches_configs (batches : list (list TestConfig)) :
  forall completed,
    (fun batch => batch.*2) <$> numberBatches completed batches = batches.
Proof.
  induction batches as [|batch rest IH]; intros completed; [reflexivity|].
  cbn [numberBatches]. rewrite fmap_cons, IH. f_equal.
  apply (imap_numbered (fun j => completed + Z.of_nat j + 1)).
Qed.

Lemma numberBatches_lengths (batches : list (list TestConfig)) :
  forall completed,
    length <$> numberBatches completed batches = length <$> batches.
Proof.
  induction batches as [|batch rest IH]; intros completed; [reflexivity|].
  cbn [numberBatches]. rewrite !fmap_cons, IH. now rewrite length_imap.
Qed.

Lemma find_absent (f : string -> bool) (args : list string) :
  Forall (fun a => f a = false) args -> List.find f args = None.
Proof.
  induction 1 as [|a args Ha _ IH]; [reflexivity|]. simpl. now rewrite Ha.
Qed.

Lemma find_first (f : string -> bool) (before after : list string) (a : string) :
  Forall (fun a => f a = false) before -> f a = true ->
  List.find f (before ++ a :: after) = Some a.
Proof.
  intros Hbefore Ha. induction Hbefore as [|b before Hb _ IH]; simpl.
  - now rewrite Ha.
  - now rewrite Hb.
Qed.

Lemma batchesOf_bounded (fuel : nat) (tests : list TestConfig) (K : Z)
    (batches : list (list (Z * TestConfig))) :
  1 <= K ->
  batchesOf fuel tests K = Some batches ->
  Forall (fun batch => Z.of_nat (length batch) <= K) batches.
Proof.
  intros HK. unfold batchesOf. destruct (Z.eqb_spec K 1) as [-> | Hne].
  - intros [= <-].
    assert (Hone : forall (f : nat -> Z) (l : list TestConfig),
              Forall (fun batch : list (Z * TestConfig) => Z.of_nat (length batch) <= 1)
                     (imap (fun i cfg => [(f i, cfg)]) l)).
    { intros f l. revert f. induction l as [|cfg l IH]; intros f; [constructor|].
      rewrite imap_cons. constructor; [simpl; lia|]. apply (IH (fun i => f (S i))). }
    apply (Hone (fun i => Z.of_nat i + 1)).
  - unfold chunk. destruct (chunkLoop fuel tests K 0 []) as [cs|] eqn:E;
      [|discriminate].
    intros [= <-].
    destruct (chunkLoop_spec tests K HK fuel 0 [] ltac:(lia)) as [Hpart _].
    destruct (Hpart cs E) as (more & -> & _ & Hall & _). cbn [app] in *.
    apply Forall_fmap with (f := length) (P := fun n => Z.of_nat n <= K).
    rewrite numberBatches_lengths. apply Forall_fmap.
    eapply Forall_impl; [exact Hall|]. intros b [_ Hb]. exact Hb.
Qed.

Section Scheduler.
Context (host : Host) (env : Row) (totalTests maxRetries K : Z).
Context (batches : list (list (Z * TestConfig))).
Hypothesis positive : 1 <= K.
Hypothesis bounded : Forall (fun batch => Z.of_nat (length batch) <= K) batches.
Hypothesis apart : separate batches.

Lemma startBatch_whole (batch : list (Z * TestConfig)) :
  Forall2 (fun t p => residual (runSingleTest env t.2 t.1 totalTests maxRetries) p)
          batch (startBatch env totalTests maxRetries batch).
Proof.
  unfold startBatch. induction batch as [|t batch IH]; [constructor|].
  rewrite fmap_cons. constructor; [apply residual_whole | exact IH].
Qed.

(** The calls in flight are the calls of the last batch started, and
    the numbered lines written so far are lines of the batches started,
    in the order of the batches. *)
Lemma reachable_inOrder (w0 : World) (s : Sched) :
  sched_steps host env totalTests maxRetries
    {| world := w0; inFlight := []; notStarted := batches |} s ->
  exists started evs,
    batches = started ++ notStarted s /\
    match last started with
    | None => inFlight s = []
    | Some batch =>
        Forall2 (fun t p =>
                   residual (runSingleTest env t.2 t.1 totalTests maxRetries) p)
                batch (inFlight s)
    end /\
    trace (world s) = trace w0 ++ evs /\
    Forall (fun a => (a < length started)%nat) (batchesLogged batches evs) /\
    oneBatchAtATime batches evs.
Proof.
  intros Hsteps.
  remember {| world := w0; inFlight := []; notStarted := batches |} as s0 eqn:Hs0.
  induction Hsteps as [s | s1 s2 s3 Hsteps IH Hstep].
  - subst s. exists [], []. cbn [world inFlight notStarted last].
    split; [reflexivity|]. split; [reflexivity|].
    split; [now rewrite app_nil_r|]. split; [constructor|].
    intros i j a b Hi. discriminate Hi.
  - destruct (IH Hs0) as (started & evs & Hsplit & Hflight & Htrace & Hbelow & Horder).
    destruct Hstep as [s i X e k x w' Hi Hhandle | s batch rest Hdone Hnext];
      cbn [world inFlight notStarted].
    + destruct (last started) as [batch|] eqn:Hlast;
        [|rewrite Hflight in Hi; discriminate].
      destruct (Forall2_lookup_r _ _ _ _ _ Hflight Hi) as (t & Ht & Hres).
      assert (Hcall : numbered t.1 X e).
      { apply (residual_only (numbered t.1)) in Hres;
          [exact (proj1 Hres) | apply runSingleTest_numbered]. }
      destruct (handle_numbers host e (world s) t.1 Hcall) as (evs' & Hevs' & Hnum).
      rewrite Hhandle in Hevs'. cbn [snd] in Hevs'.
      assert (Hat : batches !! (length started - 1)%nat = Some batch).
      { rewrite Hsplit. rewrite last_lookup in Hlast.
        rewrite lookup_app_l; [|destruct started; [discriminate | cbn; lia]].
        rewrite <- Hlast. f_equal. lia. }
      assert (Hmine : batchOf batches t.1 = Some (length started - 1)%nat).
      { apply (batchOf_separate batches _ batch); [exact apart | exact Hat|].
        apply list_elem_of_fmap. exists t. split; [reflexivity|].
        eapply list_elem_of_lookup_2; exact Ht. }
      assert (Hnew : Forall (fun a => a = (length started - 1)%nat)
                            (batchesLogged batches evs')).
      { unfold batchesLogged. clear - Hnum Hmine.
        induction Hnum as [|ev evs' Hev _ IH]; [constructor|].
        csimpl. destruct Hev as [-> | ->]; csimpl; [exact IH|].
        rewrite Hmine. csimpl. constructor; [reflexivity | exact IH]. }
      assert (Hpos : (0 < length started)%nat)
        by (destruct started; [discriminate | cbn; lia]).
      exists started, (evs ++ evs'). split; [exact Hsplit|]. rewrite Hlast.
      split; [rewrite <- (list_insert_id batch i t Ht);
              apply Forall2_insert; [exact Hflight|];
              eapply residual_answer; exact Hres|].
      split; [now rewrite Hevs', Htrace, app_assoc|].
      split.
      * rewrite batchesLogged_app. apply Forall_app. split; [exact Hbelow|].
        eapply Forall_impl; [exact Hnew|]. cbn. intros a ->. lia.
      * apply (oneBatchAtATime_app batches evs evs' (length started - 1));
          [exact Horder | | exact Hnew].
        eapply Forall_impl; [exact Hbelow|]. cbn. intros a Ha. lia.
    + exists (started ++ [batch]), evs. split.
      * now rewrite Hsplit, Hnext, <- app_assoc.
      * rewrite last_snoc. split; [apply startBatch_whole|].
        split; [exact Htrace|]. split; [|exact Horder].
        eapply Forall_impl; [exact Hbelow|]. cbn. intros a Ha.
        rewrite length_app. cbn. lia.
Qed.

(** Every state [runTests] can reach keeps the discipline. *)
Lemma reachable_disciplined (w0 : World) (s : Sched) :
  openContexts w0 = [] ->
  sched_steps host env totalTests maxRetries
    {| world := w0; inFlight := []; notStarted := batches |} s ->
  disciplined K s.
Proof.
  intros Hclosed Hsteps.
  remember {| world := w0; inFlight := []; notStarted := batches |} as s0 eqn:Hs0.
  induction Hsteps as [s | s1 s2 s3 Hsteps IH Hstep].
  - subst s. exists []. cbn [world inFlight notStarted]. rewrite Hclosed.
    split; [constructor|]. split; [intros c Hc; inversion Hc|].
    split; [constructor|]. split; [intros c Hc; inversion Hc|].
    split; [simpl; lia | exact bounded].
  - eapply disciplined_step; [exact (IH Hs0) | exact Hstep].
Qed.

(** Every state [runTests] can reach is within the bound. *)
Lemma reachable_withinBound (w0 : World) (s : Sched) :
  openContexts w0 = [] ->
  sched_steps host env totalTests maxRetries
    {| world := w0; inFlight := []; notStarted := batches |} s ->
  withinBound env totalTests maxRetries K batches s.
Proof.
  intros Hclosed Hsteps.
  destruct (disciplined_bound K s (reachable_disciplined w0 s Hclosed Hsteps))
    as [Hopen Hlen].
  destruct (reachable_inOrder w0 s Hsteps) as (started & _ & Hsplit & Hflight & _).
  unfold withinBound. split; [lia|]. split; [exact Hlen|]. split; [exact Hopen|].
  exists started. split; [exact Hsplit | exact Hflight].
Qed.

End Scheduler.

(** A state can take a step, or every call in flight has returned and
    either no batch is left or a call has thrown. *)
Lemma sched_progress (host : Host) (env : Row) (totalTests maxRetries : Z) (s : Sched) :
  (exists s', sched_step host env totalTests maxRetries s s') \/
  (Forall (fun p => exists r, p = Ret r) (inFlight s) /\
   (notStarted s = [] \/ exists m, Ret (Thrown m) ∈ inFlight s)).
Proof.
  assert (Hcases : (exists i X (e : Eff X) k, inFlight s !! i = Some (Vis e k)) \/
                   Forall (fun p => exists r, p = Ret r) (inFlight s)).
  { induction (inFlight s) as [|p ps IH]; [right; constructor|].
    destruct p as [r | X e k]; [|left; exists 0%nat, X, e, k; reflexivity].
    destruct IH as [(i & X & e & k & Hi) | Hall].
    - left. exists (S i), X, e, k. exact Hi.
    - right. constructor; [eauto | exact Hall]. }
  destruct Hcases as [(i & X & e & k & Hi) | Hall].
  - left. eexists. eapply step_call; [exact Hi|].
    apply surjective_pairing.
  - assert (Hnormal : Forall (fun p => p = Ret (Normal tt)) (inFlight s) \/
                      exists m, Ret (Thrown m) ∈ inFlight s).
    { clear -Hall. induction Hall as [|p ps [r ->] _ IH]; [left; constructor|].
      destruct r as [[] | m]; [|right; exists m; apply list_elem_of_here].
      destruct IH as [IH | [m Hm]]; [left; constructor; auto|].
      right. exists m. now apply list_elem_of_further. }
    destruct Hnormal as [Hnormal | Hthrown]; [|right; auto].
    destruct (notStarted s) as [|batch rest] eqn:Hnext; [right; auto|].
    left. eexists. eapply step_batch; [exact Hnormal | exact Hnext].
Qed.

(** C3. The concurrency is 1 when no [--parallel] argument is given and
    the number of logical cores when the argument is [--parallel=auto].
    With concurrency 1 every configuration is a batch of its own, in
    order. With concurrency [K >= 2] the configurations are cut, in
    order, into batches of exactly [K], the last one possibly shorter.
    However the calls interleave, in every state [runTests] reaches:
    the batches started are the first ones, and the calls in flight
    are the calls to [runSingleTest] for every configuration of the
    last batch started, each as far as its answers have taken it; no
    more than [K] calls are in flight and no more than [K] contexts
    open; the numbered console lines written so far are lines of the
    batches started, and no line of a batch comes after a line of a
    later batch; any call in flight that waits for an answer can be
    the next to go on, whatever the others wait for; a step that
    starts a batch is taken only when every call in flight has
    returned, and then starts every call of exactly the next batch;
    and there is a next step unless every call has returned and either
    no batch is left or one of the calls has thrown. *)
Theorem batches_bound_open_contexts (host : Host) (env : Row)
    (cpus totalTests maxRetries : Z) :
  (forall args,
     Forall (fun a => JsString.startsWith a "--parallel" = false) args ->
     getConcurrency cpus args = 1) /\
  (forall before after,
     Forall (fun a => JsString.startsWith a "--parallel" = false) before ->
     getConcurrency cpus (before ++ "--parallel=auto" :: after) = cpus) /\
  (forall fuel tests,
     batchesOf fuel tests 1 =
     Some (imap (fun i cfg => [(Z.of_nat i + 1, cfg)]) tests)) /\
  (forall K tests,
     2 <= K ->
     exists batches,
       batchesOf (S (length tests)) tests K = Some batches /\
       concat ((fun batch => batch.*2) <$> batches) = tests /\
       Forall (fun batch => (0 < length batch)%nat /\
                            Z.of_nat (length batch) <= K) batches /\
       (forall j batch, batches !! j = Some batch ->
                        (S j < length batches)%nat ->
                        Z.of_nat (length batch) = K)) /\
  (forall K fuel tests batches w0 s,
     1 <= K ->
     batchesOf fuel tests K = Some batches ->
     openContexts w0 = [] ->
     sched_steps host env totalTests maxRetries
       {| world := w0; inFlight := []; notStarted := batches |} s ->
     withinBound env totalTests maxRetries K batches s /\
     oneBatchAtATime batches (newEvents w0 (world s)) /\
     Forall (fun a => (a + length (notStarted s) < length batches)%nat)
            (batchesLogged batches (newEvents w0 (world s))) /\
     (forall i X (e : Eff X) k,
        inFlight s !! i = Some (Vis e k) ->
        sched_step host env totalTests maxRetries s
          {| world := (handle host e (world s)).2;
             inFlight := <[i := k (handle host e (world s)).1]> (inFlight s);
             notStarted := notStarted s |}) /\
     (forall s',
        sched_step host env totalTests maxRetries s s' ->
        notStarted s' <> notStarted s ->
        Forall (fun p => p = Ret (Normal tt)) (inFlight s) /\
        exists batch,
          notStarted s = batch :: notStarted s' /\
          world s' = world s /\
          inFlight s' =
            (fun t => runSingleTest env t.2 t.1 totalTests maxRetries) <$> batch) /\
     ((exists s', sched_step host env totalTests maxRetries s s') \/
      (Forall (fun p => exists r, p = Ret r) (inFlight s) /\
       (notStarted s = [] \/ exists m, Ret (Thrown m) ∈ inFlight s)))).
Proof.
  split; [|split; [|split; [|split]]].
  - intros args Hnone. unfold getConcurrency, flagValue.
    now rewrite (find_absent _ _ Hnone).
  - intros before after Hnone. unfold getConcurrency, flagValue.
    rewrite (find_first _ before after "--parallel=auto" Hnone eq_refl).
    reflexivity.
  - reflexivity.
  - intros K tests HK. unfold batchesOf, chunk.
    destruct (Z.eqb_spec K 1) as [-> | _]; [lia|].
    destruct (chunkLoop_spec tests K ltac:(lia) (S (length tests)) 0 [] ltac:(lia))
      as [Hpart Htotal].
    destruct Htotal as [cs Hcs]; [lia|]. rewrite Hcs.
    destruct (Hpart cs Hcs) as (more & -> & Hcat & Hall & Hfull). cbn [app] in *.
    exists (numberBatches 0 more). split; [reflexivity|].
    pose proof (numberBatches_lengths more 0) as Hlens.
    split; [now rewrite numberBatches_configs|]. split.
    + apply Forall_fmap with (f := length)
        (P := fun n => (0 < n)%nat /\ Z.of_nat n <= K).
      rewrite Hlens. now apply Forall_fmap.
    + intros j batch Hj Hlast.
      assert (Hlen : (length <$> more) !! j = Some (length batch))
        by (rewrite <- Hlens, list_lookup_fmap, Hj; reflexivity).
      rewrite list_lookup_fmap in Hlen.
      destruct (more !! j) as [b|] eqn:Hb; [|discriminate].
      injection Hlen as <-. apply (Hfull j b Hb).
      apply (f_equal length) in Hlens. rewrite !length_fmap in Hlens. lia.
  - intros K fuel tests batches w0 s HK Hbatches Hclosed Hsteps.
    pose proof (batchesOf_separate fuel tests K batches Hbatches) as Hapart.
    split; [|split; [|split; [|split; [|split]]]].
    + apply (reachable_withinBound host env totalTests maxRetries K batches HK
               (batchesOf_bounded fuel tests K batches HK Hbatches) Hapart w0 s
               Hclosed Hsteps).
    + destruct (reachable_inOrder host env totalTests maxRetries batches Hapart
                  w0 s Hsteps) as (started & evs & _ & _ & Htrace & _ & Horder).
      now rewrite (newEvents_app _ _ _ Htrace).
    + destruct (reachable_inOrder host env totalTests maxRetries batches Hapart
                  w0 s Hsteps) as (started & evs & Hsplit & _ & Htrace & Hbelow & _).
      rewrite (newEvents_app _ _ _ Htrace).
      eapply Forall_impl; [exact Hbelow|]. cbn. intros a Ha.
      apply (f_equal length) in Hsplit. rewrite length_app in Hsplit. lia.
    + intros i X e k Hi. eapply step_call; [exact Hi|]. apply surjective_pairing.
    + intros s' Hstep Hchanged.
      destruct Hstep as [s i X e k x w' Hi Hhandle | s batch rest Hdone Hnext];
        cbn [world inFlight notStarted] in *; [now destruct Hchanged|].
      split; [exact Hdone|]. exists batch. auto.
    + apply sched_progress.
Qed.

(** Two configurations with concurrency 2: the two calls are in
    flight together, and after each has written its first line and
    opened its context both contexts are open at once. *)
Lemma batches_bound_open_contexts_witness :
  getConcurrency 8 ["--tags"; "smoke"; "--parallel=auto"; "--retries=2"] = 8 /\
  (exists batches,
     batchesOf 4 [Sample.loginConfig; Sample.loginConfig; Sample.loginConfig] 2
       = Some batches /\
     Forall (fun batch => (0 < length batch)%nat /\ Z.of_nat (length batch) <= 2)
            batches) /\
  exists s,
    sched_steps Sample.host ∅ 2 0
      {| world := Sample.worldWith Sample.noFiles; inFlight := [];
         notStarted := [[(1, Sample.homeConfig); (2, Sample.homeConfig)]] |} s /\
    length (openContexts (world s)) = 2%nat /\
    withinBound ∅ 2 0 2 [[(1, Sample.homeConfig); (2, Sample.homeConfig)]] s /\
    oneBatchAtATime [[(1, Sample.homeConfig); (2, Sample.homeConfig)]]
      (newEvents (Sample.worldWith Sample.noFiles) (world s)).
Proof.
  destruct (batches_bound_open_contexts Sample.host ∅ 8 2 0)
    as (_ & Hauto & _ & Hcut & Hrun).
  split; [|split].
  - apply (Hauto ["--tags"; "smoke"] ["--retries=2"]).
    repeat constructor.
  - destruct (Hcut 2 [Sample.loginConfig; Sample.loginConfig; Sample.loginConfig])
      as (batches & Hbatches & _ & Hall & _); [lia|].
    exists batches. split; [exact Hbatches | exact Hall].
  - assert (Hreach : exists s,
              sched_steps Sample.host ∅ 2 0
                {| world := Sample.worldWith Sample.noFiles; inFlight := [];
                   notStarted := [[(1, Sample.homeConfig); (2, Sample.homeConfig)]] |} s /\
              length (openContexts (world s)) = 2%nat).
    { eexists. split.
      - eapply steps_more; [eapply steps_more; [eapply steps_more; [eapply steps_more;
          [eapply steps_more; [apply steps_refl|] |] |] |] |].
        + eapply step_batch; [constructor | reflexivity].
        + apply (advance_step _ _ _ _ 0); reflexivity.
        + apply (advance_step _ _ _ _ 1); reflexivity.
        + apply (advance_step _ _ _ _ 0); reflexivity.
        + apply (advance_step _ _ _ _ 1); reflexivity.
      - reflexivity. }
    destruct Hreach as (s & Hsteps & Hopen). exists s.
    destruct (Hrun 2 3%nat [Sample.homeConfig; Sample.homeConfig]
                [[(1, Sample.homeConfig); (2, Sample.homeConfig)]] (Sample.worldWith Sample.noFiles) s
                ltac:(lia) eq_refl eq_refl Hsteps) as (Hbound & Horder & _).
    split; [exact Hsteps|]. split; [exact Hopen|]. split; [exact Hbound | exact Horder].
Defined.
